(** * scripts/echo_provider.py: the echo provider

    The script reads all of standard input, decodes it with [json.loads],
    looks the key 'prompt' up with [dict.get] (default ''), wraps the value
    in a one-key dict and prints [json.dumps] of it.

    The embedding follows the script line by line ([main]) over a small
    IO/exception monad.  The two standard-library calls it makes are
    embedded from CPython's [json] package (decoder.py, scanner.py,
    encoder.py, with the accelerated scanner's ASCII-only digit test):
    [loads], [scan_once], [JSONObject], [JSONArray], [scanstring],
    [encode_basestring_ascii], [iterencode], [dumps].

    Modelling boundary.
    - A Python [str] is a list of code points ([N]); standard input is the
      text [sys.stdin.read()] returns, standard output the text [print]
      writes.
    - A Python [float] is an IEEE-754 binary64 value, [spec_float] of the
      standard library; [float(...)] is correctly rounded decimal to binary
      conversion and [float.__repr__] the shortest decimal that reads back.
    - Resource limits of the interpreter (recursion depth, the cap on the
      number of digits of an integer literal, memory) are outside the
      model: an input on which the interpreter stops at one of them, with
      an exception the script does not catch, is decoded here as if there
      were no limit.
*)

From Stdlib Require Import Ascii String.
From Stdlib Require Import List NArith ZArith Bool Lia.
From Stdlib Require Import Floats.SpecFloat.
From Stdlib Require Decimal DecimalFacts DecimalPos DecimalN.
Import ListNotations.

Local Open Scope N_scope.
Local Open Scope list_scope.

(** ** Text *)

Definition char := N.
Definition str := list char.

Definition ord (a : ascii) : char := N_of_ascii a.

(** ASCII literals of the development, as Python [str] values. *)
Definition u (s : string) : str := map ord (list_ascii_of_string s).

Definition QUOTE : char := 34.
Definition BSLASH : char := 92.
Definition NEWLINE : char := 10.

Fixpoint str_eqb (a b : str) : bool :=
  match a, b with
  | [], [] => true
  | x :: a', y :: b' => (x =? y) && str_eqb a' b'
  | _, _ => false
  end.

(** [s.startswith(p)], returning the remainder of [s] after [p]. *)
Fixpoint strip_prefix (p s : str) : option str :=
  match p with
  | [] => Some s
  | x :: p' =>
      match s with
      | [] => None
      | y :: s' => if x =? y then strip_prefix p' s' else None
      end
  end.

(** ** Exceptions, results, and the process monad *)

Inductive exn : Type :=
| JSONDecodeError
| AttributeError.

(** The third outcome, [OutOfFuel], belongs to the fuel of the recursive
    descent only; [loads_total] shows that [loads] never produces it. *)
Inductive res (A : Type) : Type :=
| Ok (a : A)
| Raise (e : exn)
| OutOfFuel.

Arguments Ok {A} a.
Arguments Raise {A} e.
Arguments OutOfFuel {A}.

Definition res_bind {A B} (m : res A) (k : A -> res B) : res B :=
  match m with
  | Ok a => k a
  | Raise e => Raise e
  | OutOfFuel => OutOfFuel
  end.

Definition res_map {A B} (f : A -> B) (m : res A) : res B :=
  res_bind m (fun a => Ok (f a)).

Declare Scope res_scope.
Delimit Scope res_scope with res.
Notation "x <- m ;; k" := (res_bind m (fun x => k))
  (at level 61, m at next level, right associativity) : res_scope.
Notation "' p <- m ;; k" := (res_bind m (fun x => match x with p => k end))
  (at level 61, p pattern, m at next level, right associativity) : res_scope.
Local Open Scope res_scope.

(** ** Python values produced by [json.loads] *)

#[warnings="-register-all"]
Inductive pyval : Type :=
| PNone
| PBool (b : bool)
| PInt (z : Z)
| PFloat (f : spec_float)
| PStr (s : str)
| PList (l : list pyval)
| PDict (d : list (str * pyval)).

(** A [dict] with [str] keys: insertion ordered, keys unique. *)
Definition pydict := list (str * pyval).

Fixpoint dict_get (d : pydict) (k : str) : option pyval :=
  match d with
  | [] => None
  | (k', v) :: d' => if str_eqb k' k then Some v else dict_get d' k
  end.

(** [d[k] = v]: an existing key keeps its position and takes the new
    value, a new key goes last. *)
Fixpoint dict_setitem (d : pydict) (k : str) (v : pyval) : pydict :=
  match d with
  | [] => [(k, v)]
  | (k', v') :: d' =>
      if str_eqb k' k then (k', v) :: d' else (k', v') :: dict_setitem d' k v
  end.

(** [dict(pairs)] *)
Definition dict_of_pairs (pairs : list (str * pyval)) : pydict :=
  fold_left (fun d kv => dict_setitem d (fst kv) (snd kv)) pairs [].

(** ** decoder.py: [scanstring] *)

(** One hexadecimal digit of a [\uXXXX] escape. *)
Definition hex_value (c : char) : option N :=
  if (ord "0" <=? c) && (c <=? ord "9") then Some (c - ord "0")
  else if (ord "A" <=? c) && (c <=? ord "F") then Some (c - ord "A" + 10)
  else if (ord "a" <=? c) && (c <=? ord "f") then Some (c - ord "a" + 10)
  else None.

(** [_decode_uXXXX]: exactly four hexadecimal digits, [None] standing for
    the "Invalid \uXXXX escape" error. *)
Definition decode_uXXXX (a b c d : char) : option N :=
  match hex_value a, hex_value b, hex_value c, hex_value d with
  | Some x, Some y, Some z, Some w => Some (((x * 16 + y) * 16 + z) * 16 + w)
  | _, _, _, _ => None
  end.

(** The table [BACKSLASH] of one-letter escapes. *)
Definition BACKSLASH (esc : char) : option char :=
  if esc =? QUOTE then Some QUOTE
  else if esc =? BSLASH then Some BSLASH
  else if esc =? ord "/" then Some (ord "/")
  else if esc =? ord "b" then Some 8
  else if esc =? ord "f" then Some 12
  else if esc =? ord "n" then Some 10
  else if esc =? ord "r" then Some 13
  else if esc =? ord "t" then Some 9
  else None.

Definition is_high_surrogate (c : N) : bool := (0xd800 <=? c) && (c <=? 0xdbff).
Definition is_low_surrogate (c : N) : bool := (0xdc00 <=? c) && (c <=? 0xdfff).

(** [0x10000 + (((uni - 0xd800) << 10) | (uni2 - 0xdc00))] *)
Definition join_surrogates (uni uni2 : N) : N :=
  0x10000 + N.lor (N.shiftl (uni - 0xd800) 10) (uni2 - 0xdc00).

Definition cons_chr (c : char) (r : res (str * str)) : res (str * str) :=
  res_map (fun vr => (c :: fst vr, snd vr)) r.

(** [scanstring(s, end)] with [strict=True], on the text after the opening
    quote: the decoded string and the text after the closing quote.  Every
    error of the Python function is a [JSONDecodeError]. *)
Fixpoint scanstring (s : str) : res (str * str) :=
  match s with
  | [] => Raise JSONDecodeError
  | c :: s1 =>
      if c =? QUOTE then Ok ([], s1)
      else if c =? BSLASH then
        match s1 with
        | [] => Raise JSONDecodeError
        | esc :: s2 =>
            if esc =? ord "u" then
              match s2 with
              | h1 :: h2 :: h3 :: h4 :: s3 =>
                  match decode_uXXXX h1 h2 h3 h4 with
                  | None => Raise JSONDecodeError
                  | Some uni =>
                      if is_high_surrogate uni then
                        match s3 with
                        | b1 :: b2 :: l1 :: l2 :: l3 :: l4 :: s4 =>
                            if (b1 =? BSLASH) && (b2 =? ord "u") then
                              match decode_uXXXX l1 l2 l3 l4 with
                              | None => Raise JSONDecodeError
                              | Some uni2 =>
                                  if is_low_surrogate uni2
                                  then cons_chr (join_surrogates uni uni2) (scanstring s4)
                                  else cons_chr uni (scanstring s3)
                              end
                            else cons_chr uni (scanstring s3)
                        | _ => cons_chr uni (scanstring s3)
                        end
                      else cons_chr uni (scanstring s3)
                  end
              | _ => Raise JSONDecodeError
              end
            else
              match BACKSLASH esc with
              | Some ch => cons_chr ch (scanstring s2)
              | None => Raise JSONDecodeError
              end
        end
      else if c <? 32 then Raise JSONDecodeError
      else cons_chr c (scanstring s1)
  end.

(** ** decoder.py: [WHITESPACE] *)

Definition is_ws (c : char) : bool :=
  (c =? ord " ") || (c =? 9) || (c =? 10) || (c =? 13).

(** [_w(s, end).end()]: the text after the longest run of whitespace. *)
Fixpoint skip_ws (s : str) : str :=
  match s with
  | [] => []
  | c :: s' => if is_ws c then skip_ws s' else s
  end.

(** ** scanner.py: [NUMBER_RE] *)

Definition is_digit (c : char) : bool := (ord "0" <=? c) && (c <=? ord "9").

(** The longest run of digits at the head of [s], and the text after it. *)
Fixpoint span_digits (s : str) : str * str :=
  match s with
  | [] => ([], [])
  | c :: s' =>
      if is_digit c
      then let (ds, r) := span_digits s' in (c :: ds, r)
      else ([], s)
  end.

(** The groups of a match of [NUMBER_RE]: an integer group (an optional
    minus sign, then either 0 or a nonzero digit followed by digits), an
    optional fraction group (a dot and at least one digit) and an optional
    exponent group (e or E, an optional sign, at least one digit).  The
    record keeps the sign and digits of the integer group, the digits of
    the fraction group, and the sign and digits of the exponent group. *)
Record number_match : Type := {
  nm_neg : bool;
  nm_int : str;
  nm_frac : option str;
  nm_exp : option (bool * str)
}.

Definition match_frac (s : str) : option str * str :=
  match s with
  | c :: s' =>
      if c =? ord "." then
        match span_digits s' with
        | ([], _) => (None, s)
        | (ds, r) => (Some ds, r)
        end
      else (None, s)
  | [] => (None, s)
  end.

Definition match_exp (s : str) : option (bool * str) * str :=
  match s with
  | c :: s' =>
      if (c =? ord "e") || (c =? ord "E") then
        let (neg, s'') :=
          match s' with
          | sg :: t =>
              if sg =? ord "-" then (true, t)
              else if sg =? ord "+" then (false, t)
              else (false, s')
          | [] => (false, s')
          end in
        match span_digits s'' with
        | ([], _) => (None, s)
        | (ds, r) => (Some (neg, ds), r)
        end
      else (None, s)
  | [] => (None, s)
  end.

Definition match_number (s : str) : option (number_match * str) :=
  let (neg, s1) :=
    match s with
    | c :: s' => if c =? ord "-" then (true, s') else (false, s)
    | [] => (false, s)
    end in
  match s1 with
  | [] => None
  | c :: s2 =>
      if is_digit c then
        let (ds, s3) := if c =? ord "0" then ([], s2) else span_digits s2 in
        let (frac, s4) := match_frac s3 in
        let (exp, s5) := match_exp s4 in
        Some ({| nm_neg := neg; nm_int := c :: ds;
                 nm_frac := frac; nm_exp := exp |}, s5)
      else None
  end.

(** ** [int(...)], [float(...)], [int.__repr__] and [float.__repr__] *)

Definition digit_value (c : char) : N := c - ord "0".

Definition digits_value (ds : str) : N :=
  fold_left (fun acc c => acc * 10 + digit_value c) ds 0.

(** [int(integer)] *)
Definition py_int (m : number_match) : Z :=
  let n := Z.of_N (digits_value (nm_int m)) in
  if nm_neg m then (- n)%Z else n.

(** The binary64 value nearest to [(-1)^neg * m * 10^e10], ties to even;
    a value past the largest finite one becomes an infinity. *)
Definition float_of_decimal (neg : bool) (m : N) (e10 : Z) : spec_float :=
  match m with
  | N0 => S754_zero neg
  | Npos p =>
      if (0 <=? e10)%Z
      then binary_round 53 1024 neg (p * Z.to_pos (10 ^ e10)) 0
      else
        let '(q, e, l) :=
          SFdiv_core_binary 53 1024 (Zpos p) 0 (10 ^ (- e10))%Z 0 in
        binary_round_aux 53 1024 neg q e l
  end.

(** [float(integer + frac + exp)] *)
Definition py_float (m : number_match) : spec_float :=
  let frac := match nm_frac m with Some ds => ds | None => [] end in
  let e :=
    match nm_exp m with
    | Some (eneg, ds) =>
        let v := Z.of_N (digits_value ds) in if eneg then (- v)%Z else v
    | None => 0%Z
    end in
  float_of_decimal (nm_neg m) (digits_value (nm_int m ++ frac))
                   (e - Z.of_nat (length frac)).

Fixpoint chars_of_uint (d : Decimal.uint) : str :=
  match d with
  | Decimal.Nil => []
  | Decimal.D0 d' => ord "0" :: chars_of_uint d'
  | Decimal.D1 d' => ord "1" :: chars_of_uint d'
  | Decimal.D2 d' => ord "2" :: chars_of_uint d'
  | Decimal.D3 d' => ord "3" :: chars_of_uint d'
  | Decimal.D4 d' => ord "4" :: chars_of_uint d'
  | Decimal.D5 d' => ord "5" :: chars_of_uint d'
  | Decimal.D6 d' => ord "6" :: chars_of_uint d'
  | Decimal.D7 d' => ord "7" :: chars_of_uint d'
  | Decimal.D8 d' => ord "8" :: chars_of_uint d'
  | Decimal.D9 d' => ord "9" :: chars_of_uint d'
  end.

(** The decimal digits of a natural number, most significant first. *)
Definition digits_of_N (n : N) : str := chars_of_uint (N.to_uint n).

(** [int.__repr__] *)
Definition intstr (z : Z) : str :=
  match z with
  | Zneg p => ord "-" :: digits_of_N (Npos p)
  | _ => digits_of_N (Z.to_N z)
  end.

Definition sf_eqb (x y : spec_float) : bool :=
  match x, y with
  | S754_zero a, S754_zero b => Bool.eqb a b
  | S754_infinity a, S754_infinity b => Bool.eqb a b
  | S754_nan, S754_nan => true
  | S754_finite a m e, S754_finite b m' e' =>
      Bool.eqb a b && (m =? m')%positive && (e =? e')%Z
  | _, _ => false
  end.

(** [k] with [10^k <= num/den < 10^(k+1)] *)
Definition floor_log10 (num den : Z) : Z :=
  if (den <=? num)%Z
  then (Z.of_nat (length (digits_of_N (Z.to_N (num / den)))) - 1)%Z
  else (- Z.of_nat (length (digits_of_N (Z.to_N ((den - 1) / num)))))%Z.

(** The decimals [d * 10^sc] with [p] digits next to [num/den] (which lies
    in [10^k, 10^(k+1))): the one below, the remainder that tells how far
    above it the value is, and the scale. *)
Definition decimal_below (num den k p : Z) : Z * Z * Z * Z :=
  let sc := (k - p + 1)%Z in
  let a := if (0 <=? sc)%Z then num else (num * 10 ^ (- sc))%Z in
  let b := if (0 <=? sc)%Z then (den * 10 ^ sc)%Z else den in
  ((a / b)%Z, (a mod b)%Z, b, sc).

(** The [p]-digit decimal that reads back as [x] and is nearest to it (ties
    to the even digit string), if there is one. *)
Definition repr_try (x : spec_float) (num den k p : Z) : option (Z * Z) :=
  let '(lo, r, b, sc) := decimal_below num den k p in
  let ok d := sf_eqb (float_of_decimal false (Z.to_N d) sc) x in
  if (r =? 0)%Z then Some (lo, sc)
  else
    let hi := (lo + 1)%Z in
    match ok lo, ok hi with
    | true, true =>
        match (2 * r ?= b)%Z with
        | Lt => Some (lo, sc)
        | Gt => Some (hi, sc)
        | Eq => if Z.even lo then Some (lo, sc) else Some (hi, sc)
        end
    | true, false => Some (lo, sc)
    | false, true => Some (hi, sc)
    | false, false => None
    end.

(** The shortest digit string that reads back as [x]: precisions 1, 2, ...
    are tried in turn; 17 digits always suffice for binary64. *)
Fixpoint repr_search (fuel : nat) (x : spec_float) (num den k p : Z) : Z * Z :=
  match fuel with
  | O => let '(lo, r, b, sc) := decimal_below num den k p in
         (if (2 * r <? b)%Z then lo else (lo + 1)%Z, sc)
  | S fuel' =>
      match repr_try x num den k p with
      | Some r => r
      | None => repr_search fuel' x num den k (p + 1)%Z
      end
  end.

Fixpoint strip_zeros (fuel : nat) (d sc : Z) : Z * Z :=
  match fuel with
  | O => (d, sc)
  | S fuel' =>
      if (0 <? d)%Z && (d mod 10 =? 0)%Z
      then strip_zeros fuel' (d / 10)%Z (sc + 1)%Z
      else (d, sc)
  end.

(** The exponent of the scientific form: a sign and at least two digits. *)
Definition exp_str (e : Z) : str :=
  let ds := digits_of_N (Z.to_N (Z.abs e)) in
  (if (e <? 0)%Z then ord "-" else ord "+") ::
  (if (Z.abs e <? 10)%Z then ord "0" :: ds else ds).

(** The layout of [repr]: [ds] are the digits and the value is
    [0.ds * 10^decpt]; the scientific form is used when [decpt <= -4] or
    [decpt > 16], and a fixed-point form without fraction gets [.0]. *)
Definition format_repr (neg : bool) (ds : str) (decpt : Z) : str :=
  (if neg then [ord "-"] else []) ++
  (if (decpt <=? -4)%Z || (16 <? decpt)%Z then
     match ds with
     | [] => []
     | d :: rest =>
         d :: (match rest with [] => [] | _ => ord "." :: rest end)
           ++ ord "e" :: exp_str (decpt - 1)
     end
   else if (decpt <=? 0)%Z then
     u "0." ++ repeat (ord "0") (Z.to_nat (- decpt)) ++ ds
   else if (Z.of_nat (length ds) <=? decpt)%Z then
     ds ++ repeat (ord "0") (Z.to_nat decpt - length ds) ++ u ".0"
   else
     firstn (Z.to_nat decpt) ds ++ ord "." :: skipn (Z.to_nat decpt) ds).

(** [float.__repr__] *)
Definition float_repr (x : spec_float) : str :=
  match x with
  | S754_nan => u "nan"
  | S754_infinity s => if s then u "-inf" else u "inf"
  | S754_zero s => if s then u "-0.0" else u "0.0"
  | S754_finite s m e =>
      let num := if (0 <=? e)%Z then (Zpos m * 2 ^ e)%Z else Zpos m in
      let den := if (0 <=? e)%Z then 1%Z else (2 ^ (- e))%Z in
      let k := floor_log10 num den in
      let '(d, sc) := repr_search 17 (S754_finite false m e) num den k 1 in
      let '(d', sc') := strip_zeros 17 d sc in
      let ds := digits_of_N (Z.to_N d') in
      format_repr s ds (Z.of_nat (length ds) + sc')
  end.

(** [allow_nan=True]: [floatstr] of encoder.py *)
Definition floatstr (o : spec_float) : str :=
  match o with
  | S754_nan => u "NaN"
  | S754_infinity false => u "Infinity"
  | S754_infinity true => u "-Infinity"
  | _ => float_repr o
  end.

(** ** decoder.py: [JSONArray] and [JSONObject]

    Both receive [scan_once] as an argument, as in Python.  Their
    [while True] loops take a fuel that bounds the number of iterations.
    The hand-unrolled whitespace tests of the Python code ("if the next
    character is whitespace, skip the run") are [skip_ws]. *)

Section Containers.

Variable scan_once : str -> res (pyval * str).

Fixpoint JSONArray_loop (fuel : nat) (s : str) (values : list pyval)
  : res (pyval * str) :=
  match fuel with
  | O => OutOfFuel
  | S fuel' =>
      ' (value, s1) <- scan_once s ;;
      match skip_ws s1 with
      | [] => Raise JSONDecodeError
      | nextchar :: s2 =>
          if nextchar =? ord "]" then Ok (PList (values ++ [value]), s2)
          else if nextchar =? ord ","
          then JSONArray_loop fuel' (skip_ws s2) (values ++ [value])
          else Raise JSONDecodeError
      end
  end.

Definition JSONArray (fuel : nat) (s : str) : res (pyval * str) :=
  match skip_ws s with
  | nextchar :: s1 =>
      if nextchar =? ord "]" then Ok (PList [], s1)
      else JSONArray_loop fuel (skip_ws s) []
  | [] => JSONArray_loop fuel [] []
  end.

Fixpoint JSONObject_loop (fuel : nat) (s : str) (pairs : list (str * pyval))
  : res (pyval * str) :=
  match fuel with
  | O => OutOfFuel
  | S fuel' =>
      ' (key, s1) <- scanstring s ;;
      match skip_ws s1 with
      | [] => Raise JSONDecodeError
      | colon :: s2 =>
          if colon =? ord ":" then
            ' (value, s3) <- scan_once (skip_ws s2) ;;
            match skip_ws s3 with
            | [] => Raise JSONDecodeError
            | nextchar :: s4 =>
                if nextchar =? ord "}"
                then Ok (PDict (dict_of_pairs (pairs ++ [(key, value)])), s4)
                else if nextchar =? ord "," then
                  match skip_ws s4 with
                  | [] => Raise JSONDecodeError
                  | q :: s5 =>
                      if q =? QUOTE
                      then JSONObject_loop fuel' s5 (pairs ++ [(key, value)])
                      else Raise JSONDecodeError
                  end
                else Raise JSONDecodeError
            end
          else Raise JSONDecodeError
      end
  end.

Definition JSONObject (fuel : nat) (s : str) : res (pyval * str) :=
  match skip_ws s with
  | [] => Raise JSONDecodeError
  | nextchar :: s1 =>
      if nextchar =? QUOTE then JSONObject_loop fuel s1 []
      else if nextchar =? ord "}" then Ok (PDict [], s1)
      else Raise JSONDecodeError
  end.

End Containers.

(** ** scanner.py: [scan_once]

    [StopIteration] is turned into [JSONDecodeError] ("Expecting value") by
    every caller, so it is raised as such here. *)

Definition number_value (m : number_match) : pyval :=
  match nm_frac m, nm_exp m with
  | None, None => PInt (py_int m)
  | _, _ => PFloat (py_float m)
  end.

(** The part of [_scan_once] after the three container/string cases. *)
Definition scan_atom (s : str) : res (pyval * str) :=
  match strip_prefix (u "null") s with
  | Some r => Ok (PNone, r)
  | None =>
  match strip_prefix (u "true") s with
  | Some r => Ok (PBool true, r)
  | None =>
  match strip_prefix (u "false") s with
  | Some r => Ok (PBool false, r)
  | None =>
  match match_number s with
  | Some (m, r) => Ok (number_value m, r)
  | None =>
  match strip_prefix (u "NaN") s with
  | Some r => Ok (PFloat S754_nan, r)
  | None =>
  match strip_prefix (u "Infinity") s with
  | Some r => Ok (PFloat (S754_infinity false), r)
  | None =>
  match strip_prefix (u "-Infinity") s with
  | Some r => Ok (PFloat (S754_infinity true), r)
  | None => Raise JSONDecodeError
  end end end end end end end.

Fixpoint scan_once (fuel : nat) (s : str) : res (pyval * str) :=
  match fuel with
  | O => OutOfFuel
  | S fuel' =>
      match s with
      | [] => Raise JSONDecodeError
      | nextchar :: s' =>
          if nextchar =? QUOTE then
            ' (v, r) <- scanstring s' ;; Ok (PStr v, r)
          else if nextchar =? ord "{" then
            JSONObject (scan_once fuel') fuel' s'
          else if nextchar =? ord "[" then
            JSONArray (scan_once fuel') fuel' s'
          else scan_atom s
      end
  end.

(** [JSONDecoder.decode]: one value, whitespace around it, nothing else.
    The fuel [S (length s)] is enough for every text ([loads_total]). *)
Definition decode (s : str) : res pyval :=
  ' (obj, rest) <- scan_once (S (length s)) (skip_ws s) ;;
  match skip_ws rest with
  | [] => Ok obj
  | _ :: _ => Raise JSONDecodeError
  end.

(** [json.loads] on a [str]: a leading U+FEFF is refused. *)
Definition loads (s : str) : res pyval :=
  match s with
  | c :: _ => if c =? 0xfeff then Raise JSONDecodeError else decode s
  | [] => decode s
  end.

(** ** encoder.py *)

Definition hex_digit (n : N) : char :=
  if n <? 10 then ord "0" + n else ord "a" + (n - 10).

(** ['{0:04x}'.format(n)] for [n < 0x10000] *)
Definition hex4 (n : N) : str :=
  [hex_digit (n / 4096 mod 16); hex_digit (n / 256 mod 16);
   hex_digit (n / 16 mod 16); hex_digit (n mod 16)].

Definition u_escape (n : N) : str := BSLASH :: ord "u" :: hex4 n.

(** [replace] of [py_encode_basestring_ascii]: the characters from space
    to tilde other than the quote and the backslash stand for themselves;
    the others are looked up in [ESCAPE_DCT] or written as [\uXXXX], above
    the basic plane as a surrogate pair. *)
Definition escape_char (c : char) : str :=
  if c =? BSLASH then [BSLASH; BSLASH]
  else if c =? QUOTE then [BSLASH; QUOTE]
  else if (ord " " <=? c) && (c <=? ord "~") then [c]
  else if c =? 8 then [BSLASH; ord "b"]
  else if c =? 12 then [BSLASH; ord "f"]
  else if c =? 10 then [BSLASH; ord "n"]
  else if c =? 13 then [BSLASH; ord "r"]
  else if c =? 9 then [BSLASH; ord "t"]
  else if c <? 0x10000 then u_escape c
  else
    let n := c - 0x10000 in
    let s1 := N.lor 0xd800 (N.land (N.shiftr n 10) 0x3ff) in
    let s2 := N.lor 0xdc00 (N.land n 0x3ff) in
    u_escape s1 ++ u_escape s2.

Definition encode_basestring_ascii (s : str) : str :=
  QUOTE :: flat_map escape_char s ++ [QUOTE].

(** [sep.join(l)] *)
Fixpoint join (sep : str) (l : list str) : str :=
  match l with
  | [] => []
  | x :: l' =>
      match l' with
      | [] => x
      | _ :: _ => x ++ sep ++ join sep l'
      end
  end.

Definition item_separator : str := u ", ".
Definition key_separator : str := u ": ".

(** [_iterencode] with the default settings ([indent=None],
    [sort_keys=False], [ensure_ascii=True]), its chunks joined. *)
Fixpoint iterencode (o : pyval) : str :=
  match o with
  | PStr s => encode_basestring_ascii s
  | PNone => u "null"
  | PBool true => u "true"
  | PBool false => u "false"
  | PInt z => intstr z
  | PFloat f => floatstr f
  | PList l =>
      match l with
      | [] => u "[]"
      | _ :: _ => ord "[" :: join item_separator (map iterencode l) ++ [ord "]"]
      end
  | PDict d =>
      match d with
      | [] => u "{}"
      | _ :: _ =>
          ord "{" ::
          join item_separator
            (map (fun kv => encode_basestring_ascii (fst kv)
                            ++ key_separator ++ iterencode (snd kv)) d)
          ++ [ord "}"]
      end
  end.

(** [json.dumps(obj)] *)
Definition dumps (obj : pyval) : str := iterencode obj.

(** ** The process: standard streams and uncaught exceptions *)

Record world : Type := { stdin : str; stdout : str }.

Definition IO (A : Type) : Type := world -> res A * world.

Definition io_bind {A B} (m : IO A) (k : A -> IO B) : IO B :=
  fun w =>
    match m w with
    | (Ok a, w') => k a w'
    | (Raise e, w') => (Raise e, w')
    | (OutOfFuel, w') => (OutOfFuel, w')
    end.

Definition lift {A} (r : res A) : IO A := fun w => (r, w).

Declare Scope io_scope.
Delimit Scope io_scope with io.
Notation "x <- m ;; k" := (io_bind m (fun x => k))
  (at level 61, m at next level, right associativity) : io_scope.

(** [sys.stdin.read()]: all the remaining text of standard input. *)
Definition sys_stdin_read : IO str :=
  fun w => (Ok (stdin w), {| stdin := []; stdout := stdout w |}).

(** [print(s)]: the text and a newline. *)
Definition print (s : str) : IO unit :=
  fun w => (Ok tt, {| stdin := stdin w; stdout := stdout w ++ s ++ [NEWLINE] |}).

(** [o.get(key, default)]: only a [dict] has the method. *)
Definition method_get (o : pyval) (key : str) (default : pyval) : res pyval :=
  match o with
  | PDict d =>
      Ok (match dict_get d key with Some v => v | None => default end)
  | _ => Raise AttributeError
  end.

(** ** echo_provider.py *)

(** The dict literal of lines 12-14. *)
Definition result_of (prompt : pyval) : pyval := PDict [(u "output", prompt)].

Definition main : IO unit :=
  (text <- sys_stdin_read ;;
   input_data <- lift (loads text) ;;
   prompt <- lift (method_get input_data (u "prompt") (PStr [])) ;;
   let result := result_of prompt in
   print (dumps result))%io.

(** What the caller of the script observes. *)
Record completed : Type := {
  exit_status : Z;
  output : str;
  uncaught : option exn
}.

(** [python3 echo_provider.py] with the given text on standard input: exit
    status 0 when [main] returns, 1 when an exception escapes it. *)
Definition run (input : str) : option completed :=
  match main {| stdin := input; stdout := [] |} with
  | (Ok _, w) => Some {| exit_status := 0; output := stdout w; uncaught := None |}
  | (Raise e, w) => Some {| exit_status := 1; output := stdout w; uncaught := Some e |}
  | (OutOfFuel, _) => None
  end.

(** * Properties *)

(** ** The denotation of a JSON string literal

    [string_body body s]: the characters [body] between the quotes of a
    JSON string literal denote the string [s].  An unescaped character is
    any character from U+0020 on other than the quote and the backslash; a
    [\uXXXX] escape denotes its code unit, and a high-surrogate escape
    directly followed by a low-surrogate escape denotes the code point of
    the pair. *)

Definition low_escape_follows (t : str) : bool :=
  match t with
  | b1 :: b2 :: l1 :: l2 :: l3 :: l4 :: _ =>
      (b1 =? BSLASH) && (b2 =? ord "u") &&
      match decode_uXXXX l1 l2 l3 l4 with
      | Some lo => is_low_surrogate lo
      | None => false
      end
  | _ => false
  end.

Inductive string_body : str -> str -> Prop :=
| sb_nil : string_body [] []
| sb_plain c body s :
    32 <= c -> c <> QUOTE -> c <> BSLASH ->
    string_body body s ->
    string_body (c :: body) (c :: s)
| sb_escape esc ch body s :
    BACKSLASH esc = Some ch ->
    string_body body s ->
    string_body (BSLASH :: esc :: body) (ch :: s)
| sb_unicode h1 h2 h3 h4 uni body s :
    decode_uXXXX h1 h2 h3 h4 = Some uni ->
    is_high_surrogate uni && low_escape_follows body = false ->
    string_body body s ->
    string_body (BSLASH :: ord "u" :: h1 :: h2 :: h3 :: h4 :: body) (uni :: s)
| sb_pair h1 h2 h3 h4 l1 l2 l3 l4 hi lo body s :
    decode_uXXXX h1 h2 h3 h4 = Some hi -> is_high_surrogate hi = true ->
    decode_uXXXX l1 l2 l3 l4 = Some lo -> is_low_surrogate lo = true ->
    string_body body s ->
    string_body (BSLASH :: ord "u" :: h1 :: h2 :: h3 :: h4 ::
                 BSLASH :: ord "u" :: l1 :: l2 :: l3 :: l4 :: body)
                (join_surrogates hi lo :: s).

(** A JSON string literal: the body between two quotes. *)
Definition dq (body : str) : str := QUOTE :: body ++ [QUOTE].

Definition string_literal (lit s : str) : Prop :=
  exists body, lit = dq body /\ string_body body s.

(** Code points, Unicode scalar values, and strings that a decoder reads
    back unchanged: no high surrogate directly followed by a low one. *)
Definition is_surrogate (c : char) : bool := (0xd800 <=? c) && (c <=? 0xdfff).
Definition is_code_point (c : char) : bool := c <? 0x110000.
Definition is_scalar (c : char) : bool := is_code_point c && negb (is_surrogate c).

Fixpoint no_pair (s : str) : bool :=
  match s with
  | [] => true
  | c :: s' =>
      match s' with
      | [] => true
      | d :: _ => negb (is_high_surrogate c && is_low_surrogate d) && no_pair s'
      end
  end.

Definition wf_str (s : str) : Prop :=
  Forall (fun c => is_code_point c = true) s /\ no_pair s = true.

(** The outcomes of one step of [scanstring]. *)
Inductive scan_view : str -> res (str * str) -> Prop :=
| sv_raise t : scan_view t (Raise JSONDecodeError)
| sv_quote r : scan_view (QUOTE :: r) (Ok ([], r))
| sv_plain c s1 :
    32 <= c -> c <> QUOTE -> c <> BSLASH ->
    scan_view (c :: s1) (cons_chr c (scanstring s1))
| sv_escape esc ch s2 :
    BACKSLASH esc = Some ch ->
    scan_view (BSLASH :: esc :: s2) (cons_chr ch (scanstring s2))
| sv_unicode h1 h2 h3 h4 uni s3 :
    decode_uXXXX h1 h2 h3 h4 = Some uni ->
    is_high_surrogate uni && low_escape_follows s3 = false ->
    scan_view (BSLASH :: ord "u" :: h1 :: h2 :: h3 :: h4 :: s3)
              (cons_chr uni (scanstring s3))
| sv_pair h1 h2 h3 h4 l1 l2 l3 l4 hi lo s4 :
    decode_uXXXX h1 h2 h3 h4 = Some hi -> is_high_surrogate hi = true ->
    decode_uXXXX l1 l2 l3 l4 = Some lo -> is_low_surrogate lo = true ->
    scan_view (BSLASH :: ord "u" :: h1 :: h2 :: h3 :: h4 ::
               BSLASH :: ord "u" :: l1 :: l2 :: l3 :: l4 :: s4)
              (cons_chr (join_surrogates hi lo) (scanstring s4)).

(** ** Outcomes of a run *)

(** The value line 9 extracts from the decoded object. *)
Definition prompt_of (d : pydict) : pyval :=
  match dict_get d (u "prompt") with
  | Some v => v
  | None => PStr []
  end.

Definition success (out : str) : completed :=
  {| exit_status := 0; output := out; uncaught := None |}.

Definition failure (e : exn) : completed :=
  {| exit_status := 1; output := []; uncaught := Some e |}.

(** The line [{"output": value}] and its newline, for the JSON text
    [value]. *)
Definition output_line (value : str) : str :=
  u "{" ++ dq (u "output") ++ u ": " ++ value ++ u "}" ++ [NEWLINE].

(** The text [{"prompt": value}], for the JSON text [value]. *)
Definition prompt_object (value : str) : str :=
  u "{" ++ dq (u "prompt") ++ u ": " ++ value ++ u "}".

(** A character that stands for itself in a literal. *)
Definition is_plain (c : char) : bool :=
  (32 <=? c) && negb (c =? QUOTE) && negb (c =? BSLASH).

(** ** Invariants of the decoder *)

(** The characters [dumps] may write. *)
Definition printable (c : char) : bool := (32 <=? c) && (c <=? 126).

Definition all_printable (s : str) : Prop := forallb printable s = true.

(** Every string inside the value, keys included, is one the encoder
    writes back faithfully, and no dict holds a key twice. *)
#[warnings="-register-all"]
Inductive wf_val : pyval -> Prop :=
| wf_none : wf_val PNone
| wf_bool b : wf_val (PBool b)
| wf_int z : wf_val (PInt z)
| wf_float f : wf_val (PFloat f)
| wf_pstr s : wf_str s -> wf_val (PStr s)
| wf_list l : Forall wf_val l -> wf_val (PList l)
| wf_dict d :
    Forall (fun kv => wf_str (fst kv) /\ wf_val (snd kv)) d ->
    NoDup (map fst d) ->
    wf_val (PDict d).

Definition scalar_text (t : str) : Prop := Forall (fun c => is_scalar c = true) t.

(** [r] is what is left of [t] after reading some of it. *)
Definition suffix (r t : str) : Prop := exists p, t = p ++ r.

(** What a scanner called on [t] may answer: it consumed at least one
    character, or raised [JSONDecodeError]; it did not run out of fuel. *)
Definition scan_post (t : str) (x : res (pyval * str)) : Prop :=
  match x with
  | Ok (v, r) =>
      suffix r t /\ (length r < length t)%nat /\ (scalar_text t -> wf_val v)
  | Raise e => e = JSONDecodeError
  | OutOfFuel => False
  end.

(** The same for the loops of [JSONArray] and [JSONObject], which carry
    the values read so far. *)
Definition array_post (t : str) (values : list pyval) (x : res (pyval * str)) : Prop :=
  match x with
  | Ok (v, r) =>
      suffix r t /\ (length r < length t)%nat /\
      (scalar_text t -> Forall wf_val values -> wf_val v)
  | Raise e => e = JSONDecodeError
  | OutOfFuel => False
  end.

Definition object_post (t : str) (pairs : list (str * pyval)) (x : res (pyval * str)) : Prop :=
  match x with
  | Ok (v, r) =>
      suffix r t /\ (length r < length t)%nat /\
      (scalar_text t ->
       Forall (fun kv => wf_str (fst kv) /\ wf_val (snd kv)) pairs -> wf_val v)
  | Raise e => e = JSONDecodeError
  | OutOfFuel => False
  end.

(** ** Reading back what [dumps] wrote *)

(** What may follow a value in a JSON text. *)
Definition is_delimiter (c : char) : bool :=
  is_ws c || (c =? ord ",") || (c =? ord "]") || (c =? ord "}").

Definition delimited (rest : str) : bool :=
  match rest with
  | [] => true
  | c :: _ => is_delimiter c
  end.

(** [float(repr(f)) == f], as the scanner sees it: the text [floatstr]
    writes for [f] is read back as [f].  CPython's [repr] has this property
    for every float; here it is shown for the zeros, the infinities and
    NaN ([special_float_reads_back]) and is a side condition for the other
    floats. *)
Definition float_reads_back (f : spec_float) : Prop :=
  forall rest, delimited rest = true ->
    scan_atom (floatstr f ++ rest) = Ok (PFloat f, rest).

#[warnings="-register-all"]
Inductive reads_back : pyval -> Prop :=
| rb_none : reads_back PNone
| rb_bool b : reads_back (PBool b)
| rb_int z : reads_back (PInt z)
| rb_float f : float_reads_back f -> reads_back (PFloat f)
| rb_str s : reads_back (PStr s)
| rb_list l : Forall reads_back l -> reads_back (PList l)
| rb_dict d : Forall (fun kv => reads_back (snd kv)) d -> reads_back (PDict d).

(** The number of nodes of a value: enough fuel to read its text back. *)
Fixpoint size (v : pyval) : nat :=
  match v with
  | PList l => S (list_sum (map size l))
  | PDict d => S (list_sum (map (fun kv => size (snd kv)) d))
  | _ => 1
  end.

(** ** The text of a number *)

(** The text that [NUMBER_RE] matches with the groups [m], the exponent
    with its sign written out. *)
Definition number_text (m : number_match) : str :=
  (if nm_neg m then [ord "-"] else []) ++ nm_int m ++
  match nm_frac m with Some ds => ord "." :: ds | None => [] end ++
  match nm_exp m with
  | Some (neg, ds) => ord "e" :: (if neg then ord "-" else ord "+") :: ds
  | None => []
  end.

Definition digit_run (ds : str) : Prop := ds <> [] /\ forallb is_digit ds = true.

(** The groups of a number as the pattern wants them. *)
Definition wf_number (m : number_match) : Prop :=
  (exists c ds, nm_int m = c :: ds /\ is_digit c = true /\
                forallb is_digit ds = true /\ ((c =? ord "0") = true -> ds = [])) /\
  match nm_frac m with Some ds => digit_run ds | None => True end /\
  match nm_exp m with Some (_, ds) => digit_run ds | None => True end.

(** A text at which a run of digits stops. *)
Definition stops (t : str) : bool :=
  match t with
  | [] => true
  | c :: _ => negb (is_digit c)
  end.

(** [float(repr(f))], as the scanner computes it from the text [floatstr]
    writes. *)
Definition float_reread (f : spec_float) : spec_float :=
  match scan_atom (floatstr f) with
  | Ok (PFloat f', _) => f'
  | _ => f
  end.

(** The value with every float read again from its text. *)
Fixpoint reread (v : pyval) : pyval :=
  match v with
  | PFloat f => PFloat (float_reread f)
  | PList l => PList (map reread l)
  | PDict d => PDict (map (fun kv => (fst kv, reread (snd kv))) d)
  | _ => v
  end.

(** A value's text starts with a character that is no whitespace and
    closes no array. *)
Definition starts_value (t : str) : Prop :=
  exists c t', t = c :: t' /\ is_ws c = false /\ (c =? ord "]") = false.

(** What a scanner must do on the text of one value for the loops to read
    a whole container back. *)
Definition reads (scan : str -> res (pyval * str)) (v : pyval) : Prop :=
  starts_value (iterencode v) /\
  forall r, delimited r = true -> scan (iterencode v ++ r) = Ok (reread v, r).

(** ** Whitespace around the text *)

(** A run of whitespace. *)
Definition blank (w : str) : Prop := Forall (fun c => is_ws c = true) w.

(** The answer of a scanner when [w] is added after the text. *)
Definition rest_app {A} (w : str) (x : res (A * str)) : res (A * str) :=
  res_map (fun vr => (fst vr, snd vr ++ w)) x.

(** The answer of [scanstring] when the characters denoting [s] are put
    before the text. *)
Definition prepend (s : str) (x : res (str * str)) : res (str * str) :=
  res_map (fun vr => (s ++ fst vr, snd vr)) x.

(** ** An object given member by member *)

(** One member of an object as [dumps] writes it, and the text of an
    object with the members [ms] in their order; a key may come more than
    once. *)
Definition member_text (kv : str * pyval) : str :=
  encode_basestring_ascii (fst kv) ++ key_separator ++ iterencode (snd kv).

Definition object_text (ms : list (str * pyval)) : str :=
  u "{" ++ join item_separator (map member_text ms) ++ u "}".

(** ** Text after a value *)

Definition is_number (v : pyval) : bool :=
  match v with
  | PInt _ | PFloat _ => true
  | _ => false
  end.

(** The texts that may follow the text of [v] without changing how it is
    read: anything after a string, a container or one of null, true and
    false; a delimiter or the end after a number. *)
Definition may_follow (v : pyval) (r : str) : Prop :=
  delimited r = true \/ is_number v = false.

(** [scan] on [t], when it answers, has read a prefix of [t] that it reads
    the same before any other text that may follow. *)
Definition local (scan : str -> res (pyval * str)) : Prop :=
  forall t v r, scan t = Ok (v, r) ->
    exists p, p <> [] /\ t = p ++ r /\
      forall r', may_follow v r' -> scan (p ++ r') = Ok (v, r').

(** ** JSON text

    The grammar of RFC 8259, character by character.  With [ext] the three
    constants [NaN], [Infinity] and [-Infinity] that Python's [json] reads
    and writes count as values too; without it the grammar is JSON. *)

(** [frac = decimal-point 1*DIGIT], or nothing. *)
Definition frac_lexeme (t : str) : Prop :=
  t = [] \/ exists ds, digit_run ds /\ t = ord "." :: ds.

(** [exp = e [ minus / plus ] 1*DIGIT], or nothing. *)
Definition exp_lexeme (t : str) : Prop :=
  t = [] \/
  exists e sg ds,
    ((e =? ord "e") || (e =? ord "E")) = true /\
    (sg = [] \/ sg = [ord "+"] \/ sg = [ord "-"]) /\
    digit_run ds /\ t = e :: sg ++ ds.

(** [number = [ minus ] int [ frac ] [ exp ]] *)
Definition number_lexeme (t : str) : Prop :=
  exists (neg : bool) c ds frac ex,
    is_digit c = true /\ forallb is_digit ds = true /\
    ((c =? ord "0") = true -> ds = []) /\
    frac_lexeme frac /\ exp_lexeme ex /\
    t = (if neg then [ord "-"] else []) ++ c :: ds ++ frac ++ ex.

(** [value], with [array] and [object]: the text of one value, from its
    first character to its last; [elements_text] and [members_text] are
    what stands between the brackets of an array and the braces of an
    object that are not empty. *)
Inductive value_text (ext : bool) : str -> Prop :=
| vt_null : value_text ext (u "null")
| vt_true : value_text ext (u "true")
| vt_false : value_text ext (u "false")
| vt_number t : number_lexeme t -> value_text ext t
| vt_string body s : string_body body s -> value_text ext (dq body)
| vt_array_empty w : blank w -> value_text ext (ord "[" :: w ++ [ord "]"])
| vt_array body :
    elements_text ext body -> value_text ext (ord "[" :: body ++ [ord "]"])
| vt_object_empty w : blank w -> value_text ext (ord "{" :: w ++ [ord "}"])
| vt_object body :
    members_text ext body -> value_text ext (ord "{" :: body ++ [ord "}"])
| vt_constant t :
    ext = true -> t = u "NaN" \/ t = u "Infinity" \/ t = u "-Infinity" ->
    value_text ext t
with elements_text (ext : bool) : str -> Prop :=
| el_last w1 v w2 :
    blank w1 -> value_text ext v -> blank w2 ->
    elements_text ext (w1 ++ v ++ w2)
| el_more w1 v w2 rest :
    blank w1 -> value_text ext v -> blank w2 -> elements_text ext rest ->
    elements_text ext (w1 ++ v ++ w2 ++ ord "," :: rest)
with members_text (ext : bool) : str -> Prop :=
| mb_last w1 kbody k w2 w3 v w4 :
    blank w1 -> string_body kbody k -> blank w2 ->
    blank w3 -> value_text ext v -> blank w4 ->
    members_text ext (w1 ++ dq kbody ++ w2 ++ ord ":" :: w3 ++ v ++ w4)
| mb_more w1 kbody k w2 w3 v w4 rest :
    blank w1 -> string_body kbody k -> blank w2 ->
    blank w3 -> value_text ext v -> blank w4 ->
    members_text ext rest ->
    members_text ext
      (w1 ++ dq kbody ++ w2 ++ ord ":" :: w3 ++ v ++ w4 ++ ord "," :: rest).

(** [JSON-text = ws value ws] *)
Definition json_text (ext : bool) (t : str) : Prop :=
  exists w1 v w2,
    blank w1 /\ value_text ext v /\ blank w2 /\ t = w1 ++ v ++ w2.

(** A scanner whose answers are values of the grammar. *)
Definition reads_json (scan : str -> res (pyval * str)) : Prop :=
  forall t v r, scan t = Ok (v, r) ->
    exists p, t = p ++ r /\ value_text true p.

(** A float that is a number, and a value that holds no other float. *)
Definition finite_float (f : spec_float) : bool :=
  match f with
  | S754_zero _ | S754_finite _ _ _ => true
  | _ => false
  end.

Fixpoint no_constant (v : pyval) : bool :=
  match v with
  | PFloat f => finite_float f
  | PList l => forallb no_constant l
  | PDict d => forallb (fun kv => no_constant (snd kv)) d
  | _ => true
  end.

(** The characters a value may start with. *)
Definition value_start (ext : bool) (c : char) : bool :=
  (c =? ord "n") || (c =? ord "t") || (c =? ord "f") || (c =? QUOTE) ||
  (c =? ord "[") || (c =? ord "{") || (c =? ord "-") || is_digit c ||
  (ext && ((c =? ord "N") || (c =? ord "I"))).

(** * Proofs *)

(** ** [scanstring], case by case *)

Lemma scanstring_cons c s1 :
  scanstring (c :: s1) =
  if c =? QUOTE then Ok ([], s1)
  else if c =? BSLASH then
    match s1 with
    | [] => Raise JSONDecodeError
    | esc :: s2 =>
        if esc =? ord "u" then
          match s2 with
          | h1 :: h2 :: h3 :: h4 :: s3 =>
              match decode_uXXXX h1 h2 h3 h4 with
              | None => Raise JSONDecodeError
              | Some uni =>
                  if is_high_surrogate uni then
                    match s3 with
                    | b1 :: b2 :: l1 :: l2 :: l3 :: l4 :: s4 =>
                        if (b1 =? BSLASH) && (b2 =? ord "u") then
                          match decode_uXXXX l1 l2 l3 l4 with
                          | None => Raise JSONDecodeError
                          | Some uni2 =>
                              if is_low_surrogate uni2
                              then cons_chr (join_surrogates uni uni2) (scanstring s4)
                              else cons_chr uni (scanstring s3)
                          end
                        else cons_chr uni (scanstring s3)
                    | _ => cons_chr uni (scanstring s3)
                    end
                  else cons_chr uni (scanstring s3)
              end
          | _ => Raise JSONDecodeError
          end
        else
          match BACKSLASH esc with
          | Some ch => cons_chr ch (scanstring s2)
          | None => Raise JSONDecodeError
          end
    end
  else if c <? 32 then Raise JSONDecodeError
  else cons_chr c (scanstring s1).
Proof. reflexivity. Qed.

Lemma decode_uXXXX_not_quote a b c d v :
  decode_uXXXX a b c d = Some v ->
  a <> QUOTE /\ b <> QUOTE /\ c <> QUOTE /\ d <> QUOTE.
Proof.
  unfold decode_uXXXX. intros H.
  assert (Hq : hex_value QUOTE = None) by reflexivity.
  repeat split; intros ->; rewrite Hq in H;
    repeat (destruct (hex_value _)); discriminate.
Qed.

Lemma scanstring_view s : scan_view s (scanstring s).
Proof.
  destruct s as [|c s1]; [apply sv_raise|].
  rewrite scanstring_cons.
  destruct (c =? QUOTE) eqn:Hq.
  { apply N.eqb_eq in Hq; subst. apply sv_quote. }
  destruct (c =? BSLASH) eqn:Hb.
  - apply N.eqb_eq in Hb; subst.
    destruct s1 as [|esc s2]; [apply sv_raise|].
    destruct (esc =? ord "u") eqn:Hu.
    + apply N.eqb_eq in Hu; subst.
      destruct s2 as [|h1 [|h2 [|h3 [|h4 s3]]]]; try apply sv_raise.
      destruct (decode_uXXXX h1 h2 h3 h4) as [uni|] eqn:Hd; [|apply sv_raise].
      destruct (is_high_surrogate uni) eqn:Hh.
      * destruct s3 as [|b1 [|b2 [|l1 [|l2 [|l3 [|l4 s4]]]]]];
          try (apply sv_unicode; [assumption | rewrite Hh; reflexivity]).
        destruct ((b1 =? BSLASH) && (b2 =? ord "u")) eqn:Hbb.
        -- apply andb_true_iff in Hbb as [H1 H2].
           apply N.eqb_eq in H1, H2; subst.
           destruct (decode_uXXXX l1 l2 l3 l4) as [uni2|] eqn:Hd2; [|apply sv_raise].
           destruct (is_low_surrogate uni2) eqn:Hl.
           ++ now apply sv_pair.
           ++ apply sv_unicode; [assumption|].
              rewrite Hh. unfold low_escape_follows. rewrite Hd2, Hl.
              reflexivity.
        -- apply sv_unicode; [assumption|].
           rewrite Hh. unfold low_escape_follows. rewrite Hbb. reflexivity.
      * apply sv_unicode; [assumption|]. rewrite Hh. reflexivity.
    + destruct (BACKSLASH esc) as [ch|] eqn:He; [|apply sv_raise].
      now apply sv_escape.
  - destruct (c <? 32) eqn:Hc; [apply sv_raise|].
    apply N.ltb_ge in Hc. apply N.eqb_neq in Hq, Hb.
    now apply sv_plain.
Qed.

Lemma scanstring_plain c s1 :
  32 <= c -> c <> QUOTE -> c <> BSLASH ->
  scanstring (c :: s1) = cons_chr c (scanstring s1).
Proof.
  intros Hc Hq Hb. rewrite scanstring_cons.
  apply N.eqb_neq in Hq, Hb. rewrite Hq, Hb.
  apply N.ltb_ge in Hc. now rewrite Hc.
Qed.

Lemma scanstring_escape esc ch s2 :
  BACKSLASH esc = Some ch ->
  scanstring (BSLASH :: esc :: s2) = cons_chr ch (scanstring s2).
Proof.
  intros He. rewrite scanstring_cons.
  change (BSLASH =? QUOTE) with false. change (BSLASH =? BSLASH) with true.
  cbv iota.
  destruct (esc =? ord "u") eqn:Hu.
  - apply N.eqb_eq in Hu; subst. discriminate.
  - now rewrite He.
Qed.

Lemma scanstring_unicode h1 h2 h3 h4 uni s3 :
  decode_uXXXX h1 h2 h3 h4 = Some uni ->
  is_high_surrogate uni && low_escape_follows s3 = false ->
  scanstring (BSLASH :: ord "u" :: h1 :: h2 :: h3 :: h4 :: s3)
  = cons_chr uni (scanstring s3).
Proof.
  intros Hd Hno. rewrite scanstring_cons.
  change (BSLASH =? QUOTE) with false. change (BSLASH =? BSLASH) with true.
  change (ord "u" =? ord "u") with true. cbv iota. rewrite Hd.
  destruct (is_high_surrogate uni); [|reflexivity].
  rewrite andb_true_l in Hno.
  destruct s3 as [|b1 [|b2 [|l1 [|l2 [|l3 [|l4 s4]]]]]]; try reflexivity.
  unfold low_escape_follows in Hno.
  destruct ((b1 =? BSLASH) && (b2 =? ord "u")) eqn:Hbb; [|reflexivity].
  rewrite andb_true_l in Hno.
  destruct (decode_uXXXX l1 l2 l3 l4) as [uni2|] eqn:Hd2.
  - now rewrite Hno.
  - apply andb_true_iff in Hbb as [H1 H2]. apply N.eqb_eq in H1, H2; subst.
    rewrite (scanstring_cons BSLASH).
    change (BSLASH =? QUOTE) with false. change (BSLASH =? BSLASH) with true.
    change (ord "u" =? ord "u") with true. cbv iota. now rewrite Hd2.
Qed.

Lemma scanstring_pair h1 h2 h3 h4 l1 l2 l3 l4 hi lo s4 :
  decode_uXXXX h1 h2 h3 h4 = Some hi -> is_high_surrogate hi = true ->
  decode_uXXXX l1 l2 l3 l4 = Some lo -> is_low_surrogate lo = true ->
  scanstring (BSLASH :: ord "u" :: h1 :: h2 :: h3 :: h4 ::
              BSLASH :: ord "u" :: l1 :: l2 :: l3 :: l4 :: s4)
  = cons_chr (join_surrogates hi lo) (scanstring s4).
Proof.
  intros Hd Hh Hd2 Hl. rewrite scanstring_cons.
  change (BSLASH =? QUOTE) with false. change (BSLASH =? BSLASH) with true.
  change (ord "u" =? ord "u") with true. cbv iota.
  now rewrite Hd, Hh, Hd2, Hl.
Qed.

Lemma low_escape_follows_app body rest :
  low_escape_follows (body ++ QUOTE :: rest) = low_escape_follows body.
Proof.
  assert (Hq : forall a b c d,
             In QUOTE [a; b; c; d] -> decode_uXXXX a b c d = None).
  { intros a b c d Hin.
    destruct (decode_uXXXX a b c d) eqn:Hd; [|reflexivity].
    apply decode_uXXXX_not_quote in Hd as (? & ? & ? & ?).
    simpl in Hin. intuition congruence. }
  destruct body as [|b1 [|b2 [|l1 [|l2 [|l3 [|l4 body]]]]]];
    try reflexivity; cbn [app low_escape_follows].
  - destruct rest as [|? [|? [|? [|? [|? ?]]]]]; reflexivity.
  - destruct rest as [|? [|? [|? [|? ?]]]]; try reflexivity.
    now rewrite andb_false_r.
  - destruct rest as [|? [|? [|? ?]]]; try reflexivity.
    rewrite Hq by (simpl; auto). apply andb_false_r.
  - destruct rest as [|? [|? ?]]; try reflexivity.
    rewrite Hq by (simpl; auto). apply andb_false_r.
  - destruct rest as [|? ?]; try reflexivity.
    rewrite Hq by (simpl; auto). apply andb_false_r.
  - rewrite Hq by (simpl; auto). apply andb_false_r.
Qed.

(** A literal body followed by the closing quote is scanned to the string
    it denotes. *)
Lemma scanstring_sound body s :
  string_body body s ->
  forall rest, scanstring (body ++ QUOTE :: rest) = Ok (s, rest).
Proof.
  induction 1 as [|c body s Hc Hq Hb _ IH|esc ch body s He _ IH
                 |h1 h2 h3 h4 uni body s Hd Hno _ IH
                 |h1 h2 h3 h4 l1 l2 l3 l4 hi lo body s Hd Hh Hd2 Hl _ IH];
    intros rest.
  - reflexivity.
  - cbn [app]. rewrite scanstring_plain by assumption. now rewrite IH.
  - cbn [app]. rewrite (scanstring_escape _ _ _ He). now rewrite IH.
  - cbn [app]. rewrite (scanstring_unicode _ _ _ _ _ _ Hd).
    + now rewrite IH.
    + now rewrite low_escape_follows_app.
  - cbn [app]. rewrite (scanstring_pair _ _ _ _ _ _ _ _ _ _ _ Hd Hh Hd2 Hl).
    now rewrite IH.
Qed.

(** ** Arithmetic of escapes and surrogates *)

(** Names the quotient and the remainder of [x] by the constant [d] and
    records what defines them. *)
Ltac divmod x d :=
  let H1 := fresh "Hdiv" in
  let H2 := fresh "Hmod" in
  let q := fresh "q" in
  let r := fresh "r" in
  pose proof (N.div_mod x d ltac:(lia)) as H1;
  pose proof (N.mod_upper_bound x d ltac:(lia)) as H2;
  set (q := x / d) in *; set (r := x mod d) in *;
  clearbody q r.

Lemma hex_value_hex_digit d : d < 16 -> hex_value (hex_digit d) = Some d.
Proof.
  intros H. destruct d as [|p]; [reflexivity|].
  do 4 (destruct p as [p|p|]; try reflexivity; try lia).
Qed.

Lemma hex_value_lt c v : hex_value c = Some v -> v < 16.
Proof.
  unfold hex_value, ord. cbn [N_of_ascii N_of_digits N.add N.mul].
  repeat match goal with
         | |- context [if ?b then _ else _] => destruct b eqn:?
         end; intros [= <-];
    repeat match goal with
           | H : (_ && _) = true |- _ => apply andb_true_iff in H as [? ?]
           | H : (_ <=? _) = true |- _ => apply N.leb_le in H
           end; try lia.
Qed.

Lemma decode_uXXXX_lt a b c d v : decode_uXXXX a b c d = Some v -> v < 0x10000.
Proof.
  unfold decode_uXXXX.
  destruct (hex_value a) eqn:Ha, (hex_value b) eqn:Hb,
           (hex_value c) eqn:Hc, (hex_value d) eqn:Hd; try discriminate.
  intros [= <-].
  apply hex_value_lt in Ha, Hb, Hc, Hd. lia.
Qed.

Lemma decode_uXXXX_hex4 n :
  n < 0x10000 ->
  decode_uXXXX (hex_digit (n / 4096 mod 16)) (hex_digit (n / 256 mod 16))
               (hex_digit (n / 16 mod 16)) (hex_digit (n mod 16)) = Some n.
Proof.
  intros Hn. unfold decode_uXXXX.
  rewrite !hex_value_hex_digit by (apply N.mod_upper_bound; lia).
  f_equal.
  change 4096 with (16 * 16 * 16). change 256 with (16 * 16).
  rewrite <- !N.Div0.div_div.
  divmod n 16. divmod q 16. divmod q0 16. divmod q1 16.
  lia.
Qed.

Lemma lor_shiftl_low a b : b < 1024 -> N.lor (N.shiftl a 10) b = a * 1024 + b.
Proof.
  intros Hb.
  assert (Hl : N.land (N.shiftl a 10) b = 0).
  { apply N.bits_inj_0. intros n. rewrite N.land_spec.
    destruct (N.lt_ge_cases n 10) as [Hn|Hn].
    - now rewrite N.shiftl_spec_low.
    - destruct (N.eq_dec b 0) as [->|Hb0].
      + rewrite N.bits_0. apply andb_false_r.
      + rewrite (N.bits_above_log2 b n); [apply andb_false_r|].
        apply N.lt_le_trans with 10; [|assumption].
        apply N.log2_lt_pow2; [lia|exact Hb]. }
  rewrite <- N.lxor_lor by assumption.
  rewrite <- N.add_nocarry_lxor by assumption.
  now rewrite N.shiftl_mul_pow2.
Qed.

Ltac bool_hyps :=
  repeat match goal with
         | H : (_ && _) = true |- _ => apply andb_true_iff in H as [? ?]
         | H : (_ <=? _) = true |- _ => apply N.leb_le in H
         | H : (_ <=? _) = false |- _ => apply N.leb_gt in H
         | H : (_ <? _) = true |- _ => apply N.ltb_lt in H
         | H : (_ <? _) = false |- _ => apply N.ltb_ge in H
         | H : (_ =? _) = true |- _ => apply N.eqb_eq in H
         | H : (_ =? _) = false |- _ => apply N.eqb_neq in H
         | H : negb _ = true |- _ => apply negb_true_iff in H
         | H : negb _ = false |- _ => apply negb_false_iff in H
         end.

Ltac bool_split :=
  bool_hyps;
  repeat match goal with
         | H : (_ && _) = false |- _ =>
             apply andb_false_iff in H as [H|H]; bool_hyps
         end.

Lemma join_surrogates_eq hi lo :
  is_high_surrogate hi = true -> is_low_surrogate lo = true ->
  join_surrogates hi lo = 0x10000 + (hi - 0xd800) * 1024 + (lo - 0xdc00).
Proof.
  unfold is_high_surrogate, is_low_surrogate, join_surrogates.
  intros Hh Hl. bool_hyps.
  rewrite lor_shiftl_low by lia. lia.
Qed.

(** The two halves [escape_char] writes for a code point above the basic
    plane. *)
Lemma surrogate_halves c :
  0x10000 <= c -> c < 0x110000 ->
  let n := c - 0x10000 in
  N.lor 0xd800 (N.land (N.shiftr n 10) 0x3ff) = 0xd800 + n / 1024 /\
  N.lor 0xdc00 (N.land n 0x3ff) = 0xdc00 + n mod 1024.
Proof.
  intros H1 H2 n.
  change 0x3ff with (N.ones 10). rewrite !N.land_ones, N.shiftr_div_pow2.
  change (2 ^ 10) with 1024.
  change 0xd800 with (N.shiftl 54 10) at 1.
  change 0xdc00 with (N.shiftl 55 10) at 1.
  assert (Hn : n < 0x100000) by (unfold n; lia).
  rewrite (N.mod_small (n / 1024)) by (divmod n 1024; lia).
  rewrite !lor_shiftl_low; [lia| |].
  - apply N.mod_upper_bound; lia.
  - divmod n 1024; lia.
Qed.

(** ** What [scanstring] returns *)

Lemma cons_chr_ok c r v rest :
  cons_chr c r = Ok (v, rest) ->
  exists v', r = Ok (v', rest) /\ v = c :: v'.
Proof.
  destruct r as [[v' rest']| |]; try discriminate.
  intros [= <- <-]. now exists v'.
Qed.

Lemma cons_chr_not_out_of_fuel c r :
  r <> OutOfFuel -> cons_chr c r <> OutOfFuel.
Proof. destruct r; [discriminate|discriminate|congruence]. Qed.

Lemma cons_chr_raise c r e : cons_chr c r = Raise e -> r = Raise e.
Proof. destruct r; [discriminate|now intros [= ->]|discriminate]. Qed.

(** [scanstring] is total, and its only exception is [JSONDecodeError]. *)
Lemma scanstring_total n :
  forall t, (length t <= n)%nat ->
    scanstring t <> OutOfFuel /\
    (forall e, scanstring t = Raise e -> e = JSONDecodeError).
Proof.
  induction n as [|n IH]; intros t Hlen.
  - destruct t; [|simpl in Hlen; lia]. split; [discriminate|now intros e [= <-]].
  - assert (Hsub : forall c t',
               (length t' <= n)%nat ->
               cons_chr c (scanstring t') <> OutOfFuel /\
               (forall e, cons_chr c (scanstring t') = Raise e ->
                          e = JSONDecodeError)).
    { intros c t' Hl. destruct (IH t' Hl) as [H1 H2]. split.
      - now apply cons_chr_not_out_of_fuel.
      - intros e He. apply cons_chr_raise in He. now apply H2. }
    destruct (scanstring_view t); simpl in Hlen;
      try (apply Hsub; lia).
    + split; [discriminate|now intros e [= <-]].
    + split; [discriminate|discriminate].
Qed.

(** A successful scan consumed a literal body that denotes the result,
    and the closing quote. *)
Lemma scanstring_complete n :
  forall t s r, (length t <= n)%nat ->
    scanstring t = Ok (s, r) ->
    exists body, t = body ++ QUOTE :: r /\ string_body body s.
Proof.
  induction n as [|n IH]; intros t s r Hlen Hscan.
  - destruct t; [discriminate|simpl in Hlen; lia].
  - pose proof (scanstring_view t) as V. rewrite Hscan in V.
    inversion V as [t' E1 E2|r' E1 E2|c s1 Hc Hq Hb E1 E2
                   |esc ch s2 He E1 E2|h1 h2 h3 h4 uni s3 Hd Hno E1 E2
                   |h1 h2 h3 h4 l1 l2 l3 l4 hi lo s4 Hd Hh Hd2 Hl E1 E2];
      subst; simpl in Hlen.
    + exists []. split; [reflexivity|constructor].
    + apply cons_chr_ok in E2 as (v' & Hv & ->).
      apply IH in Hv as (body & -> & Hbody); [|lia].
      exists (c :: body). split; [reflexivity|now constructor].
    + apply cons_chr_ok in E2 as (v' & Hv & ->).
      apply IH in Hv as (body & -> & Hbody); [|lia].
      exists (BSLASH :: esc :: body). split; [reflexivity|now constructor].
    + apply cons_chr_ok in E2 as (v' & Hv & ->).
      apply IH in Hv as (body & -> & Hbody); [|lia].
      exists (BSLASH :: ord "u" :: h1 :: h2 :: h3 :: h4 :: body).
      split; [reflexivity|].
      rewrite low_escape_follows_app in Hno. now constructor.
    + apply cons_chr_ok in E2 as (v' & Hv & ->).
      apply IH in Hv as (body & -> & Hbody); [|lia].
      exists (BSLASH :: ord "u" :: h1 :: h2 :: h3 :: h4 ::
              BSLASH :: ord "u" :: l1 :: l2 :: l3 :: l4 :: body).
      split; [reflexivity|]. now constructor.
Qed.

Lemma scanstring_shorter t s r :
  scanstring t = Ok (s, r) -> (length r < length t)%nat.
Proof.
  intros H. apply (scanstring_complete (length t)) in H as (body & -> & _);
    [|lia].
  rewrite length_app. simpl. lia.
Qed.

(** ** Strings read from well-formed text *)

Lemma BACKSLASH_ascii esc ch : BACKSLASH esc = Some ch -> ch < 128.
Proof.
  unfold BACKSLASH.
  repeat match goal with
         | |- context [if ?b then _ else _] => destruct b
         end; intros [= <-]; reflexivity || discriminate.
Qed.

Lemma low_escape_follows_inv t :
  low_escape_follows t = true ->
  exists l1 l2 l3 l4 t' lo,
    t = BSLASH :: ord "u" :: l1 :: l2 :: l3 :: l4 :: t' /\
    decode_uXXXX l1 l2 l3 l4 = Some lo /\ is_low_surrogate lo = true.
Proof.
  destruct t as [|b1 [|b2 [|l1 [|l2 [|l3 [|l4 t']]]]]]; try discriminate.
  unfold low_escape_follows. intros H.
  apply andb_true_iff in H as [H Hlo]. apply andb_true_iff in H as [H1 H2].
  apply N.eqb_eq in H1, H2; subst.
  destruct (decode_uXXXX l1 l2 l3 l4) as [lo|] eqn:Hd; [|discriminate].
  now exists l1, l2, l3, l4, t', lo.
Qed.

Ltac forall_hyps :=
  repeat match goal with
         | H : Forall _ (_ :: _) |- _ => apply Forall_cons_iff in H as [? H]
         end.

Lemma join_surrogates_range hi lo :
  is_high_surrogate hi = true -> is_low_surrogate lo = true ->
  0x10000 <= join_surrogates hi lo < 0x110000.
Proof.
  intros Hh Hl. rewrite join_surrogates_eq by assumption.
  unfold is_high_surrogate, is_low_surrogate in *. bool_split; lia.
Qed.

(** In a literal of scalar values, a string that starts with a low
    surrogate comes from a body that starts with a low-surrogate escape. *)
Lemma string_body_head_low body s :
  string_body body s ->
  Forall (fun c => is_scalar c = true) body ->
  forall d s', s = d :: s' -> is_low_surrogate d = true ->
  low_escape_follows body = true.
Proof.
  intros Hb Hsc d s' Hs Hlow.
  destruct Hb as [|c body s Hc Hq Hbs Hb|esc ch body s He Hb
                 |h1 h2 h3 h4 uni body s Hd Hno Hb
                 |h1 h2 h3 h4 l1 l2 l3 l4 hi lo body s Hd Hh Hd2 Hl Hb];
    try discriminate; injection Hs as <- <-.
  - forall_hyps. unfold is_scalar, is_surrogate, is_low_surrogate in *.
    bool_split; lia.
  - apply BACKSLASH_ascii in He. unfold is_low_surrogate in Hlow.
    bool_split; lia.
  - unfold low_escape_follows. rewrite Hd, Hlow. reflexivity.
  - pose proof (join_surrogates_range _ _ Hh Hl).
    unfold is_low_surrogate in Hlow. bool_split; lia.
Qed.

Lemma string_body_wf body s :
  string_body body s ->
  Forall (fun c => is_scalar c = true) body ->
  wf_str s.
Proof.
  unfold wf_str.
  induction 1 as [|c body s Hc Hq Hbs Hb IH|esc ch body s He Hb IH
                 |h1 h2 h3 h4 uni body s Hd Hno Hb IH
                 |h1 h2 h3 h4 l1 l2 l3 l4 hi lo body s Hd Hh Hd2 Hl Hb IH];
    intros Hsc.
  - split; [constructor|reflexivity].
  - forall_hyps. destruct (IH Hsc) as [IH1 IH2]. split.
    + constructor; [|assumption].
      unfold is_scalar in *. now bool_hyps.
    + cbn [no_pair]. destruct s as [|d s']; [reflexivity|].
      rewrite IH2, andb_true_r.
      unfold is_scalar, is_surrogate, is_high_surrogate in *.
      destruct ((55296 <=? c) && (c <=? 56319)) eqn:E; [|reflexivity].
      bool_split; lia.
  - forall_hyps. destruct (IH Hsc) as [IH1 IH2]. split.
    + constructor; [|assumption].
      apply BACKSLASH_ascii in He. unfold is_code_point.
      apply N.ltb_lt. lia.
    + cbn [no_pair]. destruct s as [|d s']; [reflexivity|].
      rewrite IH2, andb_true_r.
      apply BACKSLASH_ascii in He. unfold is_high_surrogate.
      destruct ((55296 <=? ch) && (ch <=? 56319)) eqn:E; [|reflexivity].
      bool_split; lia.
  - forall_hyps. destruct (IH Hsc) as [IH1 IH2]. split.
    + constructor; [|assumption].
      apply decode_uXXXX_lt in Hd. unfold is_code_point.
      apply N.ltb_lt. lia.
    + cbn [no_pair]. destruct s as [|d s']; [reflexivity|].
      rewrite IH2, andb_true_r.
      destruct (is_high_surrogate uni) eqn:Hh; [|reflexivity].
      destruct (is_low_surrogate d) eqn:Hl; [|reflexivity].
      rewrite (string_body_head_low _ _ Hb Hsc d s' eq_refl Hl) in Hno.
      discriminate.
  - forall_hyps. destruct (IH Hsc) as [IH1 IH2].
    pose proof (join_surrogates_range _ _ Hh Hl) as Hr. split.
    + constructor; [|assumption].
      unfold is_code_point. apply N.ltb_lt. lia.
    + cbn [no_pair]. destruct s as [|d s']; [reflexivity|].
      rewrite IH2, andb_true_r. unfold is_high_surrogate.
      destruct ((55296 <=? join_surrogates hi lo)
                && (join_surrogates hi lo <=? 56319)) eqn:E; [|reflexivity].
      bool_split; lia.
Qed.

(** ** [encode_basestring_ascii] writes a literal of its argument *)

Lemma escape_char_body c rest s :
  is_code_point c = true ->
  string_body rest s ->
  is_high_surrogate c && low_escape_follows rest = false ->
  string_body (escape_char c ++ rest) (c :: s).
Proof.
  intros Hcp Hrest Hno. unfold escape_char.
  destruct (c =? BSLASH) eqn:E1.
  { bool_hyps; subst. now apply (sb_escape BSLASH BSLASH). }
  destruct (c =? QUOTE) eqn:E2.
  { bool_hyps; subst. now apply (sb_escape QUOTE QUOTE). }
  destruct ((ord " " <=? c) && (c <=? ord "~")) eqn:E3.
  { bool_hyps. now apply sb_plain. }
  destruct (c =? 8) eqn:E4.
  { bool_hyps; subst; now apply (sb_escape (ord "b") 8). }
  destruct (c =? 12) eqn:E5.
  { bool_hyps; subst; now apply (sb_escape (ord "f") 12). }
  destruct (c =? 10) eqn:E6.
  { bool_hyps; subst; now apply (sb_escape (ord "n") 10). }
  destruct (c =? 13) eqn:E7.
  { bool_hyps; subst; now apply (sb_escape (ord "r") 13). }
  destruct (c =? 9) eqn:E8.
  { bool_hyps; subst; now apply (sb_escape (ord "t") 9). }
  destruct (c <? 0x10000) eqn:E9.
  { apply N.ltb_lt in E9. unfold u_escape, hex4. cbn [app].
    apply sb_unicode; [now apply decode_uXXXX_hex4|assumption|assumption]. }
  apply N.ltb_ge in E9. unfold is_code_point in Hcp. apply N.ltb_lt in Hcp.
  cbv zeta.
  destruct (surrogate_halves c E9 Hcp) as [-> ->].
  divmod (c - 0x10000) 1024.
  assert (Hh : is_high_surrogate (0xd800 + q) = true).
  { unfold is_high_surrogate. apply andb_true_iff.
    split; apply N.leb_le; lia. }
  assert (Hl : is_low_surrogate (0xdc00 + r) = true).
  { unfold is_low_surrogate. apply andb_true_iff.
    split; apply N.leb_le; lia. }
  assert (Hj : join_surrogates (0xd800 + q) (0xdc00 + r) = c).
  { rewrite join_surrogates_eq by assumption. lia. }
  rewrite <- Hj. unfold u_escape, hex4. cbn [app].
  apply sb_pair; try assumption; apply decode_uXXXX_hex4; lia.
Qed.

Lemma low_escape_follows_u_escape x t :
  x < 0x10000 ->
  low_escape_follows (u_escape x ++ t) = is_low_surrogate x.
Proof.
  intros Hx. unfold u_escape, hex4. cbn [app]. unfold low_escape_follows.
  rewrite decode_uXXXX_hex4 by assumption. reflexivity.
Qed.

Lemma low_escape_follows_escape c rest :
  is_code_point c = true ->
  low_escape_follows (escape_char c ++ rest) = true ->
  is_low_surrogate c = true.
Proof.
  intros Hcp. unfold escape_char.
  assert (Hinv : forall a b t,
             low_escape_follows (a :: b :: t) = true ->
             a = BSLASH /\ b = ord "u").
  { intros a b t H.
    apply low_escape_follows_inv in H as (? & ? & ? & ? & ? & ? & E & _).
    injection E as -> -> _. now split. }
  assert (Hinv1 : forall a t,
             low_escape_follows (a :: t) = true -> a = BSLASH).
  { intros a t H.
    apply low_escape_follows_inv in H as (? & ? & ? & ? & ? & ? & E & _).
    now injection E as -> _. }
  destruct (c =? BSLASH) eqn:E1.
  { intros H. apply Hinv in H as [_ H]. discriminate. }
  destruct (c =? QUOTE) eqn:E2.
  { intros H. apply Hinv in H as [_ H]. discriminate. }
  destruct ((ord " " <=? c) && (c <=? ord "~")) eqn:E3.
  { intros H. apply Hinv1 in H. subst. discriminate. }
  destruct (c =? 8). { intros H. apply Hinv in H as [_ H]. discriminate. }
  destruct (c =? 12). { intros H. apply Hinv in H as [_ H]. discriminate. }
  destruct (c =? 10). { intros H. apply Hinv in H as [_ H]. discriminate. }
  destruct (c =? 13). { intros H. apply Hinv in H as [_ H]. discriminate. }
  destruct (c =? 9). { intros H. apply Hinv in H as [_ H]. discriminate. }
  destruct (c <? 0x10000) eqn:E9.
  - apply N.ltb_lt in E9. now rewrite low_escape_follows_u_escape.
  - apply N.ltb_ge in E9. unfold is_code_point in Hcp. apply N.ltb_lt in Hcp.
    cbv zeta. destruct (surrogate_halves c E9 Hcp) as [-> ->].
    divmod (c - 0x10000) 1024.
    rewrite <- app_assoc, low_escape_follows_u_escape by lia.
    unfold is_low_surrogate. intros H. bool_split; lia.
Qed.

Lemma encode_body_sound s :
  wf_str s -> string_body (flat_map escape_char s) s.
Proof.
  unfold wf_str. induction s as [|c s IH]; intros [Hcp Hnp].
  - constructor.
  - cbn [flat_map]. apply Forall_cons_iff in Hcp as [Hc Hcp].
    assert (Hnp' : no_pair s = true).
    { cbn [no_pair] in Hnp. destruct s; [reflexivity|].
      now apply andb_true_iff in Hnp as [_ ?]. }
    apply escape_char_body; [assumption|now apply IH|].
    destruct (is_high_surrogate c) eqn:Hh; [|reflexivity].
    destruct (low_escape_follows (flat_map escape_char s)) eqn:Hf; [|reflexivity].
    destruct s as [|d s']; [discriminate|].
    cbn [flat_map] in Hf. apply Forall_cons_iff in Hcp as [Hd _].
    apply low_escape_follows_escape in Hf; [|assumption].
    cbn [no_pair] in Hnp. rewrite Hh, Hf in Hnp. discriminate.
Qed.

(** Scanning what the encoder wrote gives the string back. *)
Lemma scanstring_encode s rest :
  wf_str s ->
  scanstring (flat_map escape_char s ++ QUOTE :: rest) = Ok (s, rest).
Proof. intros H. apply scanstring_sound. now apply encode_body_sound. Qed.

(** ** The decoder consumes its input and never runs out of fuel *)

Lemma suffix_refl t : suffix t t.
Proof. now exists []. Qed.

Lemma suffix_trans a b c : suffix a b -> suffix b c -> suffix a c.
Proof. intros [p ->] [q ->]. exists (q ++ p). now rewrite app_assoc. Qed.

Lemma suffix_cons c r t : suffix r t -> suffix r (c :: t).
Proof. intros [p ->]. now exists (c :: p). Qed.

Lemma suffix_tail c t : suffix t (c :: t).
Proof. now exists [c]. Qed.

Lemma suffix_length r t : suffix r t -> (length r <= length t)%nat.
Proof. intros [p ->]. rewrite length_app. lia. Qed.

Lemma suffix_scalar r t : suffix r t -> scalar_text t -> scalar_text r.
Proof. intros [p ->] H. now apply Forall_app in H as [_ ?]. Qed.

Lemma skip_ws_suffix t : suffix (skip_ws t) t.
Proof.
  induction t as [|c t IH]; [apply suffix_refl|].
  cbn [skip_ws]. destruct (is_ws c); [now apply suffix_cons|apply suffix_refl].
Qed.

Lemma strip_prefix_app p t r : strip_prefix p t = Some r -> t = p ++ r.
Proof.
  revert t. induction p as [|x p IH]; intros t; cbn [strip_prefix].
  - now intros [= ->].
  - destruct t as [|y t]; [discriminate|].
    destruct (x =? y) eqn:E; [|discriminate].
    apply N.eqb_eq in E; subst. intros H. now rewrite (IH _ H).
Qed.

Lemma span_digits_app t ds r : span_digits t = (ds, r) -> t = ds ++ r.
Proof.
  revert ds r. induction t as [|c t IH]; intros ds r; cbn [span_digits].
  - now intros [= <- <-].
  - destruct (is_digit c).
    + destruct (span_digits t) as [ds' r'] eqn:E. intros [= <- <-].
      now rewrite (IH _ _ eq_refl).
    + now intros [= <- <-].
Qed.

Lemma match_frac_suffix t f r : match_frac t = (f, r) -> suffix r t.
Proof.
  unfold match_frac. destruct t as [|c t]; [intros [= _ <-]; apply suffix_refl|].
  destruct (c =? ord "."); [|intros [= _ <-]; apply suffix_refl].
  destruct (span_digits t) as [[|d ds] r'] eqn:E.
  - intros [= _ <-]. apply suffix_refl.
  - intros [= _ <-]. apply span_digits_app in E. subst.
    exists (c :: d :: ds). reflexivity.
Qed.

Lemma match_exp_suffix t e r : match_exp t = (e, r) -> suffix r t.
Proof.
  unfold match_exp. destruct t as [|c t]; [intros [= _ <-]; apply suffix_refl|].
  destruct ((c =? ord "e") || (c =? ord "E")); [|intros [= _ <-]; apply suffix_refl].
  match goal with
  | |- context [let (_, _) := ?X in _] => destruct X as [neg s2] eqn:Esg
  end.
  assert (Hs2 : suffix s2 t).
  { destruct t as [|sg t']; [injection Esg as _ <-; apply suffix_refl|].
    destruct (sg =? ord "-"); [injection Esg as _ <-; apply suffix_tail|].
    destruct (sg =? ord "+"); injection Esg as _ <-;
      [apply suffix_tail|apply suffix_refl]. }
  destruct (span_digits s2) as [[|d ds] r'] eqn:E.
  - intros [= _ <-]. apply suffix_refl.
  - intros [= _ <-]. apply span_digits_app in E. subst.
    apply suffix_cons. eapply suffix_trans; [|exact Hs2].
    now exists (d :: ds).
Qed.

Lemma match_number_suffix t m r :
  match_number t = Some (m, r) -> suffix r t /\ (length r < length t)%nat.
Proof.
  unfold match_number.
  match goal with
  | |- context [let (_, _) := ?X in _] => destruct X as [neg s1] eqn:Esg
  end.
  assert (Hs1 : suffix s1 t).
  { destruct t as [|c t']; [injection Esg as _ <-; apply suffix_refl|].
    destruct (c =? ord "-"); injection Esg as _ <-;
      [apply suffix_tail|apply suffix_refl]. }
  destruct s1 as [|c s2]; [discriminate|].
  destruct (is_digit c); [|discriminate].
  destruct (if c =? ord "0" then ([], s2) else span_digits s2)
    as [ds s3] eqn:E1.
  assert (Hs3 : suffix s3 s2).
  { destruct (c =? ord "0").
    - injection E1 as <- <-. apply suffix_refl.
    - apply span_digits_app in E1. subst. now exists ds. }
  destruct (match_frac s3) as [frac s4] eqn:E2.
  destruct (match_exp s4) as [exp s5] eqn:E3.
  apply match_frac_suffix in E2. apply match_exp_suffix in E3.
  assert (Hs5 : suffix s5 s2).
  { eapply suffix_trans; [exact E3|]. eapply suffix_trans; eassumption. }
  intros [= <- <-]. split.
  - eapply suffix_trans; [|exact Hs1]. now apply suffix_cons.
  - apply suffix_length in Hs5, Hs1. simpl in Hs1. lia.
Qed.

Lemma strip_prefix_post p t r :
  p <> [] -> strip_prefix p t = Some r ->
  suffix r t /\ (length r < length t)%nat.
Proof.
  intros Hp H. apply strip_prefix_app in H. subst. split; [now exists p|].
  rewrite length_app. destruct p; [congruence|simpl; lia].
Qed.

Lemma scan_post_weaken t' t x :
  scan_post t' x -> suffix t' t -> scan_post t x.
Proof.
  destruct x as [[v r]|e|]; cbn [scan_post]; try tauto.
  intros (Hs & Hl & Hw) Ht. split; [|split].
  - eapply suffix_trans; eassumption.
  - apply suffix_length in Ht. lia.
  - intros Hsc. apply Hw. eapply suffix_scalar; eassumption.
Qed.

Lemma scan_atom_post t : scan_post t (scan_atom t).
Proof.
  unfold scan_atom.
  repeat match goal with
         | |- context [strip_prefix ?p t] =>
             let E := fresh "E" in
             destruct (strip_prefix p t) eqn:E;
             [apply strip_prefix_post in E as [? ?]; [|discriminate];
              cbn [scan_post]; repeat split; auto; intros; constructor|]
         | |- context [match_number t] =>
             let E := fresh "E" in
             destruct (match_number t) as [[m r]|] eqn:E;
             [apply match_number_suffix in E as [? ?];
              cbn [scan_post]; repeat split; auto; intros;
              unfold number_value; destruct (nm_frac m), (nm_exp m); constructor|]
         end.
  reflexivity.
Qed.

Lemma dict_setitem_Forall (Q1 : str -> Prop) (Q2 : pyval -> Prop) d k v :
  Forall (fun kv => Q1 (fst kv) /\ Q2 (snd kv)) d -> Q1 k -> Q2 v ->
  Forall (fun kv => Q1 (fst kv) /\ Q2 (snd kv)) (dict_setitem d k v).
Proof.
  intros Hd Hk Hv. induction d as [|[k' v'] d IH]; cbn [dict_setitem].
  - now repeat constructor.
  - apply Forall_cons_iff in Hd as [[H1 H1'] H2].
    destruct (str_eqb k' k); constructor; auto.
Qed.

Lemma dict_of_pairs_Forall (Q1 : str -> Prop) (Q2 : pyval -> Prop) pairs :
  Forall (fun kv => Q1 (fst kv) /\ Q2 (snd kv)) pairs ->
  Forall (fun kv => Q1 (fst kv) /\ Q2 (snd kv)) (dict_of_pairs pairs).
Proof.
  unfold dict_of_pairs.
  assert (H : forall acc,
             Forall (fun kv => Q1 (fst kv) /\ Q2 (snd kv)) acc ->
             Forall (fun kv => Q1 (fst kv) /\ Q2 (snd kv)) pairs ->
             Forall (fun kv => Q1 (fst kv) /\ Q2 (snd kv))
               (fold_left (fun d kv => dict_setitem d (fst kv) (snd kv)) pairs acc)).
  { induction pairs as [|kv pairs IH]; intros acc Hacc Hp; cbn [fold_left].
    - assumption.
    - apply Forall_cons_iff in Hp as [[H1 H1'] H2].
      apply IH; [|assumption]. now apply dict_setitem_Forall. }
  intros Hp. apply H; [constructor|assumption].
Qed.

Lemma dict_get_Forall (Q1 : str -> Prop) (Q2 : pyval -> Prop) d k v :
  Forall (fun kv => Q1 (fst kv) /\ Q2 (snd kv)) d ->
  dict_get d k = Some v -> Q2 v.
Proof.
  induction d as [|[k' v'] d IH]; cbn [dict_get]; [discriminate|].
  intros Hd. apply Forall_cons_iff in Hd as [[H1 H1'] H2].
  destruct (str_eqb k' k); [now intros [= <-]|now apply IH].
Qed.

Lemma str_eqb_refl a : str_eqb a a = true.
Proof. induction a as [|x a IH]; cbn [str_eqb]; [reflexivity|]. now rewrite N.eqb_refl. Qed.

Lemma str_eqb_eq a b : str_eqb a b = true <-> a = b.
Proof.
  split; [|intros ->; apply str_eqb_refl].
  revert b. induction a as [|x a IH]; intros [|y b]; cbn [str_eqb];
    try discriminate; [reflexivity|].
  intros H. apply andb_true_iff in H as [H1 H2].
  apply N.eqb_eq in H1. apply IH in H2. now subst.
Qed.

Lemma str_eqb_neq a b : str_eqb a b = false <-> a <> b.
Proof.
  split.
  - intros H ->. now rewrite str_eqb_refl in H.
  - intros H. destruct (str_eqb a b) eqn:E; [|reflexivity].
    now apply str_eqb_eq in E.
Qed.

(** The keys after [d[k] = v]: a new key goes last. *)
Lemma dict_setitem_keys d k v :
  map fst (dict_setitem d k v)
  = if existsb (fun k' => str_eqb k' k) (map fst d)
    then map fst d else map fst d ++ [k].
Proof.
  induction d as [|[k' v'] d IH]; cbn [dict_setitem map existsb fst app];
    [reflexivity|].
  destruct (str_eqb k' k); cbn [orb map fst]; [reflexivity|].
  rewrite IH. now destruct (existsb _ _).
Qed.

Lemma dict_setitem_NoDup d k v :
  NoDup (map fst d) -> NoDup (map fst (dict_setitem d k v)).
Proof.
  intros Hd. rewrite dict_setitem_keys.
  destruct (existsb (fun k' => str_eqb k' k) (map fst d)) eqn:E; [assumption|].
  apply NoDup_app; [assumption|repeat constructor; intros []|].
  intros x Hx [Ex|[]]. subst x.
  assert (existsb (fun k' => str_eqb k' k) (map fst d) = true); [|congruence].
  apply existsb_exists. exists k. split; [assumption|apply str_eqb_refl].
Qed.

Lemma dict_of_pairs_NoDup pairs : NoDup (map fst (dict_of_pairs pairs)).
Proof.
  unfold dict_of_pairs.
  assert (H : forall acc, NoDup (map fst acc) ->
             NoDup (map fst (fold_left
               (fun d kv => dict_setitem d (fst kv) (snd kv)) pairs acc))).
  { induction pairs as [|kv pairs IH]; intros acc Hacc; cbn [fold_left].
    - assumption.
    - apply IH. now apply dict_setitem_NoDup. }
  apply H. constructor.
Qed.

Section ContainerFacts.

Variable scan : str -> res (pyval * str).
Variable n : nat.
Hypothesis Hscan : forall t, (length t <= n)%nat -> scan_post t (scan t).

Lemma JSONArray_loop_post fuel :
  forall t values,
    (length t <= n)%nat -> (length t < fuel)%nat ->
    array_post t values (JSONArray_loop scan fuel t values).
Proof.
  induction fuel as [|fuel IH]; intros t values Hn Hf; [lia|].
  cbn [JSONArray_loop].
  pose proof (Hscan t Hn) as Hs.
  destruct (scan t) as [[value s1]|e|]; cbn [res_bind scan_post] in *;
    [|assumption|assumption].
  destruct Hs as (Hsuf & Hlen & Hwf).
  pose proof (skip_ws_suffix s1) as Hws.
  destruct (skip_ws s1) as [|c s2] eqn:Ews; [reflexivity|].
  assert (Hs2 : suffix s2 t).
  { eapply suffix_trans; [apply suffix_tail|].
    eapply suffix_trans; eassumption. }
  assert (Hl2 : (length s2 < length s1)%nat).
  { apply suffix_length in Hws. simpl in Hws. lia. }
  destruct (c =? ord "]").
  { cbn [array_post]. split; [assumption|]. split; [lia|].
    intros Hsc Hv. constructor. apply Forall_app. split; [assumption|].
    constructor; [now apply Hwf|constructor]. }
  destruct (c =? ord ","); [|reflexivity].
  pose proof (skip_ws_suffix s2) as Hws2.
  assert (Hl3 : (length (skip_ws s2) <= length s2)%nat)
    by now apply suffix_length.
  specialize (IH (skip_ws s2) (values ++ [value])
                 ltac:(lia) ltac:(lia)).
  destruct (JSONArray_loop scan fuel (skip_ws s2) (values ++ [value]))
    as [[v r]|e|]; cbn [array_post] in *; [|assumption|assumption].
  destruct IH as (Hr & Hlr & Hwr).
  assert (Hs3 : suffix (skip_ws s2) t) by (eapply suffix_trans; eassumption).
  split; [eapply suffix_trans; eassumption|]. split; [lia|].
  intros Hsc Hv. apply Hwr.
  - eapply suffix_scalar; eassumption.
  - apply Forall_app. split; [assumption|].
    constructor; [now apply Hwf|constructor].
Qed.

Lemma JSONArray_post fuel t :
  (length t <= n)%nat -> (length t < fuel)%nat ->
  scan_post t (JSONArray scan fuel t).
Proof.
  intros Hn Hf. unfold JSONArray.
  pose proof (skip_ws_suffix t) as Hws.
  assert (Hloop : forall t', suffix t' t ->
             scan_post t (JSONArray_loop scan fuel t' [])).
  { intros t' Ht'. pose proof (suffix_length _ _ Ht') as Hl.
    pose proof (JSONArray_loop_post fuel t' [] ltac:(lia) ltac:(lia)) as H.
    apply scan_post_weaken with t'; [|assumption].
    destruct (JSONArray_loop scan fuel t' []) as [[v r]|e|];
      cbn [array_post scan_post] in *; try assumption.
    destruct H as (? & ? & Hw). repeat split; auto. }
  destruct (skip_ws t) as [|c s1] eqn:E; [now apply Hloop|].
  destruct (c =? ord "]"); [|now apply Hloop].
  cbn [scan_post]. split; [|split].
  - eapply suffix_trans; [apply suffix_tail|eassumption].
  - apply suffix_length in Hws. simpl in Hws. lia.
  - intros _. constructor. constructor.
Qed.

End ContainerFacts.

Lemma scanstring_post t :
  match scanstring t with
  | Ok (s, r) =>
      suffix r t /\ (length r < length t)%nat /\ (scalar_text t -> wf_str s)
  | Raise e => e = JSONDecodeError
  | OutOfFuel => False
  end.
Proof.
  destruct (scanstring_total (length t) t (le_n _)) as [H1 H2].
  destruct (scanstring t) as [[s r]|e|] eqn:E; [|now apply H2|congruence].
  pose proof (scanstring_shorter _ _ _ E) as Hl.
  apply (scanstring_complete (length t)) in E as (body & -> & Hb); [|lia].
  split; [now exists (body ++ [QUOTE]); rewrite <- app_assoc|].
  split; [assumption|].
  intros Hsc. apply (string_body_wf body); [assumption|].
  now apply Forall_app in Hsc as [? _].
Qed.

Section ObjectFacts.

Variable scan : str -> res (pyval * str).
Variable n : nat.
Hypothesis Hscan : forall t, (length t <= n)%nat -> scan_post t (scan t).

Lemma JSONObject_loop_post fuel :
  forall t pairs,
    (length t <= n)%nat -> (length t < fuel)%nat ->
    object_post t pairs (JSONObject_loop scan fuel t pairs).
Proof.
  induction fuel as [|fuel IH]; intros t pairs Hn Hf; [lia|].
  cbn [JSONObject_loop].
  pose proof (scanstring_post t) as Hk.
  destruct (scanstring t) as [[key s1]|e|]; cbn [res_bind object_post] in *;
    [|assumption|assumption].
  destruct Hk as (Hsuf1 & Hlen1 & Hwfk).
  pose proof (skip_ws_suffix s1) as Hws1.
  destruct (skip_ws s1) as [|colon s2] eqn:Ews1; [reflexivity|].
  destruct (colon =? ord ":"); [|reflexivity].
  assert (Hs2 : suffix s2 t).
  { eapply suffix_trans; [apply suffix_tail|].
    eapply suffix_trans; eassumption. }
  pose proof (skip_ws_suffix s2) as Hws2.
  assert (Hs2' : suffix (skip_ws s2) t) by (eapply suffix_trans; eassumption).
  pose proof (suffix_length _ _ Hs2') as Hl2.
  pose proof (Hscan (skip_ws s2) ltac:(lia)) as Hv.
  destruct (scan (skip_ws s2)) as [[value s3]|e|];
    cbn [res_bind scan_post] in *; [|assumption|assumption].
  destruct Hv as (Hsuf3 & Hlen3 & Hwfv).
  pose proof (skip_ws_suffix s3) as Hws3.
  destruct (skip_ws s3) as [|c s4] eqn:Ews3; [reflexivity|].
  assert (Hs4 : suffix s4 t).
  { eapply suffix_trans; [apply suffix_tail|].
    eapply suffix_trans; [eassumption|].
    eapply suffix_trans; eassumption. }
  assert (Hl4 : (length s4 < length t)%nat).
  { apply suffix_length in Hws3. apply suffix_length in Hws1.
    apply suffix_length in Hws2. simpl in *. lia. }
  assert (Hpairs : scalar_text t ->
            Forall (fun kv => wf_str (fst kv) /\ wf_val (snd kv)) pairs ->
            Forall (fun kv => wf_str (fst kv) /\ wf_val (snd kv))
                   (pairs ++ [(key, value)])).
  { intros Hsc Hp. apply Forall_app. split; [assumption|].
    constructor; [|constructor]. cbn [fst snd]. split; [now apply Hwfk|].
    apply Hwfv. eapply suffix_scalar; eassumption. }
  destruct (c =? ord "}").
  { cbn [object_post]. split; [assumption|]. split; [assumption|].
    intros Hsc Hp. constructor; [|apply dict_of_pairs_NoDup].
    apply dict_of_pairs_Forall. auto. }
  destruct (c =? ord ","); [|reflexivity].
  pose proof (skip_ws_suffix s4) as Hws4.
  destruct (skip_ws s4) as [|q s5] eqn:Ews4; [reflexivity|].
  destruct (q =? QUOTE); [|reflexivity].
  assert (Hs5 : suffix s5 t).
  { eapply suffix_trans; [apply suffix_tail|].
    eapply suffix_trans; eassumption. }
  assert (Hl5 : (length s5 < length s4)%nat).
  { apply suffix_length in Hws4. simpl in Hws4. lia. }
  specialize (IH s5 (pairs ++ [(key, value)]) ltac:(lia) ltac:(lia)).
  destruct (JSONObject_loop scan fuel s5 (pairs ++ [(key, value)]))
    as [[v r]|e|]; cbn [object_post] in *; [|assumption|assumption].
  destruct IH as (Hr & Hlr & Hwr).
  split; [eapply suffix_trans; eassumption|]. split; [lia|].
  intros Hsc Hp. apply Hwr; [eapply suffix_scalar; eassumption|auto].
Qed.

Lemma JSONObject_post fuel t :
  (length t <= n)%nat -> (length t < fuel)%nat ->
  scan_post t (JSONObject scan fuel t).
Proof.
  intros Hn Hf. unfold JSONObject.
  pose proof (skip_ws_suffix t) as Hws.
  destruct (skip_ws t) as [|c s1] eqn:E; [reflexivity|].
  assert (Hs1 : suffix s1 t).
  { eapply suffix_trans; [apply suffix_tail|eassumption]. }
  assert (Hl1 : (length s1 < length t)%nat).
  { apply suffix_length in Hws. simpl in Hws. lia. }
  destruct (c =? QUOTE).
  - pose proof (JSONObject_loop_post fuel s1 [] ltac:(lia) ltac:(lia)) as H.
    apply scan_post_weaken with s1; [|assumption].
    destruct (JSONObject_loop scan fuel s1 []) as [[v r]|e|];
      cbn [object_post scan_post] in *; try assumption.
    destruct H as (? & ? & Hw). repeat split; auto.
  - destruct (c =? ord "}"); [|reflexivity].
    cbn [scan_post]. repeat split; auto. intros _. constructor; constructor.
Qed.

End ObjectFacts.

(** The recursive descent with fuel above the length of the text. *)
Lemma scan_once_post fuel :
  forall t, (length t < fuel)%nat -> scan_post t (scan_once fuel t).
Proof.
  induction fuel as [|fuel IH]; intros t Hf; [lia|].
  cbn [scan_once]. destruct t as [|c s']; [reflexivity|].
  simpl in Hf.
  assert (Hsub : forall t', (length t' <= length s')%nat ->
             scan_post t' (scan_once fuel t')).
  { intros t' Hl. apply IH. lia. }
  destruct (c =? QUOTE).
  { pose proof (scanstring_post s') as H.
    destruct (scanstring s') as [[v r]|e|]; cbn [res_bind scan_post] in *;
      [|assumption|assumption].
    destruct H as (Hs & Hl & Hw). split; [now apply suffix_cons|].
    split; [simpl; lia|]. intros Hsc. constructor. apply Hw.
    now apply Forall_cons_iff in Hsc as [_ ?]. }
  destruct (c =? ord "{").
  { apply scan_post_weaken with s'; [|apply suffix_tail].
    apply (JSONObject_post _ (length s')); [assumption|lia|lia]. }
  destruct (c =? ord "[").
  { apply scan_post_weaken with s'; [|apply suffix_tail].
    apply (JSONArray_post _ (length s')); [assumption|lia|lia]. }
  apply scan_atom_post.
Qed.

(** [loads] is total; its only exception is [JSONDecodeError]; the strings
    it reads from a text of scalar values are well formed. *)
Lemma loads_post text :
  match loads text with
  | Ok v => scalar_text text -> wf_val v
  | Raise e => e = JSONDecodeError
  | OutOfFuel => False
  end.
Proof.
  assert (H : match decode text with
              | Ok v => scalar_text text -> wf_val v
              | Raise e => e = JSONDecodeError
              | OutOfFuel => False
              end).
  { unfold decode.
    pose proof (skip_ws_suffix text) as Hws.
    pose proof (suffix_length _ _ Hws) as Hl.
    pose proof (scan_once_post (S (length text)) (skip_ws text) ltac:(lia)) as H.
    destruct (scan_once (S (length text)) (skip_ws text)) as [[obj rest]|e|];
      cbn [res_bind scan_post] in *; [|assumption|assumption].
    destruct H as (_ & _ & Hw).
    destruct (skip_ws rest); [|reflexivity].
    intros Hsc. apply Hw. eapply suffix_scalar; eassumption. }
  unfold loads. destruct text as [|c t]; [assumption|].
  destruct (c =? 0xfeff); [reflexivity|assumption].
Qed.

Lemma loads_total text : loads text <> OutOfFuel.
Proof. pose proof (loads_post text) as H. now destruct (loads text). Qed.

Lemma loads_raise text e : loads text = Raise e -> e = JSONDecodeError.
Proof. pose proof (loads_post text) as H. now intros E; rewrite E in H. Qed.

Lemma loads_wf text v : loads text = Ok v -> scalar_text text -> wf_val v.
Proof. pose proof (loads_post text) as H. now intros E; rewrite E in H. Qed.

(** ** The script in terms of [loads] and [dumps] *)

Lemma run_eq input :
  run input =
  match loads input with
  | Ok (PDict d) => Some (success (dumps (result_of (prompt_of d)) ++ [NEWLINE]))
  | Ok _ => Some (failure AttributeError)
  | Raise e => Some (failure e)
  | OutOfFuel => None
  end.
Proof.
  unfold run, main, io_bind, sys_stdin_read, lift, print. cbn [stdin stdout].
  destruct (loads input) as [v|e|]; [|reflexivity|reflexivity].
  destruct v; reflexivity.
Qed.

(** ** [dumps] writes printable ASCII only *)

(** Induction on values, with the hypothesis on every element of a list
    and on every value of a dict. *)
Lemma pyval_ind_nested (P : pyval -> Prop) :
  P PNone ->
  (forall b, P (PBool b)) ->
  (forall z, P (PInt z)) ->
  (forall f, P (PFloat f)) ->
  (forall s, P (PStr s)) ->
  (forall l, Forall P l -> P (PList l)) ->
  (forall d, Forall (fun kv => P (snd kv)) d -> P (PDict d)) ->
  forall v, P v.
Proof.
  intros HN HB HI HF HS HL HD.
  fix IH 1. intros [ |b|z|f|s|l|d].
  - exact HN.
  - apply HB.
  - apply HI.
  - apply HF.
  - apply HS.
  - apply HL. induction l as [|x l IHl]; constructor; [apply IH|exact IHl].
  - apply HD. induction d as [|[k x] d IHd]; constructor; [apply IH|exact IHd].
Qed.

Lemma all_printable_app a b :
  all_printable a -> all_printable b -> all_printable (a ++ b).
Proof.
  unfold all_printable. intros Ha Hb. now rewrite forallb_app, Ha, Hb.
Qed.

Lemma all_printable_cons c s :
  printable c = true -> all_printable s -> all_printable (c :: s).
Proof. unfold all_printable. cbn [forallb]. now intros -> ->. Qed.

Lemma all_printable_flat_map (f : char -> str) s :
  (forall c, all_printable (f c)) -> all_printable (flat_map f s).
Proof.
  intros Hf. induction s as [|c s IH]; [reflexivity|].
  cbn [flat_map]. now apply all_printable_app.
Qed.

Lemma all_printable_join sep l :
  all_printable sep -> Forall all_printable l -> all_printable (join sep l).
Proof.
  intros Hsep. induction 1 as [|x l Hx Hl IH]; [reflexivity|].
  cbn [join]. destruct l as [|y l']; [assumption|].
  apply all_printable_app; [assumption|]. now apply all_printable_app.
Qed.

Lemma all_printable_repeat c k :
  printable c = true -> all_printable (repeat c k).
Proof.
  intros Hc. induction k as [|k IH]; [reflexivity|].
  now apply all_printable_cons.
Qed.

Lemma all_printable_firstn k s : all_printable s -> all_printable (firstn k s).
Proof.
  unfold all_printable. intros H. rewrite <- (firstn_skipn k s) in H.
  rewrite forallb_app in H. now apply andb_true_iff in H as [? _].
Qed.

Lemma all_printable_skipn k s : all_printable s -> all_printable (skipn k s).
Proof.
  unfold all_printable. intros H. rewrite <- (firstn_skipn k s) in H.
  rewrite forallb_app in H. now apply andb_true_iff in H as [_ ?].
Qed.

Lemma hex_digit_printable d : d < 16 -> printable (hex_digit d) = true.
Proof.
  intros H. destruct d as [|p]; [reflexivity|].
  do 4 (destruct p as [p|p|]; try reflexivity; try lia).
Qed.

Lemma u_escape_printable x : all_printable (u_escape x).
Proof.
  unfold u_escape, hex4, all_printable. cbn [forallb].
  rewrite !hex_digit_printable by (apply N.mod_upper_bound; lia).
  reflexivity.
Qed.

Lemma escape_char_printable c : all_printable (escape_char c).
Proof.
  unfold escape_char.
  repeat match goal with
         | |- context [if ?b then _ else _] => destruct b eqn:?
         end;
    try reflexivity;
    try apply u_escape_printable.
  - unfold all_printable. cbn [forallb]. unfold printable.
    change (ord " ") with 32 in *. change (ord "~") with 126 in *.
    match goal with H : (_ && _) = true |- _ => rewrite H end.
    reflexivity.
  - apply all_printable_app; apply u_escape_printable.
Qed.

Lemma encode_basestring_ascii_printable s :
  all_printable (encode_basestring_ascii s).
Proof.
  unfold encode_basestring_ascii.
  apply all_printable_cons; [reflexivity|].
  apply all_printable_app; [|reflexivity].
  apply all_printable_flat_map, escape_char_printable.
Qed.

Lemma digits_of_N_printable k : all_printable (digits_of_N k).
Proof.
  unfold digits_of_N. induction (N.to_uint k); cbn [chars_of_uint];
    try reflexivity; now apply all_printable_cons.
Qed.

Lemma intstr_printable z : all_printable (intstr z).
Proof.
  destruct z; cbn [intstr]; try apply digits_of_N_printable.
Qed.

Lemma exp_str_printable e : all_printable (exp_str e).
Proof.
  unfold exp_str. apply all_printable_cons.
  - now destruct (e <? 0)%Z.
  - destruct (Z.abs e <? 10)%Z;
      [apply all_printable_cons; [reflexivity|]|]; apply digits_of_N_printable.
Qed.

Lemma format_repr_printable neg ds decpt :
  all_printable ds -> all_printable (format_repr neg ds decpt).
Proof.
  intros Hds. unfold format_repr.
  apply all_printable_app; [now destruct neg|].
  destruct ((decpt <=? -4)%Z || (16 <? decpt)%Z).
  - destruct ds as [|d rest]; [reflexivity|].
    unfold all_printable in Hds. cbn [forallb] in Hds.
    apply andb_true_iff in Hds as [Hd Hrest].
    apply all_printable_cons; [assumption|].
    apply all_printable_app.
    + destruct rest; [reflexivity|].
      now apply all_printable_cons.
    + apply all_printable_cons; [reflexivity|apply exp_str_printable].
  - destruct (decpt <=? 0)%Z.
    + apply all_printable_app; [reflexivity|].
      apply all_printable_app; [now apply all_printable_repeat|assumption].
    + destruct (Z.of_nat (length ds) <=? decpt)%Z.
      * apply all_printable_app; [assumption|].
        apply all_printable_app; [now apply all_printable_repeat|reflexivity].
      * apply all_printable_app; [now apply all_printable_firstn|].
        apply all_printable_cons; [reflexivity|now apply all_printable_skipn].
Qed.

Lemma floatstr_printable f : all_printable (floatstr f).
Proof.
  destruct f as [s|s| |s m e]; cbn [floatstr float_repr];
    try (destruct s; reflexivity); try reflexivity.
  destruct (repr_search _ _ _ _ _ _) as [d sc].
  destruct (strip_zeros _ _ _) as [d' sc'].
  apply format_repr_printable, digits_of_N_printable.
Qed.

Lemma dumps_printable v : all_printable (dumps v).
Proof.
  unfold dumps.
  induction v as [ |b|z|f|s|l IH|d IH] using pyval_ind_nested;
    cbn [iterencode].
  - reflexivity.
  - now destruct b.
  - apply intstr_printable.
  - apply floatstr_printable.
  - apply encode_basestring_ascii_printable.
  - destruct l as [|x l]; [reflexivity|].
    apply all_printable_cons; [reflexivity|].
    apply all_printable_app; [|reflexivity].
    apply all_printable_join; [reflexivity|].
    now apply Forall_map.
  - destruct d as [|kv d]; [reflexivity|].
    apply all_printable_cons; [reflexivity|].
    apply all_printable_app; [|reflexivity].
    apply all_printable_join; [reflexivity|].
    apply Forall_map. eapply Forall_impl; [|exact IH].
    intros [k x] Hx. cbn [fst snd] in *.
    apply all_printable_app; [apply encode_basestring_ascii_printable|].
    apply all_printable_app; [reflexivity|assumption].
Qed.

Lemma all_printable_ascii s :
  all_printable s -> Forall (fun c => c < 128) s.
Proof.
  unfold all_printable. intros H. apply Forall_forall. intros c Hin.
  rewrite forallb_forall in H. specialize (H c Hin).
  unfold printable in H. bool_hyps. lia.
Qed.

Lemma all_printable_no_newline s : all_printable s -> ~ In NEWLINE s.
Proof.
  unfold all_printable. intros H Hin.
  rewrite forallb_forall in H. specialize (H _ Hin). discriminate.
Qed.

(** ** Decoding an object with one string member *)

Lemma skip_ws_non_ws c t : is_ws c = false -> skip_ws (c :: t) = c :: t.
Proof. intros H. cbn [skip_ws]. now rewrite H. Qed.

Lemma skip_ws_ws c t : is_ws c = true -> skip_ws (c :: t) = skip_ws t.
Proof. intros H. cbn [skip_ws]. now rewrite H. Qed.

Lemma skip_ws_all w : Forall (fun c => is_ws c = true) w -> skip_ws w = [].
Proof.
  induction 1 as [|c w Hc _ IH]; [reflexivity|]. cbn [skip_ws]. now rewrite Hc.
Qed.

Lemma scan_once_string f t :
  scan_once (S f) (QUOTE :: t) =
  res_bind (scanstring t) (fun vr => Ok (PStr (fst vr), snd vr)).
Proof.
  cbn [scan_once]. change (QUOTE =? QUOTE) with true. cbv iota.
  destruct (scanstring t) as [[v r]|e|]; reflexivity.
Qed.

Lemma scan_once_object f t :
  scan_once (S f) (ord "{" :: t) = JSONObject (scan_once f) f t.
Proof. reflexivity. Qed.

Lemma JSONObject_quote scan f t :
  JSONObject scan f (QUOTE :: t) = JSONObject_loop scan f t [].
Proof. reflexivity. Qed.

Lemma JSONObject_loop_last scan f t pairs key value t2 r :
  scanstring t = Ok (key, ord ":" :: t2) ->
  scan (skip_ws t2) = Ok (value, ord "}" :: r) ->
  JSONObject_loop scan (S f) t pairs
  = Ok (PDict (dict_of_pairs (pairs ++ [(key, value)])), r).
Proof.
  intros Hk Hv. cbn [JSONObject_loop]. rewrite Hk. cbn [res_bind].
  rewrite skip_ws_non_ws by reflexivity.
  change (ord ":" =? ord ":") with true. cbv iota.
  rewrite Hv. cbn [res_bind].
  rewrite skip_ws_non_ws by reflexivity.
  reflexivity.
Qed.

(** [{"key": "body"}], followed by whitespace, decodes to the dict with
    the one member the two literals denote. *)
Lemma loads_one_member kbody key body s w :
  string_body kbody key -> string_body body s ->
  Forall (fun c => is_ws c = true) w ->
  loads (u "{" ++ dq kbody ++ u ": " ++ dq body ++ u "}" ++ w)
  = Ok (PDict [(key, PStr s)]).
Proof.
  intros Hk Hb Hw. unfold loads, dq. cbn [u app map list_ascii_of_string].
  change (ord "{" =? 0xfeff) with false. cbv iota.
  unfold decode. rewrite skip_ws_non_ws by reflexivity.
  rewrite scan_once_object, JSONObject_quote.
  cbn [length].
  erewrite JSONObject_loop_last.
  - cbn [res_bind]. rewrite (skip_ws_all w Hw). reflexivity.
  - rewrite <- app_assoc. cbn [app]. now apply scanstring_sound.
  - rewrite skip_ws_ws by reflexivity.
    rewrite skip_ws_non_ws by reflexivity.
    rewrite length_app. cbn [length]. rewrite Nat.add_succ_r.
    rewrite scan_once_string.
    rewrite <- app_assoc. cbn [app].
    rewrite (scanstring_sound _ _ Hb). reflexivity.
Qed.

Lemma plain_body s : forallb is_plain s = true -> string_body s s.
Proof.
  induction s as [|c s IH]; cbn [forallb]; intros H; [constructor|].
  apply andb_true_iff in H as [Hc Hs]. unfold is_plain in Hc.
  bool_hyps. apply sb_plain; auto.
Qed.

Lemma loads_prompt_object body s :
  string_body body s ->
  loads (prompt_object (dq body)) = Ok (PDict [(u "prompt", PStr s)]).
Proof.
  intros Hb. unfold prompt_object.
  rewrite <- (app_nil_r (u "}")).
  apply loads_one_member; [now apply plain_body|assumption|constructor].
Qed.

Lemma loads_output_line body s :
  string_body body s ->
  loads (output_line (dq body)) = Ok (PDict [(u "output", PStr s)]).
Proof.
  intros Hb. unfold output_line.
  apply loads_one_member; [now apply plain_body|assumption|].
  now repeat constructor.
Qed.

Lemma dumps_result v : dumps (result_of v) ++ [NEWLINE] = output_line (dumps v).
Proof.
  unfold dumps, result_of, output_line.
  cbn [iterencode map join fst snd].
  change (encode_basestring_ascii (u "output")) with (dq (u "output")).
  change key_separator with (u ": ").
  change (ord "{" :: ?x) with (u "{" ++ x).
  change [ord "}"] with (u "}").
  now rewrite <- !app_assoc.
Qed.

Lemma run_object text d :
  loads text = Ok (PDict d) ->
  run text = Some (success (output_line (dumps (prompt_of d)))).
Proof. intros H. now rewrite run_eq, H, dumps_result. Qed.

(** Setting another key does not change what [get] finds for a key. *)
Lemma dict_get_setitem_other d k v k0 :
  str_eqb k k0 = false ->
  dict_get (dict_setitem d k v) k0 = dict_get d k0.
Proof.
  intros Hk. induction d as [|[k' v'] d IH]; cbn [dict_setitem dict_get].
  - now rewrite Hk.
  - destruct (str_eqb k' k) eqn:E; cbn [dict_get].
    + destruct (str_eqb k' k0) eqn:E0; [|reflexivity].
      apply str_eqb_eq in E, E0. subst.
      assert (str_eqb k0 k0 = true) by now apply str_eqb_eq.
      congruence.
    + destruct (str_eqb k' k0); [reflexivity|assumption].
Qed.

(** What the encoder writes for a character outside ASCII. *)
Lemma escape_char_non_ascii c :
  128 <= c -> is_code_point c = true ->
  escape_char c =
  if c <? 0x10000 then u_escape c
  else u_escape (0xd800 + (c - 0x10000) / 1024)
       ++ u_escape (0xdc00 + (c - 0x10000) mod 1024).
Proof.
  intros Hc Hcp. unfold escape_char.
  change BSLASH with 92. change QUOTE with 34.
  change (ord " ") with 32. change (ord "~") with 126.
  repeat match goal with
         | |- context [?a =? ?b] =>
             replace (a =? b) with false by (symmetry; apply N.eqb_neq; lia)
         end.
  replace ((32 <=? c) && (c <=? 126)) with false
    by (symmetry; apply andb_false_iff; right; apply N.leb_gt; lia).
  destruct (c <? 65536) eqn:E; [reflexivity|].
  apply N.ltb_ge in E. unfold is_code_point in Hcp. apply N.ltb_lt in Hcp.
  cbv zeta. now destruct (surrogate_halves c E Hcp) as [-> ->].
Qed.

(** Every run ends, and writes printable ASCII only. *)
Lemma run_total text : exists c, run text = Some c.
Proof.
  rewrite run_eq. pose proof (loads_total text) as H.
  destruct (loads text) as [[]|e|]; try congruence; eauto.
Qed.

Lemma output_is_printable text c :
  run text = Some c -> output c = [] \/
  exists line, output c = line ++ [NEWLINE] /\ all_printable line.
Proof.
  rewrite run_eq.
  destruct (loads text) as [v|e|]; [|intros [= <-]; now left|discriminate].
  destruct v; try (intros [= <-]; now left).
  intros H. right. exists (dumps (result_of (prompt_of d))).
  split; [|apply dumps_printable].
  assert (E : c = success (dumps (result_of (prompt_of d)) ++ [NEWLINE]))
    by congruence.
  now rewrite E.
Qed.

(** Every well-formed string has a literal of scalar values: the one the
    encoder writes. *)
Lemma wf_str_has_literal s :
  wf_str s ->
  string_body (flat_map escape_char s) s /\
  scalar_text (flat_map escape_char s).
Proof.
  intros Hwf. split; [now apply encode_body_sound|].
  assert (Hp : all_printable (flat_map escape_char s))
    by apply all_printable_flat_map, escape_char_printable.
  unfold all_printable in Hp. rewrite forallb_forall in Hp.
  apply Forall_forall. intros c Hin. specialize (Hp c Hin).
  unfold printable in Hp. unfold is_scalar, is_code_point, is_surrogate.
  bool_hyps. apply andb_true_iff. split; [apply N.ltb_lt; lia|].
  apply negb_true_iff, andb_false_iff. left. apply N.leb_gt. lia.
Qed.

(** ** [loads] reads back what [dumps] wrote *)

Lemma chars_of_uint_digits d : forallb is_digit (chars_of_uint d) = true.
Proof. induction d; cbn [chars_of_uint forallb]; [reflexivity|..]; now rewrite IHd. Qed.

Lemma digits_value_acc d : forall acc,
  fold_left (fun a c => a * 10 + digit_value c) (chars_of_uint d) (N.pos acc)
  = N.pos (Pos.of_uint_acc d acc).
Proof.
  induction d; intros acc; cbn [chars_of_uint fold_left Pos.of_uint_acc];
    [reflexivity|..];
    match goal with
    | |- fold_left _ _ ?x = _ =>
        match goal with
        | |- _ = N.pos (Pos.of_uint_acc _ ?y) =>
            replace x with (N.pos y)
              by (unfold digit_value;
                  repeat match goal with
                         | |- context [ord ?a] =>
                             let v := eval vm_compute in (ord a) in
                             change (ord a) with v
                         end; lia)
        end
    end; apply IHd.
Qed.

Lemma digits_value_chars d : digits_value (chars_of_uint d) = Pos.of_uint d.
Proof.
  unfold digits_value.
  induction d; cbn [chars_of_uint fold_left Pos.of_uint]; [reflexivity|..];
    try (match goal with
         | |- fold_left _ _ ?x = N.pos (Pos.of_uint_acc _ ?y) =>
             change x with (N.pos y)
         end; apply digits_value_acc).
  exact IHd.
Qed.

Lemma digits_value_digits_of_N n : digits_value (digits_of_N n) = n.
Proof.
  unfold digits_of_N. rewrite digits_value_chars.
  apply DecimalN.Unsigned.of_to.
Qed.

Lemma to_uint_head p :
  match Pos.to_uint p with
  | Decimal.Nil | Decimal.D0 _ => False
  | _ => True
  end.
Proof.
  pose proof (DecimalPos.Unsigned.to_of (Pos.to_uint p)) as H.
  rewrite DecimalPos.Unsigned.of_to in H. cbn [N.to_uint] in H.
  pose proof (DecimalPos.Unsigned.to_uint_nonnil p) as Hnil.
  pose proof (DecimalPos.Unsigned.to_uint_nonzero p) as Hnz.
  destruct (Pos.to_uint p) as [|u| | | | | | | | | ] eqn:E; try exact I.
  - congruence.
  - unfold Decimal.unorm in H. rewrite DecimalFacts.nzhead_D0 in H.
    destruct (Decimal.nzhead u) eqn:En; try discriminate H.
    + exact (Hnz H).
    + exact (DecimalFacts.nzhead_nonzero _ _ En).
Qed.

Lemma digits_of_N_pos p :
  exists c ds,
    digits_of_N (N.pos p) = c :: ds /\
    is_digit c = true /\ (c =? ord "0") = false /\
    forallb is_digit ds = true.
Proof.
  unfold digits_of_N. cbn [N.to_uint].
  pose proof (to_uint_head p) as H.
  pose proof (chars_of_uint_digits (Pos.to_uint p)) as Hd.
  destruct (Pos.to_uint p); try contradiction;
    cbn [chars_of_uint forallb] in *;
    apply andb_true_iff in Hd as [Hc Hds];
    eexists _, _; (split; [reflexivity|]); repeat split; assumption || reflexivity.
Qed.

Lemma delimiter_cases c :
  is_delimiter c = true ->
  is_digit c = false /\ (c =? ord ".") = false /\
  (c =? ord "e") = false /\ (c =? ord "E") = false.
Proof.
  unfold is_delimiter, is_ws. intros H.
  repeat (apply orb_true_iff in H as [H|H]); apply N.eqb_eq in H; subst;
    repeat split; reflexivity.
Qed.

Lemma span_digits_delimited ds rest :
  forallb is_digit ds = true -> delimited rest = true ->
  span_digits (ds ++ rest) = (ds, rest).
Proof.
  intros Hds Hrest. induction ds as [|c ds IH]; cbn [app].
  - destruct rest as [|c r]; [reflexivity|]. cbn [span_digits].
    apply delimiter_cases in Hrest as (-> & _). reflexivity.
  - cbn [forallb] in Hds. apply andb_true_iff in Hds as [Hc Hds].
    cbn [span_digits]. rewrite Hc, (IH Hds). reflexivity.
Qed.

Lemma match_frac_delimited rest :
  delimited rest = true -> match_frac rest = (None, rest).
Proof.
  destruct rest as [|c r]; [reflexivity|]. intros H.
  apply delimiter_cases in H as (_ & H & _). unfold match_frac. now rewrite H.
Qed.

Lemma match_exp_delimited rest :
  delimited rest = true -> match_exp rest = (None, rest).
Proof.
  destruct rest as [|c r]; [reflexivity|]. intros H.
  apply delimiter_cases in H as (_ & _ & H1 & H2). unfold match_exp.
  now rewrite H1, H2.
Qed.

(** The number scanned from a run of digits with no leading zero. *)
Lemma match_number_digits c ds rest :
  is_digit c = true -> forallb is_digit ds = true ->
  ((c =? ord "0") = true -> ds = []) ->
  delimited rest = true ->
  match_number (c :: ds ++ rest)
  = Some ({| nm_neg := false; nm_int := c :: ds;
             nm_frac := None; nm_exp := None |}, rest) /\
  match_number (ord "-" :: c :: ds ++ rest)
  = Some ({| nm_neg := true; nm_int := c :: ds;
             nm_frac := None; nm_exp := None |}, rest).
Proof.
  intros Hc Hds Hz Hrest.
  assert (Hminus : (c =? ord "-") = false).
  { destruct (c =? ord "-") eqn:E; [|reflexivity].
    apply N.eqb_eq in E. subst. discriminate Hc. }
  assert (Hspan : (if c =? ord "0" then ([], ds ++ rest) else span_digits (ds ++ rest))
                  = (ds, rest)).
  { destruct (c =? ord "0") eqn:E.
    - now rewrite (Hz eq_refl).
    - now apply span_digits_delimited. }
  unfold match_number. rewrite Hminus.
  change (ord "-" =? ord "-") with true. cbv iota beta.
  rewrite Hc, Hspan, (match_frac_delimited _ Hrest), (match_exp_delimited _ Hrest).
  split; reflexivity.
Qed.

Lemma scan_atom_number c t m r :
  (ord "n" =? c) = false -> (ord "t" =? c) = false -> (ord "f" =? c) = false ->
  match_number (c :: t) = Some (m, r) ->
  scan_atom (c :: t) = Ok (number_value m, r).
Proof.
  intros Hn Ht Hf Hm. unfold scan_atom.
  change (strip_prefix (u "null") (c :: t))
    with (if ord "n" =? c then strip_prefix (u "ull") t else None).
  change (strip_prefix (u "true") (c :: t))
    with (if ord "t" =? c then strip_prefix (u "rue") t else None).
  change (strip_prefix (u "false") (c :: t))
    with (if ord "f" =? c then strip_prefix (u "alse") t else None).
  now rewrite Hn, Ht, Hf, Hm.
Qed.

Lemma digit_not_letter c :
  is_digit c = true ->
  (ord "n" =? c) = false /\ (ord "t" =? c) = false /\ (ord "f" =? c) = false.
Proof.
  unfold is_digit. intros H. apply andb_true_iff in H as [_ H].
  apply N.leb_le in H. change (ord "9") with 57 in H.
  repeat split; apply N.eqb_neq; intros <-; vm_compute in H; now apply H.
Qed.

(** [int(repr(z)) == z], as the scanner sees it. *)
Lemma scan_atom_intstr z rest :
  delimited rest = true ->
  scan_atom (intstr z ++ rest) = Ok (PInt z, rest).
Proof.
  intros Hrest.
  assert (Hpos : forall p,
             scan_atom (digits_of_N (N.pos p) ++ rest) = Ok (PInt (Z.pos p), rest) /\
             scan_atom (ord "-" :: digits_of_N (N.pos p) ++ rest)
             = Ok (PInt (Z.neg p), rest)).
  { intros p.
    destruct (digits_of_N_pos p) as (c & ds & E & Hc & Hz & Hds).
    pose proof (digits_value_digits_of_N (N.pos p)) as Hv.
    rewrite E in *. cbn [app].
    destruct (match_number_digits c ds rest Hc Hds) as [H1 H2];
      [congruence|assumption|].
    destruct (digit_not_letter c Hc) as (Hn & Ht & Hf).
    split.
    - etransitivity; [exact (scan_atom_number _ _ _ _ Hn Ht Hf H1)|].
      unfold number_value, py_int. cbn [nm_frac nm_exp nm_int nm_neg].
      now rewrite Hv.
    - etransitivity;
        [exact (scan_atom_number (ord "-") _ _ _ eq_refl eq_refl eq_refl H2)|].
      unfold number_value, py_int. cbn [nm_frac nm_exp nm_int nm_neg].
      now rewrite Hv. }
  destruct z as [|p|p]; cbn [intstr Z.to_N].
  - change (digits_of_N 0) with [ord "0"]. cbn [app].
    destruct (match_number_digits (ord "0") [] rest eq_refl eq_refl)
      as [H1 _]; [intros _; reflexivity|assumption|].
    exact (scan_atom_number (ord "0") _ _ _ eq_refl eq_refl eq_refl H1).
  - apply Hpos.
  - apply Hpos.
Qed.

Lemma strip_prefix_same p r : strip_prefix p (p ++ r) = Some r.
Proof.
  induction p as [|x p IH]; cbn [app strip_prefix]; [reflexivity|].
  now rewrite N.eqb_refl.
Qed.

Lemma delimited_cases rest :
  delimited rest = true ->
  rest = [] \/
  exists c r, rest = c :: r /\
    (c = 32 \/ c = 9 \/ c = 10 \/ c = 13 \/ c = 44 \/ c = 93 \/ c = 125).
Proof.
  destruct rest as [|c r]; [now left|]. cbn [delimited].
  unfold is_delimiter, is_ws. intros H. right. exists c, r.
  split; [reflexivity|].
  repeat (apply orb_true_iff in H as [H|H]); apply N.eqb_eq in H; subst;
    tauto.
Qed.

(** The floats whose text is read back by plain computation. *)
Lemma special_float_reads_back f :
  match f with S754_finite _ _ _ => False | _ => True end ->
  float_reads_back f.
Proof.
  intros Hf rest Hrest.
  destruct f as [s|s| |s m e]; [| | |contradiction]; cbn [floatstr float_repr].
  - apply delimited_cases in Hrest
      as [->|(c & r & -> & [->|[->|[->|[->|[->|[->| ->]]]]]])];
      destruct s; reflexivity.
  - destruct s; reflexivity.
  - reflexivity.
Qed.

(** ** The digits of a number and its size *)

Lemma digits_value_fold ds : forall acc,
  fold_left (fun a c => a * 10 + digit_value c) ds acc
  = acc * 10 ^ N.of_nat (length ds) + digits_value ds.
Proof.
  unfold digits_value.
  induction ds as [|c ds IH]; intros acc; cbn [fold_left length].
  - cbn. lia.
  - rewrite IH, (IH (0 * 10 + digit_value c)).
    rewrite Nat2N.inj_succ, N.pow_succ_r'. lia.
Qed.

Lemma digits_value_cons c ds :
  digits_value (c :: ds)
  = digit_value c * 10 ^ N.of_nat (length ds) + digits_value ds.
Proof.
  unfold digits_value at 1. cbn [fold_left]. rewrite digits_value_fold. lia.
Qed.

Lemma digit_value_range c : is_digit c = true -> digit_value c <= 9.
Proof.
  unfold is_digit, digit_value. intros H. apply andb_true_iff in H as [H1 H2].
  apply N.leb_le in H1, H2. change (ord "0") with 48 in *.
  change (ord "9") with 57 in *. lia.
Qed.

Lemma digits_value_lt ds :
  forallb is_digit ds = true -> digits_value ds < 10 ^ N.of_nat (length ds).
Proof.
  induction ds as [|c ds IH]; intros H; [cbn; lia|].
  cbn [forallb] in H. apply andb_true_iff in H as [Hc Hds].
  rewrite digits_value_cons. cbn [length].
  rewrite Nat2N.inj_succ, N.pow_succ_r'.
  pose proof (digit_value_range c Hc). specialize (IH Hds). nia.
Qed.

Lemma digits_value_ge c ds :
  is_digit c = true -> (c =? ord "0") = false ->
  10 ^ N.of_nat (length ds) <= digits_value (c :: ds).
Proof.
  intros Hc Hz. rewrite digits_value_cons.
  assert (1 <= digit_value c).
  { unfold is_digit, digit_value in *. apply andb_true_iff in Hc as [H1 H2].
    apply N.leb_le in H1. apply N.eqb_neq in Hz.
    change (ord "0") with 48 in *. lia. }
  nia.
Qed.

Lemma digits_of_N_nonempty n : digits_of_N n <> [].
Proof.
  destruct n as [|p]; [discriminate|].
  destruct (digits_of_N_pos p) as (c & ds & E & _). now rewrite E.
Qed.

(** A positive number lies between the powers of ten that its number of
    digits gives. *)
Lemma digits_of_N_bounds n :
  0 < n ->
  10 ^ (N.of_nat (length (digits_of_N n)) - 1) <= n
  < 10 ^ N.of_nat (length (digits_of_N n)).
Proof.
  intros Hn. destruct n as [|p]; [lia|].
  destruct (digits_of_N_pos p) as (c & ds & E & Hc & Hz & Hds).
  pose proof (digits_value_digits_of_N (N.pos p)) as Hv.
  rewrite E in *. split.
  - rewrite <- Hv. cbn [length]. rewrite Nat2N.inj_succ.
    replace (N.succ (N.of_nat (length ds)) - 1) with (N.of_nat (length ds)) by lia.
    now apply digits_value_ge.
  - rewrite <- Hv. apply digits_value_lt.
    cbn [forallb]. now rewrite Hc, Hds.
Qed.

Lemma digits_of_N_bounds_Z z :
  (0 < z)%Z ->
  let L := Z.of_nat (length (digits_of_N (Z.to_N z))) in
  (1 <= L /\ 10 ^ (L - 1) <= z < 10 ^ L)%Z.
Proof.
  intros Hz L.
  assert (Hn : 0 < Z.to_N z) by lia.
  pose proof (digits_of_N_bounds _ Hn) as [H1 H2].
  pose proof (digits_of_N_nonempty (Z.to_N z)) as Hne.
  assert (HL : (1 <= L)%Z).
  { unfold L. destruct (digits_of_N (Z.to_N z)); [now elim Hne|].
    cbn [length]. lia. }
  split; [exact HL|].
  unfold L in *. set (len := length (digits_of_N (Z.to_N z))) in *.
  apply N2Z.inj_le in H1. apply N2Z.inj_lt in H2.
  rewrite N2Z.inj_pow in H1, H2. rewrite Z2N.id in H1, H2 by lia.
  rewrite N2Z.inj_sub in H1 by lia.
  rewrite nat_N_Z in H1, H2. change (Z.of_N 10) with 10%Z in *.
  change (Z.of_N 1) with 1%Z in *. lia.
Qed.

(** [floor_log10] never overestimates. *)
Lemma floor_log10_le num den :
  (0 < num)%Z -> (0 < den)%Z ->
  let k := floor_log10 num den in
  if (0 <=? k)%Z then (10 ^ k * den <= num)%Z
  else (den <= num * 10 ^ (- k))%Z.
Proof.
  intros Hnum Hden. unfold floor_log10.
  destruct (den <=? num)%Z eqn:E.
  - apply Z.leb_le in E.
    assert (Hq : (0 < num / den)%Z) by (apply Z.div_str_pos; lia).
    destruct (digits_of_N_bounds_Z _ Hq) as (HL & Hlo & _).
    cbv zeta. set (L := Z.of_nat _) in *.
    replace (0 <=? L - 1)%Z with true by (symmetry; apply Z.leb_le; lia).
    pose proof (Z.mul_div_le num den Hden). nia.
  - apply Z.leb_gt in E.
    assert (Hq : (0 < (den - 1) / num)%Z) by (apply Z.div_str_pos; lia).
    destruct (digits_of_N_bounds_Z _ Hq) as (HL & _ & Hhi).
    cbv zeta. set (L := Z.of_nat _) in *.
    replace (0 <=? - L)%Z with false by (symmetry; apply Z.leb_gt; lia).
    rewrite Z.opp_involutive.
    pose proof (Z.div_mod (den - 1) num ltac:(lia)) as Hdm.
    pose proof (Z.mod_pos_bound (den - 1) num Hnum) as Hm.
    set (q := ((den - 1) / num)%Z) in *. set (r := ((den - 1) mod num)%Z) in *.
    nia.
Qed.

(** The decimal below a value with at least one digit is positive. *)
Lemma decimal_below_pos num den k p :
  (0 < num)%Z -> (0 < den)%Z -> (1 <= p)%Z ->
  (if (0 <=? k)%Z then (10 ^ k * den <= num)%Z
   else (den <= num * 10 ^ (- k))%Z) ->
  let '(lo, r, b, sc) := decimal_below num den k p in (1 <= lo)%Z.
Proof.
  intros Hnum Hden Hp Hk. unfold decimal_below.
  set (sc := (k - p + 1)%Z).
  assert (Hpow : forall a b : Z, (0 <= a <= b)%Z -> (0 < 10 ^ a <= 10 ^ b)%Z).
  { intros a b H. split; [apply Z.pow_pos_nonneg; lia|].
    apply Z.pow_le_mono_r; lia. }
  destruct (0 <=? sc)%Z eqn:Esc.
  - apply Z.leb_le in Esc.
    replace (0 <=? k)%Z with true in Hk by (symmetry; apply Z.leb_le; lia).
    pose proof (Hpow sc k ltac:(lia)) as [H1 H2].
    apply Z.div_le_lower_bound; nia.
  - apply Z.leb_gt in Esc.
    apply Z.div_le_lower_bound; [lia|].
    destruct (0 <=? k)%Z eqn:Ek.
    + apply Z.leb_le in Ek.
      pose proof (Hpow 0%Z k ltac:(lia)) as [_ H1].
      pose proof (Hpow 0%Z (- sc)%Z ltac:(lia)) as [_ H2].
      change (10 ^ 0)%Z with 1%Z in *. nia.
    + apply Z.leb_gt in Ek.
      pose proof (Hpow (- k)%Z (- sc)%Z ltac:(lia)) as [H1 H2]. nia.
Qed.

Lemma repr_try_pos x num den k p d sc :
  (let '(lo, r, b, sc) := decimal_below num den k p in (1 <= lo)%Z) ->
  repr_try x num den k p = Some (d, sc) -> (1 <= d)%Z.
Proof.
  unfold repr_try.
  destruct (decimal_below num den k p) as [[[lo r] b] sc'].
  intros Hlo H.
  repeat match type of H with
         | (if ?c then _ else _) = _ => destruct c
         | match ?c with _ => _ end = _ => destruct c
         end; inversion H; subst; lia.
Qed.

Lemma repr_search_pos fuel x num den k :
  (0 < num)%Z -> (0 < den)%Z ->
  (if (0 <=? k)%Z then (10 ^ k * den <= num)%Z
   else (den <= num * 10 ^ (- k))%Z) ->
  forall p, (1 <= p)%Z -> (1 <= fst (repr_search fuel x num den k p))%Z.
Proof.
  intros Hnum Hden Hk. induction fuel as [|fuel IH]; intros p Hp;
    cbn [repr_search];
    pose proof (decimal_below_pos num den k p Hnum Hden Hp Hk) as Hlo.
  - destruct (decimal_below num den k p) as [[[lo r] b] sc].
    destruct (2 * r <? b)%Z; cbn [fst]; lia.
  - destruct (repr_try x num den k p) as [[d sc]|] eqn:E.
    + cbn [fst]. exact (repr_try_pos _ _ _ _ _ _ _ Hlo E).
    + apply IH. lia.
Qed.

Lemma strip_zeros_pos fuel :
  forall d sc, (1 <= d)%Z -> (1 <= fst (strip_zeros fuel d sc))%Z.
Proof.
  induction fuel as [|fuel IH]; intros d sc Hd; cbn [strip_zeros]; [exact Hd|].
  destruct ((0 <? d)%Z && (d mod 10 =? 0)%Z) eqn:E; [|exact Hd].
  apply andb_true_iff in E as [_ E]. apply Z.eqb_eq in E.
  apply IH. pose proof (Z.div_mod d 10 ltac:(lia)). lia.
Qed.

(** The digits [repr] lays out: a nonzero digit followed by digits. *)
Lemma float_repr_digits m e :
  let num := if (0 <=? e)%Z then (Zpos m * 2 ^ e)%Z else Zpos m in
  let den := if (0 <=? e)%Z then 1%Z else (2 ^ (- e))%Z in
  let k := floor_log10 num den in
  let '(d, sc) := repr_search 17 (S754_finite false m e) num den k 1 in
  let '(d', sc') := strip_zeros 17 d sc in
  exists c ds,
    digits_of_N (Z.to_N d') = c :: ds /\
    is_digit c = true /\ (c =? ord "0") = false /\
    forallb is_digit ds = true.
Proof.
  intros num den k.
  assert (Hnum : (0 < num)%Z).
  { unfold num. destruct (0 <=? e)%Z eqn:E; [|lia].
    apply Z.leb_le in E. apply Z.mul_pos_pos; [lia|].
    apply Z.pow_pos_nonneg; lia. }
  assert (Hden : (0 < den)%Z).
  { unfold den. destruct (0 <=? e)%Z eqn:E; [lia|].
    apply Z.leb_gt in E. apply Z.pow_pos_nonneg; lia. }
  pose proof (repr_search_pos 17 (S754_finite false m e) num den k Hnum Hden
                (floor_log10_le num den Hnum Hden) 1%Z ltac:(lia)) as Hd.
  destruct (repr_search 17 (S754_finite false m e) num den k 1) as [d sc].
  cbn [fst] in Hd.
  pose proof (strip_zeros_pos 17 d sc Hd) as Hd'.
  destruct (strip_zeros 17 d sc) as [d' sc']. cbn [fst] in Hd'.
  destruct (Z.to_N d') as [|p] eqn:Ep; [lia|].
  apply digits_of_N_pos.
Qed.

Lemma span_digits_stops ds t :
  forallb is_digit ds = true -> stops t = true ->
  span_digits (ds ++ t) = (ds, t).
Proof.
  intros Hds Ht. induction ds as [|c ds IH]; cbn [app].
  - destruct t as [|c r]; [reflexivity|]. cbn [span_digits stops] in *.
    apply negb_true_iff in Ht. now rewrite Ht.
  - cbn [forallb] in Hds. apply andb_true_iff in Hds as [Hc Hds].
    cbn [span_digits]. now rewrite Hc, (IH Hds).
Qed.

Lemma delimited_stops r : delimited r = true -> stops r = true.
Proof.
  destruct r as [|c r]; [reflexivity|]. cbn [delimited stops]. intros H.
  apply delimiter_cases in H as (-> & _). reflexivity.
Qed.

Lemma match_frac_some ds t :
  digit_run ds -> stops t = true ->
  match_frac (ord "." :: ds ++ t) = (Some ds, t).
Proof.
  intros [Hne Hds] Ht. unfold match_frac.
  change (ord "." =? ord ".") with true. cbv iota.
  rewrite (span_digits_stops _ _ Hds Ht).
  destruct ds; [now elim Hne|reflexivity].
Qed.

Lemma match_exp_some (neg : bool) ds t :
  digit_run ds -> stops t = true ->
  match_exp (ord "e" :: (if neg then ord "-" else ord "+") :: ds ++ t)
  = (Some (neg, ds), t).
Proof.
  intros [Hne Hds] Ht. unfold match_exp.
  change ((ord "e" =? ord "e") || (ord "e" =? ord "E")) with true. cbv iota.
  destruct neg.
  - change (ord "-" =? ord "-") with true. cbv iota.
    rewrite (span_digits_stops _ _ Hds Ht).
    destruct ds; [now elim Hne|reflexivity].
  - change (ord "+" =? ord "-") with false.
    change (ord "+" =? ord "+") with true. cbv iota.
    rewrite (span_digits_stops _ _ Hds Ht).
    destruct ds; [now elim Hne|reflexivity].
Qed.

Lemma match_exp_part (ex : option (bool * str)) r :
  match ex with Some (_, ds) => digit_run ds | None => True end ->
  delimited r = true ->
  let t := match ex with
           | Some (neg, ds) =>
               ord "e" :: (if neg : bool then ord "-" else ord "+") :: ds
           | None => []
           end ++ r in
  match_exp t = (ex, r) /\ match_frac t = (None, t) /\ stops t = true.
Proof.
  intros Hex Hr. destruct ex as [[neg ds]|]; cbn [app].
  - split; [now apply match_exp_some, delimited_stops|]. split; reflexivity.
  - split; [now apply match_exp_delimited|].
    split; [now apply match_frac_delimited|now apply delimited_stops].
Qed.

(** [NUMBER_RE] matches the text of well-formed groups and nothing more,
    when a delimiter or the end of the text follows. *)
Lemma match_number_text m r :
  wf_number m -> delimited r = true ->
  match_number (number_text m ++ r) = Some (m, r).
Proof.
  intros ((c & ds & Hint & Hc & Hds & Hz) & Hfrac & Hexp) Hr.
  destruct m as [neg int frac ex]. cbn [nm_neg nm_int nm_frac nm_exp] in *.
  subst int. unfold number_text. cbn [nm_neg nm_int nm_frac nm_exp].
  rewrite <- !app_assoc.
  destruct (match_exp_part ex r Hexp Hr) as (He & Hf & Hs).
  set (te := match ex with
             | Some (neg, ds) =>
                 ord "e" :: (if neg : bool then ord "-" else ord "+") :: ds
             | None => []
             end ++ r) in *.
  assert (Hfr : match_frac (match frac with
                            | Some ds => ord "." :: ds
                            | None => []
                            end ++ te) = (frac, te) /\
                stops (match frac with
                       | Some ds => ord "." :: ds
                       | None => []
                       end ++ te) = true).
  { destruct frac as [fs|]; cbn [app].
    - split; [now apply match_frac_some|reflexivity].
    - split; assumption. }
  destruct Hfr as [Hfr Hsf].
  set (tf := match frac with Some ds => ord "." :: ds | None => [] end ++ te) in *.
  assert (Hminus : (c =? ord "-") = false).
  { destruct (c =? ord "-") eqn:E; [|reflexivity].
    apply N.eqb_eq in E. subst. discriminate Hc. }
  assert (Hspan : (if c =? ord "0" then ([], ds ++ tf) else span_digits (ds ++ tf))
                  = (ds, tf)).
  { destruct (c =? ord "0") eqn:E.
    - now rewrite (Hz eq_refl).
    - now apply span_digits_stops. }
  assert (Hbody : forall neg',
    (if is_digit c
     then let (ds0, s3) := if c =? ord "0" then ([], ds ++ tf)
                           else span_digits (ds ++ tf) in
          let (frac0, s4) := match_frac s3 in
          let (exp0, s5) := match_exp s4 in
          Some ({| nm_neg := neg'; nm_int := c :: ds0;
                   nm_frac := frac0; nm_exp := exp0 |}, s5)
     else None)
    = Some ({| nm_neg := neg'; nm_int := c :: ds; nm_frac := frac; nm_exp := ex |}, r)).
  { intros neg'. now rewrite Hc, Hspan, Hfr, He. }
  destruct neg; cbn [app]; unfold match_number.
  - change (ord "-" =? ord "-") with true. cbv iota. apply Hbody.
  - rewrite Hminus. apply Hbody.
Qed.

Lemma forallb_firstn {A} (f : A -> bool) n l :
  forallb f l = true -> forallb f (firstn n l) = true.
Proof.
  revert l. induction n as [|n IH]; intros [|x l]; cbn [firstn forallb]; auto.
  intros H. apply andb_true_iff in H as [Hx Hl]. now rewrite Hx, IH.
Qed.

Lemma forallb_skipn {A} (f : A -> bool) n l :
  forallb f l = true -> forallb f (skipn n l) = true.
Proof.
  revert l. induction n as [|n IH]; intros [|x l]; cbn [skipn forallb]; auto.
  intros H. apply andb_true_iff in H as [Hx Hl]. now apply IH.
Qed.

Lemma forallb_repeat {A} (f : A -> bool) x n :
  f x = true -> forallb f (repeat x n) = true.
Proof. intros H. induction n; cbn [repeat forallb]; [reflexivity|]. now rewrite H. Qed.

Lemma exp_str_digits e :
  exists ds, exp_str e = (if (e <? 0)%Z then ord "-" else ord "+") :: ds /\
             digit_run ds.
Proof.
  unfold exp_str. eexists. split; [reflexivity|].
  pose proof (chars_of_uint_digits (N.to_uint (Z.to_N (Z.abs e)))) as Hd.
  fold (digits_of_N (Z.to_N (Z.abs e))) in Hd.
  pose proof (digits_of_N_nonempty (Z.to_N (Z.abs e))) as Hne.
  destruct (Z.abs e <? 10)%Z; split; try discriminate; try assumption.
Qed.

(** Every layout of [repr] is the text of a number with a fraction or an
    exponent. *)
Lemma format_repr_number neg c ds decpt :
  is_digit c = true -> (c =? ord "0") = false -> forallb is_digit ds = true ->
  exists m,
    wf_number m /\ (nm_frac m <> None \/ nm_exp m <> None) /\
    nm_neg m = neg /\
    format_repr neg (c :: ds) decpt = number_text m.
Proof.
  intros Hc Hz Hds. unfold format_repr.
  assert (Hint : forall ds', forallb is_digit ds' = true ->
            exists c0 ds0, c :: ds' = c0 :: ds0 /\ is_digit c0 = true /\
              forallb is_digit ds0 = true /\ ((c0 =? ord "0") = true -> ds0 = [])).
  { intros ds' H. exists c, ds'. repeat split; try assumption. congruence. }
  destruct ((decpt <=? -4)%Z || (16 <? decpt)%Z).
  - destruct (exp_str_digits (decpt - 1)) as (es & Ee & Hes).
    exists {| nm_neg := neg; nm_int := [c];
              nm_frac := match ds with [] => None | _ :: _ => Some ds end;
              nm_exp := Some ((decpt - 1 <? 0)%Z, es) |}.
    split; [|split; [right; discriminate|split; [reflexivity|]]].
    + split; [now apply (Hint [])|]. cbn [nm_frac nm_exp]. split; [|exact Hes].
      destruct ds; [exact I|]. split; [discriminate|assumption].
    + unfold number_text. cbn [nm_neg nm_int nm_frac nm_exp]. rewrite Ee.
      destruct ds; reflexivity.
  - destruct (decpt <=? 0)%Z eqn:E0.
    + exists {| nm_neg := neg; nm_int := [ord "0"];
                nm_frac := Some (repeat (ord "0") (Z.to_nat (- decpt)) ++ c :: ds);
                nm_exp := None |}.
      split; [|split; [left; discriminate|split; [reflexivity|]]].
      * split; [exists (ord "0"), []; now repeat split|].
        cbn [nm_frac nm_exp]. split; [|exact I]. split.
        -- destruct (repeat _ _); discriminate.
        -- rewrite forallb_app, forallb_repeat by reflexivity.
           cbn [forallb]. now rewrite Hc, Hds.
      * unfold number_text. cbn [nm_neg nm_int nm_frac nm_exp].
        now rewrite List.app_nil_r.
    + destruct (Z.of_nat (length (c :: ds)) <=? decpt)%Z eqn:El.
      * exists {| nm_neg := neg;
                  nm_int := c :: ds ++ repeat (ord "0")
                                         (Z.to_nat decpt - length (c :: ds));
                  nm_frac := Some [ord "0"];
                  nm_exp := None |}.
        split; [|split; [left; discriminate|split; [reflexivity|]]].
        -- split; [apply Hint|].
           ++ now rewrite forallb_app, Hds, forallb_repeat.
           ++ cbn [nm_frac nm_exp]. split; [|exact I]. split; [discriminate|reflexivity].
        -- unfold number_text. cbn [nm_neg nm_int nm_frac nm_exp].
           rewrite List.app_nil_r. cbn [app u list_ascii_of_string map].
           now rewrite <- !app_assoc.
      * apply Z.leb_gt in El.
        destruct (Z.to_nat decpt) as [|n] eqn:En.
        { apply Z.leb_gt in E0. lia. }
        exists {| nm_neg := neg; nm_int := c :: firstn n ds;
                  nm_frac := Some (skipn n ds); nm_exp := None |}.
        split; [|split; [left; discriminate|split; [reflexivity|]]].
        -- split; [apply Hint; now apply forallb_firstn|].
           cbn [nm_frac nm_exp]. split; [|exact I]. split.
           ++ cbn [length] in El. intros E.
              pose proof (firstn_skipn n ds) as Hfs. rewrite E, List.app_nil_r in Hfs.
              pose proof (firstn_le_length n ds) as Hle.
              rewrite Hfs in Hle. lia.
           ++ now apply forallb_skipn.
        -- unfold number_text. cbn [nm_neg nm_int nm_frac nm_exp].
           now rewrite List.app_nil_r.
Qed.

Lemma floatstr_number_text s m e :
  exists nm,
    wf_number nm /\ (nm_frac nm <> None \/ nm_exp nm <> None) /\
    nm_neg nm = s /\
    floatstr (S754_finite s m e) = number_text nm.
Proof.
  cbn [floatstr float_repr].
  pose proof (float_repr_digits m e) as H. cbv zeta in H.
  destruct (repr_search 17 _ _ _ _ 1) as [d sc].
  destruct (strip_zeros 17 d sc) as [d' sc'].
  destruct H as (c & ds & E & Hc & Hz & Hds). rewrite E.
  now apply format_repr_number.
Qed.

Lemma scan_atom_number_text nm r :
  wf_number nm -> nm_frac nm <> None \/ nm_exp nm <> None ->
  delimited r = true ->
  scan_atom (number_text nm ++ r) = Ok (PFloat (py_float nm), r).
Proof.
  intros Hwf Hfl Hr.
  pose proof (match_number_text nm r Hwf Hr) as Hm.
  assert (Hv : number_value nm = PFloat (py_float nm)).
  { unfold number_value. destruct Hfl as [H|H].
    - now destruct (nm_frac nm).
    - destruct (nm_frac nm); [reflexivity|]. now destruct (nm_exp nm). }
  rewrite <- Hv.
  destruct Hwf as ((c & ds & Hint & Hc & _) & _).
  unfold number_text in *. rewrite Hint in *.
  destruct (nm_neg nm); cbn [app] in *.
  - exact (scan_atom_number (ord "-") _ _ _ eq_refl eq_refl eq_refl Hm).
  - destruct (digit_not_letter c Hc) as (Hn & Ht & Hf).
    rewrite <- !app_assoc in *. cbn [app] in *.
    exact (scan_atom_number c _ _ _ Hn Ht Hf Hm).
Qed.

(** The text [floatstr] writes for a float is read as a float, whatever the
    float. *)
Lemma float_scans f r :
  delimited r = true ->
  scan_atom (floatstr f ++ r) = Ok (PFloat (float_reread f), r).
Proof.
  intros Hr. destruct f as [s|s| |s m e].
  - rewrite (special_float_reads_back (S754_zero s) I r Hr).
    now destruct s.
  - rewrite (special_float_reads_back (S754_infinity s) I r Hr).
    now destruct s.
  - now rewrite (special_float_reads_back S754_nan I r Hr).
  - destruct (floatstr_number_text s m e) as (nm & Hwf & Hfl & _ & E).
    unfold float_reread. rewrite E.
    rewrite (scan_atom_number_text nm r Hwf Hfl Hr).
    pose proof (scan_atom_number_text nm [] Hwf Hfl eq_refl) as H0.
    rewrite List.app_nil_r in H0. now rewrite H0.
Qed.

Lemma float_reads_back_reread f : float_reads_back f -> float_reread f = f.
Proof.
  intros H. pose proof (H [] eq_refl) as H0. rewrite List.app_nil_r in H0.
  unfold float_reread. now rewrite H0.
Qed.

Lemma scan_once_atom f c t :
  (c =? QUOTE) = false -> (c =? ord "{") = false -> (c =? ord "[") = false ->
  scan_once (S f) (c :: t) = scan_atom (c :: t).
Proof. intros H1 H2 H3. cbn [scan_once]. now rewrite H1, H2, H3. Qed.

Lemma scan_once_array f t :
  scan_once (S f) (ord "[" :: t) = JSONArray (scan_once f) f t.
Proof. reflexivity. Qed.

Lemma float_head f :
  exists c t, floatstr f = c :: t /\
    is_ws c = false /\ (c =? ord "]") = false /\
    (c =? QUOTE) = false /\ (c =? ord "{") = false /\ (c =? ord "[") = false.
Proof.
  pose proof (float_scans f [] eq_refl) as H. rewrite List.app_nil_r in H.
  destruct (floatstr f) as [|c t]; [discriminate H|].
  exists c, t. split; [reflexivity|].
  assert (Hbad : forall x, In x [32; 9; 10; 13; 93; 34; 123; 91] -> c <> x).
  { intros x Hin ->. cbn [In] in Hin.
    repeat (destruct Hin as [<-|Hin]; [discriminate H|]). exact Hin. }
  unfold is_ws.
  repeat split;
    repeat match goal with
           | |- (_ || _) = false => apply orb_false_iff; split
           | |- (c =? ?x) = false => apply N.eqb_neq, Hbad; cbn; tauto
           end.
Qed.

Lemma intstr_head z :
  exists c t, intstr z = c :: t /\
    is_ws c = false /\ (c =? ord "]") = false /\
    (c =? QUOTE) = false /\ (c =? ord "{") = false /\ (c =? ord "[") = false.
Proof.
  assert (Hd : forall c, is_digit c = true ->
             is_ws c = false /\ (c =? ord "]") = false /\
             (c =? QUOTE) = false /\ (c =? ord "{") = false /\
             (c =? ord "[") = false).
  { unfold is_digit, is_ws. intros c H. apply andb_true_iff in H as [H1 H2].
    apply N.leb_le in H1, H2.
    change (ord "0") with 48 in H1. change (ord "9") with 57 in H2.
    repeat split;
      repeat match goal with
             | |- (_ || _) = false => apply orb_false_iff; split
             | |- (c =? ?x) = false =>
                 apply N.eqb_neq; intros ->; vm_compute in H1, H2;
                 solve [now apply H1 | now apply H2]
             end. }
  destruct z as [|p|p]; cbn [intstr Z.to_N].
  - exists (ord "0"), []. now repeat split.
  - destruct (digits_of_N_pos p) as (c & ds & -> & Hc & _).
    exists c, ds. split; [reflexivity|now apply Hd].
  - eexists _, _. split; [reflexivity|]. now repeat split.
Qed.

Lemma join_flat_map sep x l :
  join sep (x :: l) = x ++ flat_map (fun y => sep ++ y) l.
Proof.
  revert x. induction l as [|y l IH]; intros x.
  - cbn [join flat_map]. now rewrite List.app_nil_r.
  - change (join sep (x :: y :: l)) with (x ++ sep ++ join sep (y :: l)).
    cbn [flat_map]. now rewrite IH, <- !app_assoc.
Qed.

Lemma skip_ws_starts t r :
  starts_value t -> skip_ws (t ++ r) = t ++ r.
Proof.
  intros (c & t' & -> & Hc & _). cbn [app]. now apply skip_ws_non_ws.
Qed.

Section ReadBackLoops.

Variable scan : str -> res (pyval * str).

Lemma JSONArray_loop_read l :
  forall x acc fuel rest,
    (length l < fuel)%nat ->
    Forall (reads scan) (x :: l) ->
    JSONArray_loop scan fuel
      (iterencode x ++ flat_map (fun y => u ", " ++ y) (map iterencode l)
       ++ ord "]" :: rest) acc
    = Ok (PList (acc ++ map reread (x :: l)), rest).
Proof.
  induction l as [|y l IH]; intros x acc fuel rest Hf Hall;
    (destruct fuel as [|fuel]; [simpl in Hf; lia|]);
    apply Forall_cons_iff in Hall as [[_ Hx] Hall];
    cbn [JSONArray_loop map flat_map].
  - cbn [app]. rewrite Hx by reflexivity. cbn [res_bind].
    rewrite skip_ws_non_ws by reflexivity. reflexivity.
  - rewrite <- !app_assoc. cbn [u map list_ascii_of_string app].
    rewrite Hx by reflexivity. cbn [res_bind].
    rewrite skip_ws_non_ws by reflexivity.
    change (ord "," =? ord "]") with false.
    change (ord "," =? ord ",") with true. cbv iota.
    rewrite skip_ws_ws by reflexivity.
    pose proof Hall as Hall'. apply Forall_cons_iff in Hall' as [[Hy _] _].
    rewrite (skip_ws_starts _ _ Hy).
    specialize (IH y (acc ++ [reread x]) fuel rest).
    cbn [u map list_ascii_of_string app] in IH.
    rewrite IH; [|simpl in Hf; lia|assumption].
    now rewrite <- app_assoc.
Qed.

Lemma JSONObject_loop_read d :
  forall k v acc fuel rest,
    (length d < fuel)%nat ->
    Forall (fun kv => wf_str (fst kv) /\ reads scan (snd kv)) ((k, v) :: d) ->
    JSONObject_loop scan fuel
      (flat_map escape_char k ++ QUOTE :: u ": " ++ iterencode v
       ++ flat_map (fun m => u ", " ++ m)
            (map (fun kv => encode_basestring_ascii (fst kv)
                            ++ key_separator ++ iterencode (snd kv)) d)
       ++ ord "}" :: rest) acc
    = Ok (PDict (dict_of_pairs
                   (acc ++ map (fun kv => (fst kv, reread (snd kv))) ((k, v) :: d))),
          rest).
Proof.
  induction d as [|[k' v'] d IH]; intros k v acc fuel rest Hf Hall;
    (destruct fuel as [|fuel]; [simpl in Hf; lia|]);
    apply Forall_cons_iff in Hall as [[Hk [Hs Hv]] Hall];
    cbn [fst snd] in Hk, Hs, Hv;
    cbn [JSONObject_loop map flat_map];
    rewrite (scanstring_encode k _ Hk); cbn [res_bind];
    cbn [u map list_ascii_of_string app];
    rewrite skip_ws_non_ws by reflexivity;
    change (ord ":" =? ord ":") with true; cbv iota;
    rewrite skip_ws_ws by reflexivity.
  - rewrite (skip_ws_starts _ _ Hs).
    rewrite Hv by reflexivity. cbn [res_bind].
    rewrite skip_ws_non_ws by reflexivity. reflexivity.
  - rewrite (skip_ws_starts _ _ Hs).
    unfold encode_basestring_ascii, key_separator.
    rewrite <- !app_assoc. cbn [u map list_ascii_of_string app fst snd].
    rewrite <- !app_assoc. cbn [app].
    rewrite Hv by reflexivity. cbn [res_bind].
    rewrite skip_ws_non_ws by reflexivity.
    change (ord "," =? ord "}") with false.
    change (ord "," =? ord ",") with true. cbv iota.
    rewrite skip_ws_ws by reflexivity.
    rewrite skip_ws_non_ws by reflexivity.
    change (QUOTE =? QUOTE) with true. cbv iota.
    specialize (IH k' v' (acc ++ [(k, reread v)]) fuel rest).
    unfold encode_basestring_ascii, key_separator in IH.
    cbn [u map list_ascii_of_string app] in IH.
    rewrite IH; [|simpl in Hf; lia|assumption].
    now rewrite <- app_assoc.
Qed.

End ReadBackLoops.

Lemma dict_setitem_new d k v :
  ~ In k (map fst d) -> dict_setitem d k v = d ++ [(k, v)].
Proof.
  induction d as [|[k' v'] d IH]; cbn [dict_setitem map fst In app];
    [reflexivity|].
  intros H. destruct (str_eqb k' k) eqn:E.
  - apply str_eqb_eq in E. tauto.
  - rewrite IH; [reflexivity|tauto].
Qed.

(** [dict(pairs)] of pairs with distinct keys is the pairs in their order. *)
Lemma dict_of_pairs_id d : NoDup (map fst d) -> dict_of_pairs d = d.
Proof.
  unfold dict_of_pairs.
  assert (H : forall acc, NoDup (map fst (acc ++ d)) ->
             fold_left (fun d kv => dict_setitem d (fst kv) (snd kv)) d acc
             = acc ++ d).
  { induction d as [|[k v] d IH]; intros acc Hnd; cbn [fold_left fst snd].
    - now rewrite List.app_nil_r.
    - rewrite dict_setitem_new.
      + rewrite IH; rewrite <- app_assoc; [reflexivity|exact Hnd].
      + rewrite map_app in Hnd. cbn [map fst] in Hnd.
        apply NoDup_remove_2 in Hnd. intros Hin. apply Hnd.
        apply in_or_app. now left. }
  intros Hnd. exact (H [] Hnd).
Qed.

Lemma size_pos v : (1 <= size v)%nat.
Proof. destruct v; cbn [size]; lia. Qed.

Lemma list_sum_bounds {A} (f : A -> nat) l :
  (forall x, 1 <= f x)%nat ->
  (length l <= list_sum (map f l))%nat /\
  Forall (fun x => f x <= list_sum (map f l))%nat l.
Proof.
  intros Hf. induction l as [|x l [IH1 IH2]]; cbn [map list_sum length fold_right].
  all: change (fold_right Nat.add 0%nat) with list_sum in *.
  - split; [lia|constructor].
  - specialize (Hf x). split; [lia|]. constructor; [lia|].
    eapply Forall_impl; [|exact IH2]. cbn beta. intros; lia.
Qed.

Lemma JSONArray_start scan fuel t r :
  starts_value t ->
  JSONArray scan fuel (t ++ r) = JSONArray_loop scan fuel (t ++ r) [].
Proof.
  intros Hs. unfold JSONArray. rewrite (skip_ws_starts _ _ Hs).
  destruct Hs as (c & t' & -> & _ & Hc). cbn [app]. now rewrite Hc.
Qed.

Lemma map_fst_reread (d : list (str * pyval)) :
  map fst (map (fun kv => (fst kv, reread (snd kv))) d) = map fst d.
Proof. rewrite map_map. now apply map_ext. Qed.

(** With fuel above its size, [scan_once] reads the text of a value back,
    floats as [float(repr(f))]. *)
Lemma scan_once_reads v :
  wf_val v ->
  forall fuel, (size v < fuel)%nat -> reads (scan_once fuel) v.
Proof.
  induction v as [ |b|z|f|s|l IH|d IH] using pyval_ind_nested;
    intros Hwf fuel Hfuel;
    (destruct fuel as [|fuel]; [lia|]); cbn [size] in Hfuel.
  - split; [now exists (ord "n"), (u "ull")|]. intros r Hr. reflexivity.
  - split; [destruct b; [now exists (ord "t"), (u "rue")
                        |now exists (ord "f"), (u "alse")]|].
    intros r Hr. destruct b; reflexivity.
  - destruct (intstr_head z) as (c & t & E & H1 & H2 & H3 & H4 & H5).
    split; [exists c, t; cbn [iterencode]; now rewrite E|].
    intros r Hr. cbn [iterencode reread].
    pose proof (scan_atom_intstr z r Hr) as Hs. rewrite E in *. cbn [app] in *.
    now rewrite scan_once_atom.
  - destruct (float_head f) as (c & t & E & H1 & H2 & H3 & H4 & H5).
    split; [exists c, t; cbn [iterencode]; now rewrite E|].
    intros r Hr. cbn [iterencode reread].
    pose proof (float_scans f r Hr) as Hs. rewrite E in *. cbn [app] in *.
    now rewrite scan_once_atom.
  - inversion Hwf as [ | | | |s' Hs| | ]; subst.
    split; [now exists QUOTE, (flat_map escape_char s ++ [QUOTE])|].
    intros r Hr. cbn [iterencode reread]. unfold encode_basestring_ascii.
    cbn [app]. rewrite <- app_assoc. cbn [app].
    rewrite scan_once_string, (scanstring_encode s _ Hs). reflexivity.
  - inversion Hwf as [ | | | | |l' Hwl| ]; subst.
    split; [destruct l; [now exists (ord "["), (u "]")|eexists _, _; now split]|].
    intros r Hr.
    destruct l as [|x l]; [reflexivity|].
    change (iterencode (PList (x :: l)))
      with (ord "[" :: join item_separator (iterencode x :: map iterencode l)
              ++ [ord "]"]).
    change (reread (PList (x :: l))) with (PList (map reread (x :: l))).
    rewrite join_flat_map. cbn [app]. rewrite <- !app_assoc. cbn [app].
    rewrite scan_once_array.
    destruct (list_sum_bounds size (x :: l) size_pos) as [Hlen Hsizes].
    assert (Hreads : Forall (reads (scan_once fuel)) (x :: l)).
    { rewrite Forall_forall in *. intros y Hy.
      apply IH; auto. specialize (Hsizes y Hy). lia. }
    pose proof Hreads as Hx. apply Forall_cons_iff in Hx as [[Hx _] _].
    rewrite (JSONArray_start _ _ _ _ Hx).
    apply (JSONArray_loop_read (scan_once fuel) l x [] fuel r);
      [cbn [length] in Hlen; lia|assumption].
  - inversion Hwf as [ | | | | | |d' Hwd Hnd]; subst.
    split; [destruct d; [now exists (ord "{"), (u "}")|eexists _, _; now split]|].
    intros r Hr.
    destruct d as [|[k x] d]; [reflexivity|].
    change (iterencode (PDict ((k, x) :: d)))
      with (ord "{" ::
            join item_separator
              ((encode_basestring_ascii k ++ key_separator ++ iterencode x)
               :: map (fun kv => encode_basestring_ascii (fst kv)
                                 ++ key_separator ++ iterencode (snd kv)) d)
            ++ [ord "}"]).
    change (reread (PDict ((k, x) :: d)))
      with (PDict (map (fun kv => (fst kv, reread (snd kv))) ((k, x) :: d))).
    rewrite join_flat_map. cbn [app fst snd].
    unfold encode_basestring_ascii at 1. unfold key_separator at 1.
    rewrite <- !app_assoc. cbn [app]. rewrite <- !app_assoc. cbn [app].
    rewrite scan_once_object, JSONObject_quote.
    destruct (list_sum_bounds (fun kv => size (snd kv)) ((k, x) :: d)
                (fun kv => size_pos (snd kv))) as [Hlen Hsizes].
    assert (Hreads : Forall (fun kv => wf_str (fst kv) /\ reads (scan_once fuel) (snd kv))
                       ((k, x) :: d)).
    { rewrite Forall_forall in *. intros kv Hkv. split; [now apply Hwd|].
      apply IH; auto; [now apply Hwd|]. specialize (Hsizes kv Hkv).
      cbn beta in Hsizes. lia. }
    rewrite (JSONObject_loop_read _ d k x [] fuel r);
      [|cbn [length] in Hlen; lia|assumption].
    cbn [app]. rewrite dict_of_pairs_id; [reflexivity|].
    now rewrite map_fst_reread.
Qed.

Lemma join_length sep l :
  (list_sum (map (@length char) l) <= length (join sep l))%nat.
Proof.
  induction l as [|x l IH]; [cbn; lia|].
  destruct l as [|y l].
  - cbn. lia.
  - change (join sep (x :: y :: l)) with (x ++ sep ++ join sep (y :: l)).
    rewrite !length_app. cbn [map].
    change (length x + list_sum (map (@length char) (y :: l))
            <= length x + (length sep + length (join sep (y :: l))))%nat.
    lia.
Qed.

Lemma list_sum_le {A} (f g : A -> nat) l :
  Forall (fun x => f x <= g x)%nat l ->
  (list_sum (map f l) <= list_sum (map g l))%nat.
Proof.
  induction 1 as [|x l Hx _ IH]; cbn [map]; [apply Nat.le_refl|].
  change (f x + list_sum (map f l) <= g x + list_sum (map g l))%nat.
  cbn beta in Hx. lia.
Qed.

(** The text of a value is at least as long as the value has nodes. *)
Lemma size_le_length v :
  wf_val v -> (size v <= length (iterencode v))%nat.
Proof.
  induction v as [ |b|z|f|s|l IH|d IH] using pyval_ind_nested;
    intros Hwf.
  1-5: destruct (scan_once_reads _ Hwf 2) as [(c & t & E & _) _];
       [cbn [size]; lia|rewrite E; cbn [size length]; lia].
  - inversion Hwf as [ | | | | |l' Hwl| ]; subst.
    destruct l as [|x l]; [cbn; lia|].
    change (iterencode (PList (x :: l)))
      with (ord "[" :: join item_separator (map iterencode (x :: l))
              ++ [ord "]"]).
    cbn [size length]. rewrite length_app. cbn [length].
    pose proof (join_length item_separator (map iterencode (x :: l))) as Hj.
    rewrite map_map in Hj.
    assert (Hle : (list_sum (map size (x :: l))
                   <= list_sum (map (fun v => length (iterencode v)) (x :: l)))%nat).
    { apply list_sum_le. rewrite Forall_forall in *. auto. }
    lia.
  - inversion Hwf as [ | | | | | |d' Hwd Hnd]; subst.
    destruct d as [|kx d]; [cbn; lia|].
    change (iterencode (PDict (kx :: d)))
      with (ord "{" ::
            join item_separator
              (map (fun kv => encode_basestring_ascii (fst kv)
                              ++ key_separator ++ iterencode (snd kv)) (kx :: d))
            ++ [ord "}"]).
    cbn [size length]. rewrite length_app. cbn [length].
    match goal with |- context [join ?sep ?l] =>
      pose proof (join_length sep l) as Hj end.
    rewrite map_map in Hj.
    match type of Hj with (list_sum (map ?g _) <= _)%nat =>
      assert (Hle : (list_sum (map (fun kv => size (snd kv)) (kx :: d))
                     <= list_sum (map g (kx :: d)))%nat) end.
    { apply list_sum_le. rewrite Forall_forall in *. intros kv Hkv.
      rewrite !length_app.
      specialize (IH kv Hkv (proj2 (Hwd kv Hkv))). lia. }
    lia.
Qed.

(** [json.loads(json.dumps(v) + w)] for white space [w]: the value [v] with
    its floats read again. *)
Lemma loads_dumps_reread v w :
  wf_val v -> Forall (fun c => is_ws c = true) w ->
  loads (dumps v ++ w) = Ok (reread v).
Proof.
  intros Hwf Hw. unfold dumps.
  pose proof (size_le_length v Hwf) as Hsize.
  assert (Hfuel : (size v < S (length (iterencode v ++ w)))%nat)
    by (rewrite length_app; lia).
  destruct (scan_once_reads v Hwf _ Hfuel) as [Hs Hscan].
  assert (Hd : delimited w = true).
  { destruct Hw as [|c w Hc _]; [reflexivity|].
    cbn [delimited]. unfold is_delimiter. now rewrite Hc. }
  specialize (Hscan w Hd).
  assert (Hdec : decode (iterencode v ++ w) = Ok (reread v)).
  { unfold decode. rewrite (skip_ws_starts _ _ Hs), Hscan.
    cbn [res_bind]. now rewrite (skip_ws_all w Hw). }
  unfold loads. destruct Hs as (c & t & E & Hc & _).
  rewrite E in *. cbn [app] in *.
  destruct (c =? 0xfeff) eqn:Ef; [|exact Hdec].
  apply N.eqb_eq in Ef. subst c.
  pose proof (all_printable_ascii _ (dumps_printable v)) as Ha.
  unfold dumps in Ha. rewrite E in Ha.
  apply Forall_cons_iff in Ha as [Ha _]. lia.
Qed.

Lemma map_id_in {A} (f : A -> A) l :
  Forall (fun x => f x = x) l -> map f l = l.
Proof. induction 1 as [|x l Hx _ IH]; cbn [map]; congruence. Qed.

(** A value whose floats read back is read again as itself. *)
Lemma reads_back_reread v : reads_back v -> reread v = v.
Proof.
  induction v as [ |b|z|f|s|l IH|d IH] using pyval_ind_nested;
    intros Hrb; try reflexivity.
  - inversion Hrb as [ | | |f' Hf| | | ]; subst.
    cbn [reread]. now rewrite float_reads_back_reread.
  - inversion Hrb as [ | | | | |l' Hrl| ]; subst.
    change (reread (PList l)) with (PList (map reread l)).
    f_equal. apply map_id_in. rewrite Forall_forall in *. auto.
  - inversion Hrb as [ | | | | | |d' Hrd]; subst.
    change (reread (PDict d))
      with (PDict (map (fun kv => (fst kv, reread (snd kv))) d)).
    f_equal. apply map_id_in. rewrite Forall_forall in *.
    intros [k x] Hkv. cbn [fst snd]. f_equal. now apply (IH (k, x)), (Hrd (k, x)).
Qed.

(** [json.loads(json.dumps(v) + w) == v] for white space [w]. *)
Lemma loads_dumps v w :
  wf_val v -> reads_back v -> Forall (fun c => is_ws c = true) w ->
  loads (dumps v ++ w) = Ok v.
Proof.
  intros Hwf Hrb Hw. rewrite (loads_dumps_reread v w Hwf Hw).
  now rewrite reads_back_reread.
Qed.

Lemma reads_back_result v : reads_back v -> reads_back (result_of v).
Proof. intros H. constructor. repeat constructor. exact H. Qed.

Lemma wf_val_result v : wf_val v -> wf_val (result_of v).
Proof.
  intros H. constructor.
  - constructor; [|constructor]. cbn [fst snd]. split; [|exact H].
    split; [now repeat constructor|reflexivity].
  - cbn [map fst]. constructor; [intros []|constructor].
Qed.

Lemma wf_val_prompt text d :
  scalar_text text -> loads text = Ok (PDict d) -> wf_val (prompt_of d).
Proof.
  intros Ht Hl. pose proof (loads_wf _ _ Hl Ht) as Hwf.
  inversion Hwf as [ | | | | | |d' Hd Hnd]; subst.
  unfold prompt_of. destruct (dict_get d (u "prompt")) eqn:Hget.
  - exact (dict_get_Forall _ wf_val _ _ _ Hd Hget).
  - constructor. split; [constructor|reflexivity].
Qed.

(** ** Whitespace after the text *)

Lemma ws_cases c : is_ws c = true -> c = 32 \/ c = 9 \/ c = 10 \/ c = 13.
Proof.
  unfold is_ws. intros H.
  repeat (apply orb_true_iff in H as [H|H]); apply N.eqb_eq in H; subst; auto.
Qed.

Lemma ws_not_special c :
  is_ws c = true ->
  (c =? QUOTE) = false /\ (c =? BSLASH) = false /\ (c =? ord "u") = false /\
  BACKSLASH c = None /\ hex_value c = None /\ is_digit c = false.
Proof.
  intros H. apply ws_cases in H as [->|[->|[->| ->]]]; repeat split; reflexivity.
Qed.

Lemma decode_uXXXX_none a b c d :
  hex_value a = None \/ hex_value b = None \/
  hex_value c = None \/ hex_value d = None ->
  decode_uXXXX a b c d = None.
Proof.
  unfold decode_uXXXX. intros [H|[H|[H|H]]]; rewrite H;
    repeat (destruct (hex_value _)); reflexivity.
Qed.

Lemma rest_app_cons_chr w c r :
  rest_app w (cons_chr c r) = cons_chr c (rest_app w r).
Proof. destruct r as [[v t]|e|]; reflexivity. Qed.

Lemma low_escape_follows_app_other body x rest :
  (x =? BSLASH) = false -> (x =? ord "u") = false -> hex_value x = None ->
  low_escape_follows (body ++ x :: rest) = low_escape_follows body.
Proof.
  intros Hb Hu Hx.
  destruct body as [|b1 [|b2 [|l1 [|l2 [|l3 [|l4 body]]]]]];
    try reflexivity; cbn [app low_escape_follows].
  - destruct rest as [|? [|? [|? [|? [|? ?]]]]]; try reflexivity.
    now rewrite Hb.
  - destruct rest as [|? [|? [|? [|? ?]]]]; try reflexivity.
    now rewrite Hu, andb_false_r.
  - destruct rest as [|? [|? [|? ?]]]; try reflexivity.
    rewrite decode_uXXXX_none by auto. apply andb_false_r.
  - destruct rest as [|? [|? ?]]; try reflexivity.
    rewrite decode_uXXXX_none by auto. apply andb_false_r.
  - destruct rest as [|? ?]; try reflexivity.
    rewrite decode_uXXXX_none by auto. apply andb_false_r.
  - rewrite decode_uXXXX_none by auto. apply andb_false_r.
Qed.

Lemma low_escape_follows_blank s w :
  blank w -> low_escape_follows (s ++ w) = low_escape_follows s.
Proof.
  intros Hw. destruct Hw as [|x w Hx _]; [now rewrite List.app_nil_r|].
  apply ws_not_special in Hx as (_ & Hb & Hu & _ & Hh & _).
  now apply low_escape_follows_app_other.
Qed.

Lemma scanstring_blank w : blank w -> scanstring w = Raise JSONDecodeError.
Proof.
  induction 1 as [|c w Hc _ IH]; [reflexivity|].
  apply ws_cases in Hc as [->|[->|[->| ->]]]; try reflexivity.
  rewrite scanstring_plain by (try discriminate; lia). now rewrite IH.
Qed.

Lemma scanstring_ws w :
  blank w ->
  forall n t, (length t <= n)%nat ->
    scanstring (t ++ w) = rest_app w (scanstring t).
Proof.
  intros Hw. induction n as [|n IH]; intros t Hlen;
    (destruct t as [|c s1]; [cbn [app]; now rewrite scanstring_blank|]);
    cbn [length] in Hlen; [lia|].
  cbn [app].
  destruct (c =? QUOTE) eqn:Hq.
  { rewrite !scanstring_cons, Hq. reflexivity. }
  destruct (c =? BSLASH) eqn:Hb.
  - apply N.eqb_eq in Hb; subst c.
    destruct s1 as [|esc s2].
    { destruct Hw as [|x w Hx _]; [reflexivity|].
      apply ws_not_special in Hx as (_ & _ & Hu & He & _).
      cbn [app]. rewrite scanstring_cons.
      change (BSLASH =? QUOTE) with false. change (BSLASH =? BSLASH) with true.
      cbv iota. now rewrite Hu, He. }
    cbn [app]. simpl in Hlen.
    destruct (esc =? ord "u") eqn:Hu.
    + apply N.eqb_eq in Hu; subst esc.
      assert (Hshort : forall s,
                (length s < 4)%nat ->
                scanstring (BSLASH :: ord "u" :: s ++ w) = Raise JSONDecodeError).
      { intros s Hs. rewrite scanstring_cons.
        change (BSLASH =? QUOTE) with false. change (BSLASH =? BSLASH) with true.
        change (ord "u" =? ord "u") with true. cbv iota.
        assert (Hh : forall x, In x w -> hex_value x = None).
        { intros x Hx. unfold blank in Hw. rewrite Forall_forall in Hw.
          now apply ws_not_special, Hw. }
        destruct s as [|h1 [|h2 [|h3 [|h4 s]]]]; [| | | |simpl in Hs; lia];
          cbn [app].
        - destruct w as [|a [|b [|c [|d w']]]]; try reflexivity.
          rewrite decode_uXXXX_none; [reflexivity|]. left. apply Hh. now left.
        - destruct w as [|a [|b [|c w']]]; try reflexivity.
          rewrite decode_uXXXX_none; [reflexivity|]. right; left.
          apply Hh. now left.
        - destruct w as [|a [|b w']]; try reflexivity.
          rewrite decode_uXXXX_none; [reflexivity|]. right; right; left.
          apply Hh. now left.
        - destruct w as [|a w']; try reflexivity.
          rewrite decode_uXXXX_none; [reflexivity|]. right; right; right.
          apply Hh. now left. }
      destruct s2 as [|h1 [|h2 [|h3 [|h4 s3]]]];
        try (rewrite (Hshort _) by (simpl; lia); reflexivity).
      cbn [app]. simpl in Hlen.
      destruct (decode_uXXXX h1 h2 h3 h4) as [uni|] eqn:Hd.
      2:{ rewrite !scanstring_cons.
          change (BSLASH =? QUOTE) with false. change (BSLASH =? BSLASH) with true.
          change (ord "u" =? ord "u") with true. cbv iota. now rewrite Hd. }
      destruct (is_high_surrogate uni && low_escape_follows s3) eqn:Hno.
      * apply andb_true_iff in Hno as [Hh Hlow].
        apply low_escape_follows_inv in Hlow
          as (l1 & l2 & l3 & l4 & t' & lo & -> & Hd2 & Hl).
        cbn [app]. rewrite !(scanstring_pair _ _ _ _ _ _ _ _ _ _ _ Hd Hh Hd2 Hl).
        rewrite rest_app_cons_chr. f_equal. apply IH. simpl in Hlen. lia.
      * rewrite !(scanstring_unicode _ _ _ _ _ _ Hd);
          [|assumption|now rewrite low_escape_follows_blank].
        rewrite rest_app_cons_chr. f_equal. apply IH. lia.
    + destruct (BACKSLASH esc) as [ch|] eqn:He.
      * rewrite !(scanstring_escape _ _ _ He), rest_app_cons_chr.
        f_equal. apply IH. lia.
      * rewrite !scanstring_cons.
        change (BSLASH =? QUOTE) with false. change (BSLASH =? BSLASH) with true.
        cbv iota. now rewrite Hu, He.
  - destruct (c <? 32) eqn:Hc.
    + rewrite !scanstring_cons, Hq, Hb, Hc. reflexivity.
    + rewrite !scanstring_cons, Hq, Hb, Hc, rest_app_cons_chr.
      f_equal. apply IH. lia.
Qed.

Lemma skip_ws_blank_l w s : blank w -> skip_ws (w ++ s) = skip_ws s.
Proof.
  induction 1 as [|c w Hc _ IH]; [reflexivity|].
  cbn [app skip_ws]. now rewrite Hc.
Qed.

Lemma skip_ws_blank_r t w :
  blank w ->
  skip_ws (t ++ w) = match skip_ws t with [] => [] | _ :: _ => skip_ws t ++ w end.
Proof.
  intros Hw. induction t as [|c t IH]; cbn [app skip_ws].
  - now apply skip_ws_all.
  - destruct (is_ws c); [exact IH|reflexivity].
Qed.

Lemma strip_prefix_ws p w t :
  Forall (fun x => is_ws x = false) p -> blank w ->
  strip_prefix p (t ++ w) = option_map (fun r => r ++ w) (strip_prefix p t).
Proof.
  intros Hp Hw. revert t.
  induction Hp as [|x p Hx _ IH]; intros t; cbn [strip_prefix]; [reflexivity|].
  destruct t as [|y t]; cbn [app].
  - destruct Hw as [|y w Hy _]; [reflexivity|].
    destruct (x =? y) eqn:E; [|reflexivity].
    apply N.eqb_eq in E. congruence.
  - destruct (x =? y); [apply IH|reflexivity].
Qed.

Lemma span_digits_ws t w :
  blank w ->
  span_digits (t ++ w) = (fst (span_digits t), snd (span_digits t) ++ w).
Proof.
  intros Hw. induction t as [|c t IH]; cbn [app span_digits].
  - destruct Hw as [|x w Hx _]; [reflexivity|].
    apply ws_not_special in Hx as (_ & _ & _ & _ & _ & Hd).
    cbn [span_digits]. now rewrite Hd.
  - destruct (is_digit c); [|reflexivity].
    rewrite IH. now destruct (span_digits t).
Qed.

Lemma match_frac_ws s w :
  blank w ->
  match_frac (s ++ w) = (fst (match_frac s), snd (match_frac s) ++ w).
Proof.
  intros Hw. destruct s as [|c s]; cbn [app].
  - destruct Hw as [|x w Hx _]; [reflexivity|].
    apply ws_cases in Hx as [->|[->|[->| ->]]]; reflexivity.
  - cbn [match_frac]. destruct (c =? ord "."); [|reflexivity].
    rewrite (span_digits_ws _ _ Hw).
    destruct (span_digits s) as [[|d ds] r]; reflexivity.
Qed.

Lemma match_exp_ws s w :
  blank w ->
  match_exp (s ++ w) = (fst (match_exp s), snd (match_exp s) ++ w).
Proof.
  intros Hw. destruct s as [|c s]; cbn [app].
  - destruct Hw as [|x w Hx _]; [reflexivity|].
    apply ws_cases in Hx as [->|[->|[->| ->]]]; reflexivity.
  - cbn [match_exp]. destruct ((c =? ord "e") || (c =? ord "E")); [|reflexivity].
    destruct s as [|sg t]; cbn [app].
    + destruct Hw as [|x w Hx _]; [reflexivity|].
      apply ws_cases in Hx as [->|[->|[->| ->]]]; reflexivity.
    + destruct (sg =? ord "-").
      * rewrite (span_digits_ws _ _ Hw).
        destruct (span_digits t) as [[|d ds] r]; reflexivity.
      * destruct (sg =? ord "+").
        -- rewrite (span_digits_ws _ _ Hw).
           destruct (span_digits t) as [[|d ds] r]; reflexivity.
        -- change (sg :: t ++ w) with ((sg :: t) ++ w).
           rewrite (span_digits_ws _ _ Hw).
           destruct (span_digits (sg :: t)) as [[|d ds] r]; reflexivity.
Qed.

Lemma match_number_ws s w :
  blank w ->
  match_number (s ++ w)
  = option_map (fun mr => (fst mr, snd mr ++ w)) (match_number s).
Proof.
  intros Hw.
  assert (Hdig : forall neg c s2,
    (if is_digit c
     then let (ds, s3) := if c =? ord "0" then ([], s2 ++ w)
                          else span_digits (s2 ++ w) in
          let (frac, s4) := match_frac s3 in
          let (exp, s5) := match_exp s4 in
          Some ({| nm_neg := neg; nm_int := c :: ds;
                   nm_frac := frac; nm_exp := exp |}, s5)
     else None)
    = option_map (fun mr => (fst mr, snd mr ++ w))
        (if is_digit c
         then let (ds, s3) := if c =? ord "0" then ([], s2)
                              else span_digits s2 in
              let (frac, s4) := match_frac s3 in
              let (exp, s5) := match_exp s4 in
              Some ({| nm_neg := neg; nm_int := c :: ds;
                       nm_frac := frac; nm_exp := exp |}, s5)
         else None)).
  { intros neg c s2. destruct (is_digit c); [|reflexivity].
    assert (E : (if c =? ord "0" then ([], s2 ++ w) else span_digits (s2 ++ w))
                = (fst (if c =? ord "0" then ([], s2) else span_digits s2),
                   snd (if c =? ord "0" then ([], s2) else span_digits s2) ++ w)).
    { destruct (c =? ord "0"); [reflexivity|apply (span_digits_ws _ _ Hw)]. }
    rewrite E.
    destruct (if c =? ord "0" then ([], s2) else span_digits s2) as [ds s3].
    cbn [fst snd]. rewrite (match_frac_ws _ _ Hw).
    destruct (match_frac s3) as [frac s4]. cbn [fst snd].
    rewrite (match_exp_ws _ _ Hw).
    destruct (match_exp s4) as [exp s5]. reflexivity. }
  assert (Hnil : match_number w = None).
  { destruct Hw as [|x w Hx _]; [reflexivity|].
    apply ws_cases in Hx as [->|[->|[->| ->]]]; reflexivity. }
  destruct s as [|c s]; [exact Hnil|].
  cbn [app]. unfold match_number.
  destruct (c =? ord "-").
  - destruct s as [|c' s2]; cbn [app].
    + destruct Hw as [|x w Hx _]; [reflexivity|].
      apply ws_not_special in Hx as (_ & _ & _ & _ & _ & Hd). now rewrite Hd.
    + apply (Hdig true).
  - apply (Hdig false).
Qed.

Lemma scan_atom_ws s w :
  blank w -> scan_atom (s ++ w) = rest_app w (scan_atom s).
Proof.
  intros Hw. unfold scan_atom.
  rewrite !(fun p H => strip_prefix_ws p w s H Hw) by (repeat constructor).
  rewrite (match_number_ws _ _ Hw).
  destruct (strip_prefix (u "null") s); [reflexivity|].
  destruct (strip_prefix (u "true") s); [reflexivity|].
  destruct (strip_prefix (u "false") s); [reflexivity|].
  destruct (match_number s) as [[m r]|]; [reflexivity|].
  destruct (strip_prefix (u "NaN") s); [reflexivity|].
  destruct (strip_prefix (u "Infinity") s); [reflexivity|].
  destruct (strip_prefix (u "-Infinity") s); reflexivity.
Qed.

Section BlankAfterContainers.

Variable scan : str -> res (pyval * str).
Variable w : str.
Hypothesis Hw : blank w.
Hypothesis scan_ws : forall s, scan (s ++ w) = rest_app w (scan s).
Hypothesis scan_nil : forall v r, scan [] <> Ok (v, r).

Lemma scan_nil_ws : scan [] = rest_app w (scan []).
Proof.
  pose proof scan_nil as Hn.
  destruct (scan []) as [[v r]|e|]; [|reflexivity|reflexivity].
  now elim (Hn v r).
Qed.

Lemma JSONArray_loop_nil fuel acc :
  JSONArray_loop scan fuel [] acc = rest_app w (JSONArray_loop scan fuel [] acc).
Proof.
  destruct fuel as [|fuel]; [reflexivity|]. cbn [JSONArray_loop].
  pose proof scan_nil as Hn.
  destruct (scan []) as [[v r]|e|]; [|reflexivity|reflexivity].
  now elim (Hn v r).
Qed.

Lemma JSONArray_loop_ws fuel :
  forall s acc,
    JSONArray_loop scan fuel (s ++ w) acc
    = rest_app w (JSONArray_loop scan fuel s acc).
Proof.
  induction fuel as [|fuel IH]; intros s acc; [reflexivity|].
  cbn [JSONArray_loop]. rewrite scan_ws.
  destruct (scan s) as [[v s1]|e|]; [|reflexivity|reflexivity].
  cbn [rest_app res_map res_bind fst snd].
  rewrite (skip_ws_blank_r _ _ Hw).
  destruct (skip_ws s1) as [|c s2]; [reflexivity|]. cbn [app].
  destruct (c =? ord "]"); [reflexivity|].
  destruct (c =? ord ","); [|reflexivity].
  rewrite (skip_ws_blank_r _ _ Hw).
  destruct (skip_ws s2) as [|c' s3] eqn:E; [apply JSONArray_loop_nil|].
  apply IH.
Qed.

Lemma JSONArray_ws fuel s :
  JSONArray scan fuel (s ++ w) = rest_app w (JSONArray scan fuel s).
Proof.
  unfold JSONArray. rewrite (skip_ws_blank_r _ _ Hw).
  destruct (skip_ws s) as [|c s1]; [apply JSONArray_loop_nil|].
  cbn [app]. destruct (c =? ord "]"); [reflexivity|].
  apply (JSONArray_loop_ws fuel (c :: s1)).
Qed.

Lemma JSONObject_loop_ws fuel :
  forall s acc,
    JSONObject_loop scan fuel (s ++ w) acc
    = rest_app w (JSONObject_loop scan fuel s acc).
Proof.
  induction fuel as [|fuel IH]; intros s acc; [reflexivity|].
  cbn [JSONObject_loop]. rewrite (scanstring_ws w Hw (length s) s (le_n _)).
  destruct (scanstring s) as [[key s1]|e|]; [|reflexivity|reflexivity].
  cbn [rest_app res_map res_bind fst snd].
  rewrite (skip_ws_blank_r _ _ Hw).
  destruct (skip_ws s1) as [|colon s2]; [reflexivity|]. cbn [app].
  destruct (colon =? ord ":"); [|reflexivity].
  assert (Hv : scan (skip_ws (s2 ++ w)) = rest_app w (scan (skip_ws s2))).
  { rewrite (skip_ws_blank_r _ _ Hw).
    destruct (skip_ws s2); [apply scan_nil_ws|apply scan_ws]. }
  rewrite Hv.
  destruct (scan (skip_ws s2)) as [[v s3]|e|]; [|reflexivity|reflexivity].
  cbn [rest_app res_map res_bind fst snd].
  rewrite (skip_ws_blank_r _ _ Hw).
  destruct (skip_ws s3) as [|c s4]; [reflexivity|]. cbn [app].
  destruct (c =? ord "}"); [reflexivity|].
  destruct (c =? ord ","); [|reflexivity].
  rewrite (skip_ws_blank_r _ _ Hw).
  destruct (skip_ws s4) as [|q s5]; [reflexivity|]. cbn [app].
  destruct (q =? QUOTE); [apply IH|reflexivity].
Qed.

Lemma JSONObject_ws fuel s :
  JSONObject scan fuel (s ++ w) = rest_app w (JSONObject scan fuel s).
Proof.
  unfold JSONObject. rewrite (skip_ws_blank_r _ _ Hw).
  destruct (skip_ws s) as [|c s1]; [reflexivity|]. cbn [app].
  destruct (c =? QUOTE); [apply JSONObject_loop_ws|].
  destruct (c =? ord "}"); reflexivity.
Qed.

End BlankAfterContainers.

Lemma scan_once_nil fuel v r : scan_once fuel [] <> Ok (v, r).
Proof. destruct fuel; discriminate. Qed.

(** Whitespace added after the text is left over by the scanner and
    changes nothing else, whatever the scanner answers. *)
Lemma scan_once_ws w fuel :
  blank w -> forall s, scan_once fuel (s ++ w) = rest_app w (scan_once fuel s).
Proof.
  intros Hw. induction fuel as [|fuel IH]; intros s; [reflexivity|].
  destruct s as [|c s'].
  - cbn [app]. change (scan_once (S fuel) []) with (scan_atom []).
    rewrite <- (scan_atom_ws [] w Hw). cbn [app].
    destruct Hw as [|x w Hx _]; [reflexivity|].
    cbn [scan_once].
    apply ws_cases in Hx as [->|[->|[->| ->]]]; reflexivity.
  - cbn [app scan_once].
    destruct (c =? QUOTE).
    { rewrite (scanstring_ws w Hw (length s') s' (le_n _)).
      now destruct (scanstring s') as [[v r]|e|]. }
    destruct (c =? ord "{").
    { apply JSONObject_ws; [assumption|exact IH|apply scan_once_nil]. }
    destruct (c =? ord "[").
    { apply JSONArray_ws; [assumption|exact IH|apply scan_once_nil]. }
    apply (scan_atom_ws (c :: s') w Hw).
Qed.

(** ** More fuel changes nothing *)

Section MoreFuel.

Variables scan1 scan2 : str -> res (pyval * str).
Hypothesis scan_mono : forall s, scan1 s <> OutOfFuel -> scan2 s = scan1 s.

Lemma JSONArray_loop_mono fuel :
  forall s acc,
    JSONArray_loop scan1 fuel s acc <> OutOfFuel ->
    JSONArray_loop scan2 (S fuel) s acc = JSONArray_loop scan1 fuel s acc.
Proof.
  induction fuel as [|fuel IH]; intros s acc H; [now elim H|].
  cbn [JSONArray_loop] in H.
  change (JSONArray_loop scan2 (S (S fuel)) s acc)
    with (res_bind (scan2 s) (fun x => let (value, s1) := x in
            match skip_ws s1 with
            | [] => Raise JSONDecodeError
            | nextchar :: s2 =>
                if nextchar =? ord "]" then Ok (PList (acc ++ [value]), s2)
                else if nextchar =? ord ","
                then JSONArray_loop scan2 (S fuel) (skip_ws s2) (acc ++ [value])
                else Raise JSONDecodeError
            end)).
  cbn [JSONArray_loop].
  rewrite scan_mono by (intros E; rewrite E in H; now elim H).
  destruct (scan1 s) as [[v s1]|e|]; [|reflexivity|reflexivity].
  cbn [res_bind] in *.
  destruct (skip_ws s1) as [|c s2]; [reflexivity|].
  destruct (c =? ord "]"); [reflexivity|].
  destruct (c =? ord ","); [|reflexivity].
  now apply IH.
Qed.

Lemma JSONArray_mono fuel s :
  JSONArray scan1 fuel s <> OutOfFuel ->
  JSONArray scan2 (S fuel) s = JSONArray scan1 fuel s.
Proof.
  unfold JSONArray. destruct (skip_ws s) as [|c s1].
  - apply JSONArray_loop_mono.
  - destruct (c =? ord "]"); [reflexivity|apply JSONArray_loop_mono].
Qed.

Lemma JSONObject_loop_mono fuel :
  forall s acc,
    JSONObject_loop scan1 fuel s acc <> OutOfFuel ->
    JSONObject_loop scan2 (S fuel) s acc = JSONObject_loop scan1 fuel s acc.
Proof.
  induction fuel as [|fuel IH]; intros s acc H; [now elim H|].
  cbn [JSONObject_loop] in H.
  change (JSONObject_loop scan2 (S (S fuel)) s acc)
    with (res_bind (scanstring s) (fun x => let (key, s1) := x in
      match skip_ws s1 with
      | [] => Raise JSONDecodeError
      | colon :: s2 =>
          if colon =? ord ":" then
            res_bind (scan2 (skip_ws s2)) (fun y => let (value, s3) := y in
            match skip_ws s3 with
            | [] => Raise JSONDecodeError
            | nextchar :: s4 =>
                if nextchar =? ord "}"
                then Ok (PDict (dict_of_pairs (acc ++ [(key, value)])), s4)
                else if nextchar =? ord "," then
                  match skip_ws s4 with
                  | [] => Raise JSONDecodeError
                  | q :: s5 =>
                      if q =? QUOTE
                      then JSONObject_loop scan2 (S fuel) s5 (acc ++ [(key, value)])
                      else Raise JSONDecodeError
                  end
                else Raise JSONDecodeError
            end)
          else Raise JSONDecodeError
      end)).
  cbn [JSONObject_loop].
  destruct (scanstring s) as [[key s1]|e|]; [|reflexivity|reflexivity].
  cbn [res_bind] in *.
  destruct (skip_ws s1) as [|colon s2]; [reflexivity|].
  destruct (colon =? ord ":"); [|reflexivity].
  rewrite scan_mono by (intros E; rewrite E in H; now elim H).
  destruct (scan1 (skip_ws s2)) as [[v s3]|e|]; [|reflexivity|reflexivity].
  cbn [res_bind] in *.
  destruct (skip_ws s3) as [|c s4]; [reflexivity|].
  destruct (c =? ord "}"); [reflexivity|].
  destruct (c =? ord ","); [|reflexivity].
  destruct (skip_ws s4) as [|q s5]; [reflexivity|].
  destruct (q =? QUOTE); [now apply IH|reflexivity].
Qed.

Lemma JSONObject_mono fuel s :
  JSONObject scan1 fuel s <> OutOfFuel ->
  JSONObject scan2 (S fuel) s = JSONObject scan1 fuel s.
Proof.
  unfold JSONObject. destruct (skip_ws s) as [|c s1]; [reflexivity|].
  destruct (c =? QUOTE); [apply JSONObject_loop_mono|reflexivity].
Qed.

End MoreFuel.

Lemma scan_once_mono fuel :
  forall s, scan_once fuel s <> OutOfFuel ->
            scan_once (S fuel) s = scan_once fuel s.
Proof.
  induction fuel as [|fuel IH]; intros s H; [now elim H|].
  change (scan_once (S (S fuel)) s)
    with (match s with
          | [] => Raise JSONDecodeError
          | nextchar :: s' =>
              if nextchar =? QUOTE then
                res_bind (scanstring s') (fun x => let (v, r) := x in Ok (PStr v, r))
              else if nextchar =? ord "{" then
                JSONObject (scan_once (S fuel)) (S fuel) s'
              else if nextchar =? ord "[" then
                JSONArray (scan_once (S fuel)) (S fuel) s'
              else scan_atom s
          end).
  cbn [scan_once] in *.
  destruct s as [|c s']; [reflexivity|].
  destruct (c =? QUOTE); [reflexivity|].
  destruct (c =? ord "{"); [now apply JSONObject_mono|].
  destruct (c =? ord "["); [now apply JSONArray_mono|reflexivity].
Qed.

Lemma scan_once_more fuel k s :
  scan_once fuel s <> OutOfFuel ->
  scan_once (k + fuel) s = scan_once fuel s.
Proof.
  intros H. induction k as [|k IH]; [reflexivity|].
  cbn [Nat.add]. rewrite scan_once_mono; [exact IH|]. now rewrite IH.
Qed.

Lemma skip_ws_length s : (length (skip_ws s) <= length s)%nat.
Proof.
  induction s as [|c s IH]; [apply Nat.le_refl|]. cbn [skip_ws].
  destruct (is_ws c); cbn [length]; lia.
Qed.

Lemma scan_once_enough s k :
  scan_once (k + S (length s)) (skip_ws s) = scan_once (S (length s)) (skip_ws s).
Proof.
  apply scan_once_more. intros E.
  pose proof (scan_once_post (S (length s)) (skip_ws s)) as H.
  rewrite E in H. apply H. pose proof (skip_ws_length s). lia.
Qed.

(** [json.loads] answers the same with whitespace before and after the
    text. *)
Lemma decode_blank w1 w2 t :
  blank w1 -> blank w2 -> decode (w1 ++ t ++ w2) = decode t.
Proof.
  intros H1 H2. unfold decode.
  rewrite (skip_ws_blank_l _ _ H1), (skip_ws_blank_r _ _ H2).
  assert (Hfuel : S (length (w1 ++ t ++ w2))
                  = (length w1 + length w2 + S (length t))%nat).
  { rewrite !length_app. lia. }
  rewrite Hfuel.
  destruct (skip_ws t) as [|c t'] eqn:Et.
  - rewrite Nat.add_succ_r. reflexivity.
  - rewrite <- Et. rewrite (scan_once_ws w2 _ H2).
    rewrite scan_once_enough.
    destruct (scan_once (S (length t)) (skip_ws t)) as [[v r]|e|];
      [|reflexivity|reflexivity].
    cbn [rest_app res_map res_bind fst snd].
    rewrite (skip_ws_blank_r _ _ H2).
    now destruct (skip_ws r).
Qed.

Lemma decode_bom t : decode (0xfeff :: t) = Raise JSONDecodeError.
Proof. unfold decode. reflexivity. Qed.

Lemma loads_decode t : loads t = decode t.
Proof.
  destruct t as [|c t]; [reflexivity|]. cbn [loads].
  destruct (c =? 0xfeff) eqn:E; [|reflexivity].
  apply N.eqb_eq in E. subst c. now rewrite decode_bom.
Qed.

Lemma loads_blank w1 w2 t :
  blank w1 -> blank w2 -> loads (w1 ++ t ++ w2) = loads t.
Proof. intros H1 H2. rewrite !loads_decode. now apply decode_blank. Qed.

(** ** A literal body followed by other text *)

Lemma low_escape_follows_head b1 r :
  (b1 =? BSLASH) = false -> low_escape_follows (b1 :: r) = false.
Proof.
  intros H. destruct r as [|? [|? [|? [|? [|? ?]]]]]; try reflexivity.
  cbn [low_escape_follows]. now rewrite H.
Qed.

Lemma low_escape_follows_second b1 b2 r :
  (b2 =? ord "u") = false -> low_escape_follows (b1 :: b2 :: r) = false.
Proof.
  intros H. destruct r as [|? [|? [|? [|? ?]]]]; try reflexivity.
  cbn [low_escape_follows]. now rewrite H, andb_false_r.
Qed.

Lemma string_body_low body s t :
  string_body body s -> body <> [] ->
  low_escape_follows (body ++ t) = low_escape_follows body.
Proof.
  intros Hb Hne.
  destruct Hb as [|c body s Hc Hq Hbs _|esc ch body s He _
                 |h1 h2 h3 h4 uni body s Hd Hno _
                 |h1 h2 h3 h4 l1 l2 l3 l4 hi lo body s Hd Hh Hd2 Hl _];
    [now elim Hne| | |reflexivity|reflexivity]; cbn [app].
  - apply N.eqb_neq in Hbs. now rewrite !low_escape_follows_head.
  - assert (Hu : (esc =? ord "u") = false).
    { destruct (esc =? ord "u") eqn:E; [|reflexivity].
      apply N.eqb_eq in E. subst esc. discriminate He. }
    now rewrite !low_escape_follows_second.
Qed.

Lemma prepend_cons c s x : cons_chr c (prepend s x) = prepend (c :: s) x.
Proof. destruct x as [[v r]|e|]; reflexivity. Qed.

(** A literal body is scanned to the string it denotes whatever follows
    it, as long as what follows is not the second half of a surrogate
    pair. *)
Lemma scanstring_app body s :
  string_body body s ->
  forall t, low_escape_follows t = false ->
    scanstring (body ++ t) = prepend s (scanstring t).
Proof.
  induction 1 as [|c body s Hc Hq Hb _ IH|esc ch body s He _ IH
                 |h1 h2 h3 h4 uni body s Hd Hno Hbody IH
                 |h1 h2 h3 h4 l1 l2 l3 l4 hi lo body s Hd Hh Hd2 Hl _ IH];
    intros t Ht; cbn [app].
  - now destruct (scanstring t) as [[v r]|e|].
  - rewrite scanstring_plain by assumption.
    now rewrite IH, prepend_cons.
  - rewrite (scanstring_escape _ _ _ He). now rewrite IH, prepend_cons.
  - rewrite (scanstring_unicode _ _ _ _ _ _ Hd).
    + now rewrite IH, prepend_cons.
    + destruct body as [|b body'] eqn:Eb; [cbn [app]; now rewrite Ht, andb_false_r|].
      rewrite <- Eb in *.
      rewrite (string_body_low _ _ t Hbody); [assumption|now rewrite Eb].
  - rewrite (scanstring_pair _ _ _ _ _ _ _ _ _ _ _ Hd Hh Hd2 Hl).
    now rewrite IH, prepend_cons.
Qed.

Lemma scanstring_control body s c rest :
  string_body body s -> c < 32 ->
  scanstring (body ++ c :: rest) = Raise JSONDecodeError.
Proof.
  intros Hb Hc.
  assert (Hq : (c =? QUOTE) = false) by (apply N.eqb_neq; unfold QUOTE; lia).
  assert (Hbs : (c =? BSLASH) = false) by (apply N.eqb_neq; unfold BSLASH; lia).
  rewrite (scanstring_app _ _ Hb) by now apply low_escape_follows_head.
  rewrite scanstring_cons, Hq, Hbs.
  apply N.ltb_lt in Hc. now rewrite Hc.
Qed.

Lemma JSONObject_loop_value_raise scan f t pairs key t2 e :
  scanstring t = Ok (key, ord ":" :: t2) ->
  scan (skip_ws t2) = Raise e ->
  JSONObject_loop scan (S f) t pairs = Raise e.
Proof.
  intros Hk Hv. cbn [JSONObject_loop]. rewrite Hk. cbn [res_bind].
  rewrite skip_ws_non_ws by reflexivity.
  change (ord ":" =? ord ":") with true. cbv iota.
  now rewrite Hv.
Qed.

(** ** An object given member by member *)

Lemma scan_once_any_fuel t fuel x :
  scan_once fuel t = Ok x -> scan_once (S (length t)) t = Ok x.
Proof.
  intros H.
  assert (H1 : scan_once (S (length t) + fuel) t = scan_once fuel t).
  { apply scan_once_more. now rewrite H. }
  assert (H2 : scan_once (fuel + S (length t)) t = scan_once (S (length t)) t).
  { apply scan_once_more. intros E.
    pose proof (scan_once_post (S (length t)) t (Nat.lt_succ_diag_r _)) as P.
    now rewrite E in P. }
  rewrite <- H2, Nat.add_comm, H1. exact H.
Qed.

Lemma dict_get_setitem d k v k0 :
  dict_get (dict_setitem d k v) k0
  = if str_eqb k k0 then Some v else dict_get d k0.
Proof.
  destruct (str_eqb k k0) eqn:E; [|now apply dict_get_setitem_other].
  apply str_eqb_eq in E. subst k0.
  induction d as [|[k' v'] d IH]; cbn [dict_setitem dict_get].
  - now rewrite str_eqb_refl.
  - destruct (str_eqb k' k) eqn:E'; cbn [dict_get]; now rewrite E'.
Qed.

Lemma dict_get_app d1 d2 k :
  dict_get (d1 ++ d2) k
  = match dict_get d1 k with Some v => Some v | None => dict_get d2 k end.
Proof.
  induction d1 as [|[k' v'] d1 IH]; cbn [app dict_get]; [reflexivity|].
  now destruct (str_eqb k' k).
Qed.

(** In [dict(pairs)] a key has the value of the last pair that gives it. *)
Lemma dict_get_of_pairs ms k :
  dict_get (dict_of_pairs ms) k = dict_get (rev ms) k.
Proof.
  unfold dict_of_pairs.
  assert (H : forall acc,
    dict_get (fold_left (fun d kv => dict_setitem d (fst kv) (snd kv)) ms acc) k
    = match dict_get (rev ms) k with
      | Some v => Some v
      | None => dict_get acc k
      end).
  { induction ms as [|[k' v'] ms IH]; intros acc; cbn [fold_left rev fst snd];
      [reflexivity|].
    rewrite IH, dict_get_app, dict_get_setitem. cbn [dict_get].
    destruct (dict_get (rev ms) k); [reflexivity|].
    now destruct (str_eqb k' k). }
  rewrite H. now destruct (dict_get (rev ms) k).
Qed.

Lemma map_reread_members (ms : list (str * pyval)) :
  Forall (fun kv => reads_back (snd kv)) ms ->
  map (fun kv => (fst kv, reread (snd kv))) ms = ms.
Proof.
  intros H. apply map_id_in. rewrite Forall_forall in *.
  intros [k v] Hkv. cbn [fst snd]. f_equal.
  now apply reads_back_reread, (H (k, v)).
Qed.

Lemma loads_object_text ms :
  Forall (fun kv => wf_str (fst kv) /\ wf_val (snd kv)) ms ->
  loads (object_text ms)
  = Ok (PDict (dict_of_pairs (map (fun kv => (fst kv, reread (snd kv))) ms))).
Proof.
  intros Hms. rewrite loads_decode. unfold decode, object_text.
  cbn [u app map list_ascii_of_string].
  rewrite skip_ws_non_ws by reflexivity.
  destruct ms as [|[k v] d]; [reflexivity|].
  set (F := S (list_sum (map (fun kv : str * pyval => size (snd kv)) ((k, v) :: d)))).
  rewrite (scan_once_any_fuel _ (S F)
             (PDict (dict_of_pairs
                       (map (fun kv => (fst kv, reread (snd kv))) ((k, v) :: d))), []));
    [reflexivity|].
  cbn [map]. rewrite join_flat_map. unfold member_text at 1.
  cbn [fst snd]. unfold encode_basestring_ascii at 1, key_separator at 1.
  rewrite <- !app_assoc. cbn [app]. rewrite <- !app_assoc. cbn [app].
  rewrite scan_once_object, JSONObject_quote.
  destruct (list_sum_bounds (fun kv : str * pyval => size (snd kv)) ((k, v) :: d)
              (fun kv => size_pos (snd kv))) as [Hlen Hsizes].
  apply (JSONObject_loop_read (scan_once F) d k v [] F []).
  - cbn [length] in Hlen. unfold F. lia.
  - rewrite Forall_forall in *. intros kv Hkv.
    destruct (Hms kv Hkv) as (Hk & Hwf). split; [assumption|].
    apply scan_once_reads; try assumption.
    specialize (Hsizes kv Hkv). cbn beta in Hsizes. unfold F. lia.
Qed.

(** ** The line as a function of the prompt *)

Lemma loads_line v :
  wf_val v -> loads (output_line (dumps v)) = Ok (result_of (reread v)).
Proof.
  intros Hwf. rewrite <- dumps_result.
  rewrite (loads_dumps_reread (result_of v) [NEWLINE]); [reflexivity| |].
  - now apply wf_val_result.
  - now repeat constructor.
Qed.

(** ** What a scanner reads does not depend on what follows *)

Lemma skip_ws_split s c s' :
  skip_ws s = c :: s' ->
  exists w, blank w /\ s = w ++ c :: s' /\ is_ws c = false.
Proof.
  induction s as [|x s IH]; cbn [skip_ws]; [discriminate|].
  destruct (is_ws x) eqn:E.
  - intros H. destruct (IH H) as (w & Hw & -> & Hc).
    exists (x :: w). repeat split; [now constructor|assumption].
  - intros [= -> ->]. exists []. repeat split; [constructor|assumption].
Qed.

Lemma skip_ws_nil s : skip_ws s = [] -> blank s.
Proof.
  induction s as [|x s IH]; cbn [skip_ws]; [constructor|].
  destruct (is_ws x) eqn:E; [|discriminate]. intros H.
  constructor; [exact E|exact (IH H)].
Qed.

Lemma skip_ws_past w c s :
  blank w -> is_ws c = false -> skip_ws (w ++ c :: s) = c :: s.
Proof.
  intros Hw Hc. rewrite (skip_ws_blank_l _ _ Hw). now apply skip_ws_non_ws.
Qed.

Lemma delimited_blank_app w c s :
  blank w -> is_delimiter c = true -> delimited (w ++ c :: s) = true.
Proof.
  intros Hw Hc. destruct Hw as [|x w Hx _]; [exact Hc|].
  cbn [app delimited]. unfold is_delimiter. now rewrite Hx.
Qed.

Lemma span_digits_inv t ds r :
  span_digits t = (ds, r) ->
  t = ds ++ r /\ forallb is_digit ds = true /\ stops r = true.
Proof.
  revert ds r. induction t as [|c t IH]; intros ds r; cbn [span_digits].
  - intros [= <- <-]. now repeat split.
  - destruct (is_digit c) eqn:E.
    + destruct (span_digits t) as [ds' r'] eqn:Et. intros [= <- <-].
      destruct (IH _ _ eq_refl) as (-> & Hd & Hs).
      repeat split; [|assumption]. cbn [forallb]. now rewrite E, Hd.
    + intros [= <- <-]. repeat split. cbn [stops]. now rewrite E.
Qed.

(** The text a group of the number pattern has read, and what it does
    before other text. *)
Lemma match_frac_inv t fr r :
  match_frac t = (fr, r) ->
  exists p, t = p ++ r /\
    (forall r', stops r' = true -> fr <> None -> match_frac (p ++ r') = (fr, r')) /\
    (fr = None -> p = []) /\
    (fr <> None -> exists p', p = ord "." :: p').
Proof.
  unfold match_frac. destruct t as [|c t].
  { intros [= <- <-]. exists []. repeat split; congruence. }
  destruct (c =? ord ".") eqn:E.
  2:{ intros [= <- <-]. exists []. repeat split; congruence. }
  apply N.eqb_eq in E. subst c.
  destruct (span_digits t) as [ds r0] eqn:Es.
  destruct (span_digits_inv _ _ _ Es) as (-> & Hd & Hs).
  destruct ds as [|d ds].
  - intros [= <- <-]. exists []. repeat split; congruence.
  - intros [= <- <-]. exists (ord "." :: d :: ds).
    split; [reflexivity|]. split; [|split; [discriminate|now eexists]].
    intros r' Hr' _. cbn [app].
    change (ord "." :: (d :: ds) ++ r') with (ord "." :: (d :: ds) ++ r').
    apply (match_frac_some (d :: ds) r'); [|assumption].
    split; [discriminate|assumption].
Qed.

Lemma match_exp_inv t ex r :
  match_exp t = (ex, r) ->
  exists p, t = p ++ r /\
    (forall r', stops r' = true -> ex <> None -> match_exp (p ++ r') = (ex, r')) /\
    (ex = None -> p = []) /\
    (ex <> None -> exists c p', p = c :: p' /\ ((c =? ord "e") || (c =? ord "E")) = true).
Proof.
  unfold match_exp. destruct t as [|c t].
  { intros [= <- <-]. exists []. repeat split; congruence. }
  destruct ((c =? ord "e") || (c =? ord "E")) eqn:E.
  2:{ intros [= <- <-]. exists []. repeat split; congruence. }
  destruct t as [|sg t].
  { intros [= <- <-]. exists []. repeat split; congruence. }
  destruct (sg =? ord "-") eqn:Em; [|destruct (sg =? ord "+") eqn:Ep].
  - destruct (span_digits t) as [ds r0] eqn:Es.
    destruct (span_digits_inv _ _ _ Es) as (-> & Hd & Hs).
    destruct ds as [|d ds].
    + intros [= <- <-]. exists []. repeat split; congruence.
    + intros [= <- <-]. exists (c :: sg :: d :: ds).
      split; [reflexivity|]. split; [|split; [discriminate|now eexists _, _]].
      intros r' Hr' _. cbn [app]. rewrite E, Em.
      change (d :: ds ++ r') with ((d :: ds) ++ r').
      now rewrite (span_digits_stops _ _ Hd Hr').
  - destruct (span_digits t) as [ds r0] eqn:Es.
    destruct (span_digits_inv _ _ _ Es) as (-> & Hd & Hs).
    destruct ds as [|d ds].
    + intros [= <- <-]. exists []. repeat split; congruence.
    + intros [= <- <-]. exists (c :: sg :: d :: ds).
      split; [reflexivity|]. split; [|split; [discriminate|now eexists _, _]].
      intros r' Hr' _. cbn [app]. rewrite E, Em, Ep.
      change (d :: ds ++ r') with ((d :: ds) ++ r').
      now rewrite (span_digits_stops _ _ Hd Hr').
  - destruct (span_digits (sg :: t)) as [ds r0] eqn:Es.
    destruct (span_digits_inv _ _ _ Es) as (Et & Hd & Hs).
    destruct ds as [|d ds].
    + intros [= <- <-]. exists []. repeat split; congruence.
    + intros [= <- <-]. cbn [app] in Et. injection Et as <- ->.
      exists (c :: sg :: ds).
      split; [reflexivity|]. split; [|split; [discriminate|now eexists _, _]].
      intros r' Hr' _. cbn [app]. rewrite E, Em, Ep.
      change (sg :: ds ++ r') with ((sg :: ds) ++ r').
      now rewrite (span_digits_stops _ _ Hd Hr').
Qed.

Lemma exp_head_facts c :
  ((c =? ord "e") || (c =? ord "E")) = true ->
  is_digit c = false /\ (c =? ord ".") = false.
Proof.
  intros H. apply orb_true_iff in H as [H|H]; apply N.eqb_eq in H; subst;
    split; reflexivity.
Qed.

Lemma exp_part_follows (ex : option (bool * str)) pe r' :
  (ex = None -> pe = []) ->
  (ex <> None -> exists c p', pe = c :: p' /\
                  ((c =? ord "e") || (c =? ord "E")) = true) ->
  delimited r' = true ->
  stops (pe ++ r') = true /\ match_frac (pe ++ r') = (None, pe ++ r').
Proof.
  intros Hnone Hsome Hr'. destruct ex as [x|].
  - destruct (Hsome ltac:(discriminate)) as (c & p' & -> & Hc).
    apply exp_head_facts in Hc as [Hd Hdot]. cbn [app stops match_frac].
    now rewrite Hd, Hdot.
  - rewrite (Hnone eq_refl). cbn [app].
    split; [now apply delimited_stops|now apply match_frac_delimited].
Qed.

Lemma number_core_inv neg c s2 m r :
  (let (ds, s3) := if c =? ord "0" then ([], s2) else span_digits s2 in
   let (frac, s4) := match_frac s3 in
   let (exp, s5) := match_exp s4 in
   Some ({| nm_neg := neg; nm_int := c :: ds;
            nm_frac := frac; nm_exp := exp |}, s5)) = Some (m, r) ->
  exists p, s2 = p ++ r /\
    forall r', delimited r' = true ->
      (let (ds, s3) := if c =? ord "0" then ([], p ++ r') else span_digits (p ++ r') in
       let (frac, s4) := match_frac s3 in
       let (exp, s5) := match_exp s4 in
       Some ({| nm_neg := neg; nm_int := c :: ds;
                nm_frac := frac; nm_exp := exp |}, s5)) = Some (m, r').
Proof.
  destruct (if c =? ord "0" then ([], s2) else span_digits s2) as [ds s3] eqn:E1.
  destruct (match_frac s3) as [frac s4] eqn:E2.
  destruct (match_exp s4) as [ex s5] eqn:E3.
  intros [= <- <-].
  destruct (match_frac_inv _ _ _ E2) as (pf & -> & Hf & Hfn & Hfs).
  destruct (match_exp_inv _ _ _ E3) as (pe & -> & He & Hen & Hes).
  assert (Hds : s2 = ds ++ pf ++ pe ++ s5 /\ forallb is_digit ds = true).
  { destruct (c =? ord "0").
    - injection E1 as <- <-. now split.
    - apply span_digits_inv in E1 as (-> & Hd & _). now split. }
  destruct Hds as [-> Hds].
  exists (ds ++ pf ++ pe). split; [now rewrite <- !app_assoc|].
  intros r' Hr'. rewrite <- !app_assoc.
  destruct (exp_part_follows ex pe r' Hen Hes Hr') as [Hse Hfe].
  assert (Hsf : stops (pf ++ pe ++ r') = true).
  { destruct frac as [x|].
    - destruct (Hfs ltac:(discriminate)) as (p' & ->). reflexivity.
    - now rewrite (Hfn eq_refl). }
  assert (S1 : (if c =? ord "0" then ([], ds ++ pf ++ pe ++ r')
                else span_digits (ds ++ pf ++ pe ++ r'))
               = (ds, pf ++ pe ++ r')).
  { destruct (c =? ord "0").
    - injection E1 as <- _. reflexivity.
    - now apply span_digits_stops. }
  assert (S2 : match_frac (pf ++ pe ++ r') = (frac, pe ++ r')).
  { destruct frac as [x|].
    - apply Hf; [assumption|discriminate].
    - now rewrite (Hfn eq_refl). }
  assert (S3 : match_exp (pe ++ r') = (ex, r')).
  { destruct ex as [x|].
    - apply He; [now apply delimited_stops|discriminate].
    - rewrite (Hen eq_refl). now apply match_exp_delimited. }
  now rewrite S1, S2, S3.
Qed.

Lemma match_number_inv t m r :
  match_number t = Some (m, r) ->
  exists c p, t = c :: p ++ r /\
    ((c =? ord "-") = true \/ is_digit c = true) /\
    forall r', delimited r' = true ->
      match_number (c :: p ++ r') = Some (m, r').
Proof.
  unfold match_number. destruct t as [|c0 s']; [discriminate|].
  destruct (c0 =? ord "-") eqn:Em.
  - destruct s' as [|c s2]; [discriminate|].
    destruct (is_digit c) eqn:Ec; [|discriminate].
    intros H. destruct (number_core_inv _ _ _ _ _ H) as (p & -> & Hp).
    exists c0, (c :: p). split; [reflexivity|]. split; [now left|].
    intros r' Hr'. cbn [app]. rewrite Em, Ec. now apply Hp.
  - destruct (is_digit c0) eqn:Ec; [|discriminate].
    intros H. destruct (number_core_inv _ _ _ _ _ H) as (p & -> & Hp).
    exists c0, p. split; [reflexivity|]. split; [now right|].
    intros r' Hr'. rewrite Em, Ec. now apply Hp.
Qed.

Lemma scan_atom_local : local scan_atom.
Proof.
  intros t v r. unfold scan_atom.
  destruct (strip_prefix (u "null") t) as [r0|] eqn:E1.
  { intros [= <- <-]. apply strip_prefix_app in E1. subst t.
    exists (u "null"). split; [discriminate|]. split; reflexivity. }
  destruct (strip_prefix (u "true") t) as [r0|] eqn:E2.
  { intros [= <- <-]. apply strip_prefix_app in E2. subst t.
    exists (u "true"). split; [discriminate|]. split; reflexivity. }
  destruct (strip_prefix (u "false") t) as [r0|] eqn:E3.
  { intros [= <- <-]. apply strip_prefix_app in E3. subst t.
    exists (u "false"). split; [discriminate|]. split; reflexivity. }
  destruct (match_number t) as [[m r0]|] eqn:E4.
  { intros [= <- <-].
    destruct (match_number_inv _ _ _ E4) as (c & p & -> & Hc & Hp).
    exists (c :: p). split; [discriminate|]. split; [reflexivity|].
    intros r' [Hr'|Hn].
    - assert (Hl : (ord "n" =? c) = false /\ (ord "t" =? c) = false /\
                   (ord "f" =? c) = false).
      { destruct Hc as [Hc|Hc]; [|now apply digit_not_letter].
        apply N.eqb_eq in Hc. subst c. now repeat split. }
      destruct Hl as (Hn & Ht & Hf). cbn [app].
      exact (scan_atom_number c _ _ _ Hn Ht Hf (Hp r' Hr')).
    - unfold number_value in Hn.
      destruct (nm_frac m); [discriminate Hn|].
      destruct (nm_exp m); discriminate Hn. }
  destruct (strip_prefix (u "NaN") t) as [r0|] eqn:E5.
  { intros [= <- <-]. apply strip_prefix_app in E5. subst t.
    exists (u "NaN"). split; [discriminate|]. split; reflexivity. }
  destruct (strip_prefix (u "Infinity") t) as [r0|] eqn:E6.
  { intros [= <- <-]. apply strip_prefix_app in E6. subst t.
    exists (u "Infinity"). split; [discriminate|]. split; reflexivity. }
  destruct (strip_prefix (u "-Infinity") t) as [r0|] eqn:E7; [|discriminate].
  intros [= <- <-]. apply strip_prefix_app in E7. subst t.
  exists (u "-Infinity"). split; [discriminate|]. split; reflexivity.
Qed.

Lemma scanstring_local t s r :
  scanstring t = Ok (s, r) ->
  exists body, t = body ++ QUOTE :: r /\
    forall r', scanstring (body ++ QUOTE :: r') = Ok (s, r').
Proof.
  intros H. apply (scanstring_complete (length t)) in H as (body & -> & Hb);
    [|apply Nat.le_refl].
  exists body. split; [reflexivity|]. intros r'. now apply scanstring_sound.
Qed.

Section LocalContainers.

Variable scan : str -> res (pyval * str).
Hypothesis scan_local : local scan.

Lemma JSONArray_loop_local fuel :
  forall s acc v r,
    JSONArray_loop scan fuel s acc = Ok (v, r) ->
    exists p, p <> [] /\ s = p ++ r /\ is_number v = false /\
      forall r', JSONArray_loop scan fuel (p ++ r') acc = Ok (v, r').
Proof.
  induction fuel as [|fuel IH]; intros s acc v r; [discriminate|].
  cbn [JSONArray_loop].
  destruct (scan s) as [[value s1]|e|] eqn:Es; try discriminate.
  cbn [res_bind].
  destruct (scan_local _ _ _ Es) as (p1 & Hp1 & -> & R1).
  destruct (skip_ws s1) as [|c s2] eqn:E1; [discriminate|].
  destruct (skip_ws_split _ _ _ E1) as (w & Hw & -> & Hc).
  destruct (c =? ord "]") eqn:Ec; [|destruct (c =? ord ",") eqn:Ec'; [|discriminate]].
  - intros [= <- <-]. apply N.eqb_eq in Ec. subst c.
    exists (p1 ++ w ++ [ord "]"]).
    split; [destruct p1; [now elim Hp1|discriminate]|].
    split; [now rewrite <- !app_assoc|]. split; [reflexivity|].
    intros r'. rewrite <- !app_assoc. cbn [app JSONArray_loop].
    rewrite R1 by (left; now apply delimited_blank_app).
    cbn [res_bind]. rewrite (skip_ws_past _ _ _ Hw Hc). reflexivity.
  - intros H. apply N.eqb_eq in Ec'. subst c.
    destruct (IH _ _ _ _ H) as (p2 & Hp2 & E2 & Hv & R2).
    destruct p2 as [|c2 p2]; [now elim Hp2|]. cbn [app] in E2.
    destruct (skip_ws_split _ _ _ E2) as (w2 & Hw2 & -> & Hc2).
    exists (p1 ++ w ++ ord "," :: w2 ++ c2 :: p2).
    split; [destruct p1; [now elim Hp1|discriminate]|].
    split; [rewrite <- !app_assoc; cbn [app]; now rewrite <- !app_assoc|].
    split; [assumption|].
    intros r'. rewrite <- !app_assoc. cbn [app JSONArray_loop].
    rewrite <- !app_assoc. cbn [app].
    rewrite R1 by (left; now apply delimited_blank_app).
    cbn [res_bind]. rewrite (skip_ws_past _ _ _ Hw Hc).
    change (ord "," =? ord "]") with false.
    change (ord "," =? ord ",") with true. cbv iota.
    rewrite (skip_ws_past _ _ _ Hw2 Hc2). apply (R2 r').
Qed.

Lemma JSONArray_local fuel s v r :
  JSONArray scan fuel s = Ok (v, r) ->
  exists p, s = p ++ r /\ is_number v = false /\
    forall r', JSONArray scan fuel (p ++ r') = Ok (v, r').
Proof.
  unfold JSONArray. destruct (skip_ws s) as [|c s1] eqn:E.
  - intros H. destruct (JSONArray_loop_local _ _ _ _ _ H) as (p & Hp & Ep & _).
    destruct p; [now elim Hp|discriminate].
  - destruct (skip_ws_split _ _ _ E) as (w & Hw & -> & Hc).
    destruct (c =? ord "]") eqn:Ec.
    + intros [= <- <-]. exists (w ++ [c]).
      split; [now rewrite <- app_assoc|]. split; [reflexivity|].
      intros r'. rewrite <- app_assoc. cbn [app].
      rewrite (skip_ws_past _ _ _ Hw Hc). now rewrite Ec.
    + intros H. destruct (JSONArray_loop_local _ _ _ _ _ H) as (p & Hp & Ep & Hv & R).
      destruct p as [|c' p]; [now elim Hp|]. cbn [app] in Ep.
      injection Ep as <- ->.
      exists (w ++ c :: p). split; [now rewrite <- app_assoc|].
      split; [assumption|].
      intros r'. rewrite <- app_assoc. cbn [app].
      rewrite (skip_ws_past _ _ _ Hw Hc). rewrite Ec. apply (R r').
Qed.

Lemma JSONObject_loop_local fuel :
  forall s acc v r,
    JSONObject_loop scan fuel s acc = Ok (v, r) ->
    exists p, s = p ++ r /\ is_number v = false /\
      forall r', JSONObject_loop scan fuel (p ++ r') acc = Ok (v, r').
Proof.
  induction fuel as [|fuel IH]; intros s acc v r H; [discriminate H|].
  cbn [JSONObject_loop] in H.
  destruct (scanstring s) as [[key s1]|e|] eqn:Es; try discriminate H.
  cbn [res_bind] in H.
  destruct (scanstring_local _ _ _ Es) as (body & -> & Rk).
  destruct (skip_ws s1) as [|colon s2] eqn:E1; [discriminate H|].
  destruct (skip_ws_split _ _ _ E1) as (w1 & Hw1 & -> & Hc1).
  destruct (colon =? ord ":") eqn:Ecol; [|discriminate H].
  destruct (scan (skip_ws s2)) as [[value s3]|e|] eqn:Ev; try discriminate H.
  cbn [res_bind] in H.
  destruct (scan_local _ _ _ Ev) as (p3 & Hp3 & E3 & R3).
  destruct p3 as [|c3 p3]; [now elim Hp3|]. cbn [app] in E3.
  destruct (skip_ws_split _ _ _ E3) as (w2 & Hw2 & -> & Hc3).
  destruct (skip_ws s3) as [|c s4] eqn:E4; [discriminate H|].
  destruct (skip_ws_split _ _ _ E4) as (w3 & Hw3 & -> & Hc).
  assert (Replay : forall x,
    is_delimiter c = true ->
    JSONObject_loop scan (S fuel)
      (body ++ QUOTE :: w1 ++ colon :: w2 ++ c3 :: p3 ++ w3 ++ c :: x) acc
    = if c =? ord "}"
      then Ok (PDict (dict_of_pairs (acc ++ [(key, value)])), x)
      else if c =? ord "," then
        match skip_ws x with
        | [] => Raise JSONDecodeError
        | q :: s5 =>
            if q =? QUOTE
            then JSONObject_loop scan fuel s5 (acc ++ [(key, value)])
            else Raise JSONDecodeError
        end
      else Raise JSONDecodeError).
  { intros x Hd. cbn [JSONObject_loop]. rewrite Rk. cbn [res_bind].
    rewrite (skip_ws_past _ _ _ Hw1 Hc1), Ecol.
    rewrite (skip_ws_past _ _ _ Hw2 Hc3).
    change (c3 :: p3 ++ w3 ++ c :: x) with ((c3 :: p3) ++ w3 ++ c :: x).
    rewrite R3 by (left; now apply delimited_blank_app).
    cbn [res_bind]. now rewrite (skip_ws_past _ _ _ Hw3 Hc). }
  destruct (c =? ord "}") eqn:Ec;
    [|destruct (c =? ord ",") eqn:Ec'; [|discriminate H]].
  - injection H as <- <-.
    exists (body ++ QUOTE :: w1 ++ colon :: w2 ++ c3 :: p3 ++ w3 ++ [c]).
    split; [repeat (rewrite <- !app_assoc; cbn [app]); reflexivity|].
    split; [reflexivity|].
    intros r'. repeat (rewrite <- !app_assoc; cbn [app]).
    rewrite Replay; [reflexivity|].
    apply N.eqb_eq in Ec. now subst c.
  - destruct (skip_ws s4) as [|q s5] eqn:E5; [discriminate H|].
    destruct (skip_ws_split _ _ _ E5) as (w4 & Hw4 & -> & Hq).
    destruct (q =? QUOTE) eqn:Eq; [|discriminate H].
    destruct (IH _ _ _ _ H) as (p5 & -> & Hv & R5).
    exists (body ++ QUOTE :: w1 ++ colon :: w2 ++ c3 :: p3 ++ w3 ++ c :: w4 ++ q :: p5).
    split; [repeat (rewrite <- !app_assoc; cbn [app]); reflexivity|].
    split; [assumption|].
    intros r'. repeat (rewrite <- !app_assoc; cbn [app]).
    rewrite Replay; [|apply N.eqb_eq in Ec'; now subst c].
    rewrite (skip_ws_past _ _ _ Hw4 Hq), Eq. apply (R5 r').
Qed.

Lemma JSONObject_local fuel s v r :
  JSONObject scan fuel s = Ok (v, r) ->
  exists p, s = p ++ r /\ is_number v = false /\
    forall r', JSONObject scan fuel (p ++ r') = Ok (v, r').
Proof.
  unfold JSONObject. destruct (skip_ws s) as [|c s1] eqn:E; [discriminate|].
  destruct (skip_ws_split _ _ _ E) as (w & Hw & -> & Hc).
  destruct (c =? QUOTE) eqn:Eq; [|destruct (c =? ord "}") eqn:Ec; [|discriminate]].
  - intros H. destruct (JSONObject_loop_local _ _ _ _ _ H) as (p & -> & Hv & R).
    exists (w ++ c :: p). split; [now rewrite <- app_assoc|].
    split; [assumption|].
    intros r'. rewrite <- app_assoc. cbn [app].
    rewrite (skip_ws_past _ _ _ Hw Hc), Eq. apply (R r').
  - intros [= <- <-]. exists (w ++ [c]).
    split; [now rewrite <- app_assoc|]. split; [reflexivity|].
    intros r'. rewrite <- app_assoc. cbn [app].
    rewrite (skip_ws_past _ _ _ Hw Hc). now rewrite Eq, Ec.
Qed.

End LocalContainers.

(** What [scan_once] reads is read the same before any text that may
    follow it. *)
Lemma scan_once_local fuel : local (scan_once fuel).
Proof.
  induction fuel as [|fuel IH]; intros t v r; [discriminate|].
  cbn [scan_once]. destruct t as [|c s']; [discriminate|].
  destruct (c =? QUOTE) eqn:Eq.
  { destruct (scanstring s') as [[s0 r0]|e|] eqn:Es; try discriminate.
    cbn [res_bind]. intros [= <- <-].
    destruct (scanstring_local _ _ _ Es) as (body & -> & R).
    exists (c :: body ++ [QUOTE]). split; [discriminate|].
    split; [cbn [app]; now rewrite <- app_assoc|].
    intros r' _. cbn [app scan_once]. rewrite Eq, <- app_assoc. cbn [app].
    now rewrite R. }
  destruct (c =? ord "{") eqn:Eo.
  { intros H. destruct (JSONObject_local _ IH _ _ _ _ H) as (p & -> & Hv & R).
    exists (c :: p). split; [discriminate|]. split; [reflexivity|].
    intros r' _. cbn [app scan_once]. rewrite Eq, Eo. apply R. }
  destruct (c =? ord "[") eqn:Ea.
  { intros H. destruct (JSONArray_local _ IH _ _ _ _ H) as (p & -> & Hv & R).
    exists (c :: p). split; [discriminate|]. split; [reflexivity|].
    intros r' _. cbn [app scan_once]. rewrite Eq, Eo, Ea. apply R. }
  intros H. destruct (scan_atom_local _ _ _ H) as (p & Hp & Ep & R).
  exists p. split; [assumption|]. split; [assumption|].
  intros r' Hr'. destruct p as [|c' p]; [now elim Hp|].
  cbn [app] in Ep. injection Ep as <- ->.
  cbn [app scan_once]. rewrite Eq, Eo, Ea. apply (R r' Hr').
Qed.

(** Text after a value that is not a number, other than whitespace, makes
    [json.loads] fail. *)
Lemma loads_extra text v extra :
  loads text = Ok v -> is_number v = false -> skip_ws extra <> [] ->
  loads (text ++ extra) = Raise JSONDecodeError.
Proof.
  rewrite !loads_decode. unfold decode. intros H Hv Hex.
  destruct (scan_once (S (length text)) (skip_ws text)) as [[v0 rest]|e|] eqn:Es;
    try discriminate H.
  cbn [res_bind] in H.
  destruct (skip_ws rest) as [|x y] eqn:Er; [|discriminate H].
  injection H as ->.
  destruct (scan_once_local _ _ _ _ Es) as (p & Hp & Ep & R).
  destruct p as [|c0 p]; [now elim Hp|]. cbn [app] in Ep.
  destruct (skip_ws_split _ _ _ Ep) as (w & Hw & -> & Hc0).
  rewrite <- app_assoc. cbn [app]. rewrite <- app_assoc.
  rewrite (skip_ws_past _ _ _ Hw Hc0).
  assert (Hfuel : S (length (w ++ c0 :: p ++ rest ++ extra))
                  = (length extra + S (length (w ++ c0 :: p ++ rest)))%nat).
  { rewrite !length_app. cbn [length]. rewrite !length_app. lia. }
  rewrite Hfuel.
  pose proof (R (rest ++ extra) (or_intror Hv)) as Hscan. cbn [app] in Hscan.
  rewrite scan_once_more by (rewrite Hscan; discriminate).
  rewrite Hscan. cbn [res_bind].
  rewrite (skip_ws_blank_l _ _ (skip_ws_nil _ Er)).
  destruct (skip_ws extra); [now elim Hex|reflexivity].
Qed.

(** ** What the decoder accepts is JSON text with the three constants *)

Lemma blank_app w1 w2 : blank w1 -> blank w2 -> blank (w1 ++ w2).
Proof. intros H1 H2. apply Forall_app. now split. Qed.

Lemma match_frac_lexeme t fr r :
  match_frac t = (fr, r) -> exists p, t = p ++ r /\ frac_lexeme p.
Proof.
  unfold match_frac. destruct t as [|c t].
  { intros [= <- <-]. exists []. split; [reflexivity|now left]. }
  destruct (c =? ord ".") eqn:E.
  2:{ intros [= <- <-]. exists []. split; [reflexivity|now left]. }
  apply N.eqb_eq in E. subst c.
  destruct (span_digits t) as [ds r0] eqn:Es.
  destruct (span_digits_inv _ _ _ Es) as (-> & Hd & Hs).
  destruct ds as [|d ds].
  - intros [= <- <-]. exists []. split; [reflexivity|now left].
  - intros [= <- <-]. exists (ord "." :: d :: ds). split; [reflexivity|].
    right. exists (d :: ds). split; [|reflexivity]. split; [discriminate|assumption].
Qed.

Lemma match_exp_lexeme t ex r :
  match_exp t = (ex, r) -> exists p, t = p ++ r /\ exp_lexeme p.
Proof.
  unfold match_exp. destruct t as [|c t].
  { intros [= <- <-]. exists []. split; [reflexivity|now left]. }
  destruct ((c =? ord "e") || (c =? ord "E")) eqn:E.
  2:{ intros [= <- <-]. exists []. split; [reflexivity|now left]. }
  destruct t as [|sg t].
  { intros [= <- <-]. exists []. split; [reflexivity|now left]. }
  destruct (sg =? ord "-") eqn:Em; [|destruct (sg =? ord "+") eqn:Ep].
  - apply N.eqb_eq in Em. subst sg.
    destruct (span_digits t) as [ds r0] eqn:Es.
    destruct (span_digits_inv _ _ _ Es) as (-> & Hd & Hs).
    destruct ds as [|d ds].
    + intros [= <- <-]. exists []. split; [reflexivity|now left].
    + intros [= <- <-]. exists (c :: ord "-" :: d :: ds).
      split; [reflexivity|]. right. exists c, [ord "-"], (d :: ds).
      repeat split; auto. discriminate.
  - apply N.eqb_eq in Ep. subst sg.
    destruct (span_digits t) as [ds r0] eqn:Es.
    destruct (span_digits_inv _ _ _ Es) as (-> & Hd & Hs).
    destruct ds as [|d ds].
    + intros [= <- <-]. exists []. split; [reflexivity|now left].
    + intros [= <- <-]. exists (c :: ord "+" :: d :: ds).
      split; [reflexivity|]. right. exists c, [ord "+"], (d :: ds).
      repeat split; auto. discriminate.
  - destruct (span_digits (sg :: t)) as [ds r0] eqn:Es.
    destruct (span_digits_inv _ _ _ Es) as (Et & Hd & Hs).
    destruct ds as [|d ds].
    + intros [= <- <-]. exists []. split; [reflexivity|now left].
    + intros [= <- <-]. exists (c :: d :: ds).
      split; [cbn [app] in *; now rewrite Et|].
      right. exists c, [], (d :: ds).
      repeat split; auto. discriminate.
Qed.

Lemma match_number_lexeme t m r :
  match_number t = Some (m, r) -> exists p, t = p ++ r /\ number_lexeme p.
Proof.
  assert (Hcore : forall (neg : bool) c s2,
    is_digit c = true ->
    (let (ds, s3) := if c =? ord "0" then ([], s2) else span_digits s2 in
     let (frac, s4) := match_frac s3 in
     let (exp, s5) := match_exp s4 in
     Some ({| nm_neg := neg; nm_int := c :: ds;
              nm_frac := frac; nm_exp := exp |}, s5)) = Some (m, r) ->
    exists p, (if neg then [ord "-"] else []) ++ c :: s2 = p ++ r /\
              number_lexeme p).
  { intros neg c s2 Hc.
    destruct (if c =? ord "0" then ([], s2) else span_digits s2) as [ds s3] eqn:E1.
    destruct (match_frac s3) as [frac s4] eqn:E2.
    destruct (match_exp s4) as [ex s5] eqn:E3.
    intros [= <- <-].
    destruct (match_frac_lexeme _ _ _ E2) as (pf & -> & Hf).
    destruct (match_exp_lexeme _ _ _ E3) as (pe & -> & He).
    assert (Hds : s2 = ds ++ pf ++ pe ++ s5 /\ forallb is_digit ds = true /\
                  ((c =? ord "0") = true -> ds = [])).
    { destruct (c =? ord "0").
      - injection E1 as <- <-. now repeat split.
      - apply span_digits_inv in E1 as (-> & Hd & _).
        repeat split; [assumption|discriminate]. }
    destruct Hds as (-> & Hds & Hz).
    exists ((if neg then [ord "-"] else []) ++ c :: ds ++ pf ++ pe).
    split; [now rewrite <- !app_assoc; cbn [app]; rewrite <- !app_assoc|].
    exists neg, c, ds, pf, pe. now repeat split. }
  unfold match_number. destruct t as [|c0 s']; [discriminate|].
  destruct (c0 =? ord "-") eqn:Em.
  - apply N.eqb_eq in Em. subst c0.
    destruct s' as [|c s2]; [discriminate|].
    destruct (is_digit c) eqn:Ec; [|discriminate].
    intros H. exact (Hcore true c s2 Ec H).
  - destruct (is_digit c0) eqn:Ec; [|discriminate].
    intros H. exact (Hcore false c0 s' Ec H).
Qed.

Lemma scan_atom_json : reads_json scan_atom.
Proof.
  intros t v r. unfold scan_atom.
  destruct (strip_prefix (u "null") t) as [r0|] eqn:E1.
  { intros [= <- <-]. apply strip_prefix_app in E1. subst t.
    exists (u "null"). split; [reflexivity|constructor]. }
  destruct (strip_prefix (u "true") t) as [r0|] eqn:E2.
  { intros [= <- <-]. apply strip_prefix_app in E2. subst t.
    exists (u "true"). split; [reflexivity|constructor]. }
  destruct (strip_prefix (u "false") t) as [r0|] eqn:E3.
  { intros [= <- <-]. apply strip_prefix_app in E3. subst t.
    exists (u "false"). split; [reflexivity|constructor]. }
  destruct (match_number t) as [[m r0]|] eqn:E4.
  { intros [= <- <-].
    destruct (match_number_lexeme _ _ _ E4) as (p & -> & Hp).
    exists p. split; [reflexivity|now apply vt_number]. }
  destruct (strip_prefix (u "NaN") t) as [r0|] eqn:E5.
  { intros [= <- <-]. apply strip_prefix_app in E5. subst t.
    exists (u "NaN"). split; [reflexivity|apply vt_constant; auto]. }
  destruct (strip_prefix (u "Infinity") t) as [r0|] eqn:E6.
  { intros [= <- <-]. apply strip_prefix_app in E6. subst t.
    exists (u "Infinity"). split; [reflexivity|apply vt_constant; auto]. }
  destruct (strip_prefix (u "-Infinity") t) as [r0|] eqn:E7; [|discriminate].
  intros [= <- <-]. apply strip_prefix_app in E7. subst t.
  exists (u "-Infinity"). split; [reflexivity|apply vt_constant; auto].
Qed.

Lemma skip_ws_decomp s : exists w, blank w /\ s = w ++ skip_ws s.
Proof.
  induction s as [|c s (w & Hw & E)]; [exists []; split; [constructor|reflexivity]|].
  cbn [skip_ws]. destruct (is_ws c) eqn:Ec.
  - exists (c :: w). split; [now constructor|]. cbn [app]. now f_equal.
  - exists []. split; [constructor|reflexivity].
Qed.

Lemma elements_text_ws ext w body :
  blank w -> elements_text ext body -> elements_text ext (w ++ body).
Proof.
  intros Hw [w1 v w2 H1 Hv H2|w1 v w2 rest H1 Hv H2 Hr]; rewrite app_assoc.
  - apply el_last; auto using blank_app.
  - apply el_more; auto using blank_app.
Qed.

Lemma members_text_ws ext w body :
  blank w -> members_text ext body -> members_text ext (w ++ body).
Proof.
  intros Hw [w1 kb k w2 w3 v w4 H1 Hk H2 H3 Hv H4
            |w1 kb k w2 w3 v w4 rest H1 Hk H2 H3 Hv H4 Hr]; rewrite app_assoc.
  - eapply mb_last; eauto using blank_app.
  - eapply mb_more; eauto using blank_app.
Qed.

Section JsonContainers.

Variable scan : str -> res (pyval * str).
Hypothesis scan_json : reads_json scan.

Lemma JSONArray_loop_json fuel :
  forall s acc v r,
    JSONArray_loop scan fuel s acc = Ok (v, r) ->
    exists body, s = body ++ ord "]" :: r /\ elements_text true body.
Proof.
  induction fuel as [|fuel IH]; intros s acc v r H; [discriminate H|].
  cbn [JSONArray_loop] in H.
  destruct (scan s) as [[value s1]|e|] eqn:Es; try discriminate H.
  cbn [res_bind] in H.
  destruct (scan_json _ _ _ Es) as (p1 & -> & Hp1).
  destruct (skip_ws s1) as [|c s2] eqn:E1; [discriminate H|].
  destruct (skip_ws_split _ _ _ E1) as (w & Hw & -> & Hc).
  destruct (c =? ord "]") eqn:Ec;
    [|destruct (c =? ord ",") eqn:Ec'; [|discriminate H]].
  - injection H as <- <-. apply N.eqb_eq in Ec. subst c.
    exists (p1 ++ w). split; [now rewrite <- app_assoc|].
    apply (el_last true [] p1 w); [constructor|assumption|assumption].
  - apply N.eqb_eq in Ec'. subst c.
    destruct (IH _ _ _ _ H) as (body2 & E2 & Hb2).
    destruct (skip_ws_decomp s2) as (w2 & Hw2 & Es2).
    exists (p1 ++ w ++ ord "," :: w2 ++ body2). split.
    + rewrite Es2 at 1. rewrite E2.
      repeat (rewrite <- !app_assoc; cbn [app]). reflexivity.
    + apply (el_more true [] p1 w (w2 ++ body2));
        [constructor|assumption|assumption|].
      now apply elements_text_ws.
Qed.

Lemma JSONArray_json fuel s v r :
  JSONArray scan fuel s = Ok (v, r) ->
  exists p, s = p ++ r /\ value_text true (ord "[" :: p).
Proof.
  unfold JSONArray. destruct (skip_ws s) as [|c s1] eqn:E.
  - intros H. destruct (JSONArray_loop_json _ _ _ _ _ H) as (body & Eb & _).
    destruct body; discriminate Eb.
  - destruct (skip_ws_split _ _ _ E) as (w & Hw & -> & Hc).
    destruct (c =? ord "]") eqn:Ec.
    + intros [= <- <-]. apply N.eqb_eq in Ec. subst c.
      exists (w ++ [ord "]"]). split; [now rewrite <- app_assoc|].
      now apply vt_array_empty.
    + intros H. destruct (JSONArray_loop_json _ _ _ _ _ H) as (body & Eb & Hb).
      rewrite Eb. exists (w ++ body ++ [ord "]"]).
      split; [now rewrite <- !app_assoc|].
      rewrite app_assoc. apply vt_array. now apply elements_text_ws.
Qed.

Lemma JSONObject_loop_json fuel :
  forall s acc v r,
    JSONObject_loop scan fuel s acc = Ok (v, r) ->
    exists body, QUOTE :: s = body ++ ord "}" :: r /\ members_text true body.
Proof.
  induction fuel as [|fuel IH]; intros s acc v r H; [discriminate H|].
  cbn [JSONObject_loop] in H.
  destruct (scanstring s) as [[key s1]|e|] eqn:Es; try discriminate H.
  cbn [res_bind] in H.
  apply (scanstring_complete (length s)) in Es as (kbody & -> & Hk);
    [|apply Nat.le_refl].
  destruct (skip_ws s1) as [|colon s2] eqn:E1; [discriminate H|].
  destruct (skip_ws_split _ _ _ E1) as (w1 & Hw1 & -> & Hc1).
  destruct (colon =? ord ":") eqn:Ecol; [|discriminate H].
  apply N.eqb_eq in Ecol. subst colon.
  destruct (scan (skip_ws s2)) as [[value s3]|e|] eqn:Ev; try discriminate H.
  cbn [res_bind] in H.
  destruct (scan_json _ _ _ Ev) as (p3 & E3 & Hp3).
  destruct (skip_ws_decomp s2) as (w2 & Hw2 & Es2).
  destruct (skip_ws s3) as [|c s4] eqn:E4; [discriminate H|].
  destruct (skip_ws_split _ _ _ E4) as (w3 & Hw3 & -> & Hc).
  assert (Etext : QUOTE :: kbody ++ QUOTE :: w1 ++ ord ":" :: s2
                  = ([] ++ dq kbody ++ w1 ++ ord ":" :: w2 ++ p3 ++ w3)
                    ++ c :: s4).
  { rewrite Es2 at 1. rewrite E3. unfold dq.
    repeat (rewrite <- !app_assoc; cbn [app]). reflexivity. }
  destruct (c =? ord "}") eqn:Ec;
    [|destruct (c =? ord ",") eqn:Ec'; [|discriminate H]].
  - injection H as <- <-. apply N.eqb_eq in Ec. subst c.
    eexists. split; [exact Etext|].
    eapply mb_last; eauto. constructor.
  - apply N.eqb_eq in Ec'. subst c.
    destruct (skip_ws s4) as [|q s5] eqn:E5; [discriminate H|].
    destruct (skip_ws_split _ _ _ E5) as (w4 & Hw4 & -> & Hq).
    destruct (q =? QUOTE) eqn:Eq; [|discriminate H].
    apply N.eqb_eq in Eq. subst q.
    destruct (IH _ _ _ _ H) as (body5 & E5' & Hb5).
    exists ([] ++ dq kbody ++ w1 ++ ord ":" :: w2 ++ p3 ++ w3
            ++ ord "," :: w4 ++ body5). split.
    + rewrite Etext, E5'.
      repeat (rewrite <- !app_assoc; cbn [app]). reflexivity.
    + eapply mb_more; eauto; [constructor|].
      now apply members_text_ws.
Qed.

Lemma JSONObject_json fuel s v r :
  JSONObject scan fuel s = Ok (v, r) ->
  exists p, s = p ++ r /\ value_text true (ord "{" :: p).
Proof.
  unfold JSONObject. destruct (skip_ws s) as [|c s1] eqn:E; [discriminate|].
  destruct (skip_ws_split _ _ _ E) as (w & Hw & -> & Hc).
  destruct (c =? QUOTE) eqn:Eq; [|destruct (c =? ord "}") eqn:Ec; [|discriminate]].
  - apply N.eqb_eq in Eq. subst c. intros H.
    destruct (JSONObject_loop_json _ _ _ _ _ H) as (body & Eb & Hb).
    rewrite Eb. exists (w ++ body ++ [ord "}"]).
    split; [now rewrite <- !app_assoc|].
    rewrite app_assoc. apply vt_object. now apply members_text_ws.
  - intros [= <- <-]. apply N.eqb_eq in Ec. subst c.
    exists (w ++ [ord "}"]). split; [now rewrite <- app_assoc|].
    now apply vt_object_empty.
Qed.

End JsonContainers.

Lemma scan_once_json fuel : reads_json (scan_once fuel).
Proof.
  induction fuel as [|fuel IH]; intros t v r; [discriminate|].
  cbn [scan_once]. destruct t as [|c s']; [discriminate|].
  destruct (c =? QUOTE) eqn:Eq.
  { apply N.eqb_eq in Eq. subst c.
    destruct (scanstring s') as [[s0 r0]|e|] eqn:Es; try discriminate.
    cbn [res_bind]. intros [= <- <-].
    apply (scanstring_complete (length s')) in Es as (body & -> & Hb);
      [|apply Nat.le_refl].
    exists (dq body). split; [unfold dq; cbn [app]; now rewrite <- app_assoc|].
    now apply (vt_string true body s0). }
  destruct (c =? ord "{") eqn:Eo.
  { apply N.eqb_eq in Eo. subst c. intros H.
    destruct (JSONObject_json _ IH _ _ _ _ H) as (p & -> & Hp).
    now exists (ord "{" :: p). }
  destruct (c =? ord "[") eqn:Ea.
  { apply N.eqb_eq in Ea. subst c. intros H.
    destruct (JSONArray_json _ IH _ _ _ _ H) as (p & -> & Hp).
    now exists (ord "[" :: p). }
  apply scan_atom_json.
Qed.

(** [json.loads] accepts nothing but JSON text with the three constants. *)
Lemma loads_json text v : loads text = Ok v -> json_text true text.
Proof.
  rewrite loads_decode. unfold decode. intros H.
  destruct (scan_once (S (length text)) (skip_ws text)) as [[v0 rest]|e|] eqn:Es;
    try discriminate H.
  cbn [res_bind] in H.
  destruct (skip_ws rest) as [|x y] eqn:Er; [|discriminate H].
  destruct (scan_once_json _ _ _ _ Es) as (p & Ep & Hp).
  destruct (skip_ws_decomp text) as (w & Hw & Et).
  exists w, p, rest. repeat split; try assumption.
  - now apply skip_ws_nil.
  - rewrite Et at 1. now rewrite Ep.
Qed.

(** ** [dumps] writes JSON text *)

Lemma number_text_lexeme m : wf_number m -> number_lexeme (number_text m).
Proof.
  intros ((c & ds & Ei & Hc & Hds & Hz) & Hf & He).
  unfold number_text. rewrite Ei.
  exists (nm_neg m), c, ds,
    (match nm_frac m with Some fs => ord "." :: fs | None => [] end),
    (match nm_exp m with
     | Some (neg, es) => ord "e" :: (if neg then ord "-" else ord "+") :: es
     | None => []
     end).
  repeat split; try assumption.
  - destruct (nm_frac m) as [fs|]; [right; now exists fs|now left].
  - destruct (nm_exp m) as [[neg es]|]; [right|now left].
    exists (ord "e"), (if neg then [ord "-"] else [ord "+"]), es.
    repeat split; try apply He.
    + destruct neg; auto.
    + now destruct neg.
Qed.

Lemma digits_of_N_lexeme n : number_lexeme (digits_of_N n).
Proof.
  destruct n as [|p].
  - exists false, (ord "0"), [], [], []. repeat split; now left.
  - destruct (digits_of_N_pos p) as (c & ds & E & Hc & Hz & Hds).
    exists false, c, ds, [], []. rewrite E.
    repeat split; try assumption; try now left.
    + intros H. rewrite H in Hz. discriminate.
    + cbn [app]. now rewrite !List.app_nil_r.
Qed.

Lemma intstr_lexeme z : number_lexeme (intstr z).
Proof.
  destruct z as [|p|p]; cbn [intstr]; try apply digits_of_N_lexeme.
  destruct (digits_of_N_pos p) as (c & ds & E & Hc & Hz & Hds).
  exists true, c, ds, [], []. rewrite E.
  repeat split; try assumption; try now left.
  - intros H. rewrite H in Hz. discriminate.
  - cbn [app]. now rewrite !List.app_nil_r.
Qed.

Lemma floatstr_lexeme f : finite_float f = true -> number_lexeme (floatstr f).
Proof.
  destruct f as [s|s| |s m e]; try discriminate; intros _.
  - exists s, (ord "0"), [], (u ".0"), []. repeat split.
    + right. exists [ord "0"]. now repeat split.
    + now left.
    + now destruct s.
  - destruct (floatstr_number_text s m e) as (nm & Hwf & _ & _ & ->).
    now apply number_text_lexeme.
Qed.

Lemma floatstr_json f : value_text true (floatstr f).
Proof.
  destruct (finite_float f) eqn:E.
  - apply vt_number. now apply floatstr_lexeme.
  - apply vt_constant; [reflexivity|].
    destruct f as [s|[|]| |s m e]; try discriminate; cbn [floatstr]; auto.
Qed.

Lemma join_elements ext x l :
  Forall (value_text ext) (x :: l) ->
  elements_text ext (join item_separator (x :: l)).
Proof.
  revert x. induction l as [|y l IH]; intros x H.
  - cbn [join]. apply Forall_cons_iff in H as [Hx _].
    rewrite <- (List.app_nil_r x).
    apply (el_last ext [] x []); [constructor|assumption|constructor].
  - apply Forall_cons_iff in H as [Hx H].
    change (join item_separator (x :: y :: l))
      with (x ++ item_separator ++ join item_separator (y :: l)).
    apply (el_more ext [] x [] ([ord " "] ++ join item_separator (y :: l)));
      [constructor|assumption|constructor|].
    apply elements_text_ws; [now repeat constructor|now apply IH].
Qed.

Lemma member_text_split kb v :
  dq kb ++ key_separator ++ v
  = [] ++ dq kb ++ [] ++ ord ":" :: [ord " "] ++ v ++ [].
Proof. cbn [app]. now rewrite List.app_nil_r. Qed.

Lemma join_members ext (enc : pyval -> str) kv d :
  Forall (fun kv => wf_str (fst kv) /\ value_text ext (enc (snd kv))) (kv :: d) ->
  members_text ext
    (join item_separator
       (map (fun kv => encode_basestring_ascii (fst kv)
                       ++ key_separator ++ enc (snd kv)) (kv :: d))).
Proof.
  revert kv. induction d as [|kv' d IH]; intros kv H.
  - cbn [map join]. apply Forall_cons_iff in H as [[Hk Hv] _].
    change (encode_basestring_ascii (fst kv))
      with (dq (flat_map escape_char (fst kv))).
    rewrite member_text_split.
    apply (mb_last ext [] (flat_map escape_char (fst kv)) (fst kv) []
             [ord " "] (enc (snd kv)) []);
      [constructor|now apply encode_body_sound|constructor
      |now repeat constructor|assumption|constructor].
  - apply Forall_cons_iff in H as [[Hk Hv] H].
    cbn [map].
    match goal with
    | |- members_text _ (join _ (?a :: ?b :: ?l)) =>
        change (join item_separator (a :: b :: l))
          with (a ++ item_separator ++ join item_separator (b :: l))
    end.
    change (encode_basestring_ascii (fst kv))
      with (dq (flat_map escape_char (fst kv))).
    rewrite <- !app_assoc.
    change (dq (flat_map escape_char (fst kv)) ++ key_separator ++
            enc (snd kv) ++ item_separator ++ ?rest)
      with ([] ++ dq (flat_map escape_char (fst kv)) ++ [] ++
            ord ":" :: [ord " "] ++ enc (snd kv) ++ [] ++
            ord "," :: ([ord " "] ++ rest)).
    apply (mb_more ext [] (flat_map escape_char (fst kv)) (fst kv) []
             [ord " "] (enc (snd kv)) []);
      [constructor|now apply encode_body_sound|constructor
      |now repeat constructor|assumption|constructor|].
    apply members_text_ws; [now repeat constructor|].
    exact (IH kv' H).
Qed.

(** The text [dumps] writes is JSON text, with the three constants where
    the value holds a float that is no number. *)
Lemma iterencode_json ext v :
  wf_val v -> ext = true \/ no_constant v = true ->
  value_text ext (iterencode v).
Proof.
  induction v as [ |b|z|f|s|l IH|d IH] using pyval_ind_nested;
    intros Hwf Hext.
  - apply vt_null.
  - destruct b; [apply vt_true|apply vt_false].
  - apply vt_number, intstr_lexeme.
  - cbn [iterencode]. destruct (finite_float f) eqn:Ef.
    + apply vt_number. now apply floatstr_lexeme.
    + destruct Hext as [->|Hn]; [apply floatstr_json|].
      cbn [no_constant] in Hn. congruence.
  - cbn [iterencode]. inversion Hwf; subst.
    apply (vt_string ext (flat_map escape_char s) s).
    now apply encode_body_sound.
  - inversion Hwf as [ | | | | |l' Hl| ]; subst.
    destruct l as [|x l].
    + apply (vt_array_empty ext []). constructor.
    + change (iterencode (PList (x :: l)))
        with (ord "[" :: join item_separator (map iterencode (x :: l))
                ++ [ord "]"]).
      apply vt_array. cbn [map]. apply join_elements.
      change (iterencode x :: map iterencode l) with (map iterencode (x :: l)).
      apply Forall_map.
      assert (Hn : ext = true \/ forallb no_constant (x :: l) = true)
        by (destruct Hext as [?|Hn]; [now left|right; exact Hn]).
      clear Hext Hwf.
      induction IH as [|y ys Hy _ IHys]; [constructor|].
      apply Forall_cons_iff in Hl as [Hwy Hl].
      constructor.
      * apply Hy; [assumption|].
        destruct Hn as [?|Hn]; [now left|right].
        cbn [forallb] in Hn. now apply andb_true_iff in Hn as [? _].
      * apply IHys; [assumption|].
        destruct Hn as [?|Hn]; [now left|right].
        cbn [forallb] in Hn. now apply andb_true_iff in Hn as [_ ?].
  - inversion Hwf as [ | | | | | |d' Hd Hnd]; subst.
    destruct d as [|kv d].
    + apply (vt_object_empty ext []). constructor.
    + change (iterencode (PDict (kv :: d)))
        with (ord "{" ::
              join item_separator
                (map (fun kv => encode_basestring_ascii (fst kv)
                                ++ key_separator ++ iterencode (snd kv))
                   (kv :: d))
              ++ [ord "}"]).
      apply vt_object. apply join_members.
      assert (Hn : ext = true \/
                   forallb (fun kv => no_constant (snd kv)) (kv :: d) = true)
        by (destruct Hext as [?|Hn]; [now left|right; exact Hn]).
      clear Hext Hwf Hnd.
      induction IH as [|y ys Hy _ IHys]; [constructor|].
      apply Forall_cons_iff in Hd as [[Hky Hwy] Hd].
      constructor.
      * split; [assumption|]. apply Hy; [assumption|].
        destruct Hn as [?|Hn]; [now left|right].
        cbn [forallb] in Hn. now apply andb_true_iff in Hn as [? _].
      * apply IHys; [assumption|].
        destruct Hn as [?|Hn]; [now left|right].
        cbn [forallb] in Hn. now apply andb_true_iff in Hn as [_ ?].
Qed.

Lemma value_json_text ext t : value_text ext t -> json_text ext t.
Proof.
  intros H. exists [], t, [].
  split; [constructor|]. split; [assumption|]. split; [constructor|].
  cbn [app]. now rewrite List.app_nil_r.
Qed.

(** ** Texts that are no JSON text *)

Lemma number_lexeme_head t :
  number_lexeme t ->
  exists c t', t = c :: t' /\ ((c =? ord "-") || is_digit c) = true.
Proof.
  intros (neg & c & ds & frac & ex & Hc & _ & _ & _ & _ & ->).
  destruct neg; cbn [app].
  - now eexists _, _.
  - exists c, (ds ++ frac ++ ex). split; [reflexivity|].
    rewrite Hc. apply orb_true_r.
Qed.

Lemma value_start_not_ws ext c : value_start ext c = true -> is_ws c = false.
Proof.
  intros H. destruct (is_ws c) eqn:E; [|reflexivity].
  apply ws_cases in E as [->|[->|[->| ->]]]; destruct ext; discriminate H.
Qed.

Lemma value_text_head ext v :
  value_text ext v ->
  exists c v', v = c :: v' /\ value_start ext c = true.
Proof.
  intros [ | | |t Ht|body s Hb|w Hw|body Hb|w Hw|body Hb|t He Ht];
    try (eexists _, _; split; [reflexivity|]; reflexivity).
  - destruct (number_lexeme_head t Ht) as (c & t' & -> & Hc).
    exists c, t'. split; [reflexivity|]. unfold value_start.
    apply orb_true_iff in Hc as [Hc|Hc]; rewrite Hc;
      rewrite ?orb_true_r; reflexivity.
  - subst ext. destruct Ht as [->|[->| ->]];
      eexists _, _; (split; [reflexivity|]); reflexivity.
Qed.

Lemma skip_ws_value ext w v x :
  blank w -> value_text ext v -> skip_ws (w ++ v ++ x) = v ++ x.
Proof.
  intros Hw Hv. destruct (value_text_head ext v Hv) as (c & v' & -> & Hc).
  cbn [app]. apply skip_ws_past; [assumption|].
  now apply (value_start_not_ws ext).
Qed.

(** A JSON text starts, after whitespace, with a value. *)
Lemma json_text_value ext t :
  json_text ext t ->
  exists v x, skip_ws t = v ++ x /\ value_text ext v /\ blank x.
Proof.
  intros (w1 & v & w2 & H1 & Hv & H2 & ->).
  exists v, w2. split; [|now split]. now apply (skip_ws_value ext).
Qed.

Lemma members_text_first ext body :
  members_text ext body ->
  exists w1 kbody k w2 w3 v x,
    blank w1 /\ string_body kbody k /\ blank w2 /\ blank w3 /\
    value_text ext v /\
    body = w1 ++ dq kbody ++ w2 ++ ord ":" :: w3 ++ v ++ x.
Proof.
  intros [w1 kb k w2 w3 v w4 H1 Hk H2 H3 Hv H4
         |w1 kb k w2 w3 v w4 rest H1 Hk H2 H3 Hv H4 Hr].
  - exists w1, kb, k, w2, w3, v, w4. now repeat split.
  - exists w1, kb, k, w2, w3, v, (w4 ++ ord "," :: rest). now repeat split.
Qed.

(** The first member of a JSON text that is an object, as the decoder
    finds it. *)
Lemma json_object_first ext t rest :
  json_text ext t -> skip_ws t = ord "{" :: rest ->
  (exists r, skip_ws rest = ord "}" :: r) \/
  (exists q k r r' v y,
     skip_ws rest = QUOTE :: q /\ scanstring q = Ok (k, r) /\
     skip_ws r = ord ":" :: r' /\ skip_ws r' = v ++ y /\ value_text ext v).
Proof.
  intros H E. apply json_text_value in H as (p & x & Ep & Hp & _).
  rewrite E in Ep. clear E t.
  destruct Hp as [ | | |t Ht|body s Hb|w Hw|body Hb|w Hw|body Hb|t He Ht];
    try discriminate Ep.
  - destruct (number_lexeme_head t Ht) as (c & t' & -> & Hc).
    injection Ep as <- _. discriminate Hc.
  - left. injection Ep as ->. exists x.
    rewrite <- app_assoc. now apply skip_ws_past.
  - right. injection Ep as ->.
    apply members_text_first in Hb
      as (w1 & kb & k & w2 & w3 & v & y & H1 & Hk & H2 & H3 & Hv & ->).
    exists (kb ++ QUOTE :: w2 ++ ord ":" :: w3 ++ v ++ y ++ ord "}" :: x),
      k, (w2 ++ ord ":" :: w3 ++ v ++ y ++ ord "}" :: x),
      (w3 ++ v ++ y ++ ord "}" :: x), v, (y ++ ord "}" :: x).
    split; [|split; [|split; [|split]]].
    + unfold dq. repeat (rewrite <- !app_assoc; cbn [app]).
      now apply skip_ws_past.
    + now apply scanstring_sound.
    + now apply skip_ws_past.
    + now apply (skip_ws_value ext).
    + assumption.
  - destruct Ht as [->|[->| ->]]; discriminate Ep.
Qed.

(** None of the three constants is a JSON value. *)
Lemma constant_is_no_json_value t :
  t = u "NaN" \/ t = u "Infinity" \/ t = u "-Infinity" ->
  ~ value_text false t.
Proof.
  intros Ht Hv.
  destruct Hv as [ | | |t Ht'|body s Hb|w Hw|body Hb|w Hw|body Hb|t He Ht'];
    try (destruct Ht as [Ht|[Ht|Ht]]; discriminate Ht).
  - destruct Ht' as (neg & c & ds & frac & ex & Hc & _ & _ & _ & _ & ->).
    destruct neg; cbn [app] in Ht;
      destruct Ht as [Ht|[Ht|Ht]]; try discriminate Ht;
      inversion Ht; subst; discriminate Hc.
  - discriminate He.
Qed.

(** In a JSON text that is an object whose first member has the plain key
    [key], a value follows the colon. *)
Lemma first_member_value ext key t :
  forallb is_plain key = true ->
  json_text ext (u "{" ++ dq key ++ u ": " ++ t) ->
  exists v y, skip_ws t = v ++ y /\ value_text ext v.
Proof.
  intros Hk H.
  destruct (json_object_first ext _ (dq key ++ u ": " ++ t) H eq_refl)
    as [(r & E)|(q & k & r & r' & v & y & E1 & E2 & E3 & E4 & Hv)].
  - discriminate E.
  - pose proof (scanstring_sound key key (plain_body key Hk) (u ": " ++ t)) as Es.
    assert (Eq : q = key ++ QUOTE :: u ": " ++ t).
    { change (skip_ws (dq key ++ u ": " ++ t))
        with (QUOTE :: (key ++ [QUOTE]) ++ u ": " ++ t) in E1.
      rewrite <- app_assoc in E1. now injection E1. }
    rewrite Eq, Es in E2. injection E2 as <- <-.
    assert (Er : r' = u " " ++ t) by (now injection E3).
    rewrite Er in E4. exists v, y. split; [exact E4|exact Hv].
Qed.

(** No JSON value starts where one of the three constants is written. *)
Lemma constant_starts_no_value t rest v y :
  t = u "NaN" \/ t = u "Infinity" \/ t = u "-Infinity" ->
  skip_ws (t ++ rest) = v ++ y -> ~ value_text false v.
Proof.
  intros Ht E Hv.
  destruct (value_text_head false v Hv) as (c & v' & -> & Hstart).
  destruct Ht as [->|[->| ->]]; injection E as <- E; try discriminate Hstart.
  inversion Hv; subst; try discriminate.
  match goal with
  | Hn : number_lexeme _ |- _ =>
      destruct Hn as (neg & c & ds & frac & ex & Hd & _ & _ & _ & _ & Et)
  end.
  destruct neg; cbn [app] in Et; inversion Et; subst.
  - cbn [app] in E. inversion E; subst. discriminate Hd.
  - discriminate Hd.
Qed.

(** A line whose value is one of the three constants is no JSON text, and
    neither is the input object with such a prompt. *)
Lemma constant_line_is_no_json t :
  t = u "NaN" \/ t = u "Infinity" \/ t = u "-Infinity" ->
  ~ json_text false (output_line t).
Proof.
  intros Ht H.
  destruct (first_member_value false (u "output") (t ++ u "}" ++ [NEWLINE])
              eq_refl H) as (v & y & E & Hv).
  exact (constant_starts_no_value t _ v y Ht E Hv).
Qed.

Lemma constant_prompt_is_no_json t :
  t = u "NaN" \/ t = u "Infinity" \/ t = u "-Infinity" ->
  ~ json_text false (prompt_object t).
Proof.
  intros Ht H.
  destruct (first_member_value false (u "prompt") (t ++ u "}") eq_refl H)
    as (v & y & E & Hv).
  exact (constant_starts_no_value t _ v y Ht E Hv).
Qed.

(** Two words are no JSON text, not even with the constants. *)
Lemma words_are_no_json : ~ json_text true (u "not json").
Proof.
  intros H. apply json_text_value in H as (v & x & E & Hv & Hx).
  change (skip_ws (u "not json")) with (u "not json") in E.
  inversion Hv as [E0|E0|E0|t Ht E0|body s Hb E0|w Hw E0|body Hb E0
                  |w Hw E0|body Hb E0|t He Ht E0];
    subst; try discriminate E.
  - destruct (number_lexeme_head _ Ht) as (c & t' & -> & Hc).
    injection E as <- _. discriminate Hc.
  - destruct Ht as [->|[->| ->]]; discriminate E.
Qed.

Lemma float_reread_fixed f : float_reread f = f -> float_reads_back f.
Proof. intros E rest Hr. now rewrite (float_scans f rest Hr), E. Qed.

Lemma line_json ext v :
  wf_val v -> ext = true \/ no_constant v = true ->
  json_text ext (output_line (dumps v)).
Proof.
  intros Hwf Hext. rewrite <- dumps_result.
  exists [], (dumps (result_of v)), [NEWLINE].
  split; [constructor|]. split; [|split; [now repeat constructor|reflexivity]].
  apply iterencode_json; [now apply wf_val_result|].
  destruct Hext as [->|Hn]; [now left|right].
  cbn [result_of no_constant forallb snd]. now rewrite Hn.
Qed.

(** Two JSON numbers: one beyond the largest float, one between two
    floats. *)
Lemma large_numbers_are_json :
  value_text false (u "1e400") /\ value_text false (u "9007199254740993.0").
Proof.
  split; apply vt_number.
  - exists false, (ord "1"), [], [], (u "e400").
    split; [reflexivity|]. split; [reflexivity|]. split; [reflexivity|].
    split; [now left|]. split; [|reflexivity].
    right. exists (ord "e"), [], (u "400").
    split; [reflexivity|]. split; [now left|].
    split; [split; [discriminate|reflexivity]|reflexivity].
  - exists false, (ord "9"), (u "007199254740993"), (u ".0"), [].
    split; [reflexivity|]. split; [reflexivity|]. split; [discriminate|].
    split; [|split; [now left|reflexivity]].
    right. exists (u "0"). split; [|reflexivity].
    split; [discriminate|reflexivity].
Qed.

(** ** Worked inputs

    What the decoder and the encoder of the standard library do on inputs
    at the edge of JSON, as the model computes it. *)

(** A number is decoded to an [int] or a [float] and written back by
    [repr]: the text of the number is not kept. *)
Example number_prompt_is_rendered_anew :
  run (prompt_object (u "1E2")) = Some (success (output_line (u "100.0"))) /\
  run (prompt_object (u "-0")) = Some (success (output_line (u "0"))) /\
  run (prompt_object (u "0.1")) = Some (success (output_line (u "0.1"))) /\
  run (prompt_object (u "1e400")) = Some (success (output_line (u "Infinity"))).
Proof. repeat split; vm_compute; reflexivity. Qed.

(** The decoder accepts the three constants outside JSON, and the encoder
    writes them back. *)
Example nan_prompt_is_accepted :
  run (prompt_object (u "NaN")) = Some (success (output_line (u "NaN"))) /\
  run (prompt_object (u "-Infinity"))
  = Some (success (output_line (u "-Infinity"))).
Proof. split; vm_compute; reflexivity. Qed.

(** Of two members with the same key the later one counts. *)
Example duplicate_key_last_wins :
  run (u "{" ++ dq (u "prompt") ++ u ": 1, " ++ dq (u "prompt") ++ u ": 2}")
  = Some (success (output_line (u "2"))).
Proof. vm_compute; reflexivity. Qed.

(** Texts the decoder refuses: a byte order mark, a control character
    inside a string, a trailing comma, text after the value. *)
Example refused_texts :
  run (0xfeff :: u "{}") = Some (failure JSONDecodeError) /\
  run (prompt_object (dq [9])) = Some (failure JSONDecodeError) /\
  run (u "{" ++ dq (u "prompt") ++ u ": 1,}") = Some (failure JSONDecodeError) /\
  run (u "{} {}") = Some (failure JSONDecodeError).
Proof. repeat split; vm_compute; reflexivity. Qed.

(** * The behaviour of the script *)






(** C3.  When the decoded input is an object with no ["prompt"] key, as
    for the text [{}], the script exits with status 0 and writes the line
    [{"output": <empty string literal>}]: the missing key is the empty
    string, not null, not an error, and the ["output"] key is not left
    out. *)
Theorem missing_prompt_defaults_to_empty_string text d :
  loads text = Ok (PDict d) ->
  dict_get d (u "prompt") = None ->
  run text = Some {| exit_status := 0;
                     output := output_line (dq []);
                     uncaught := None |}
  /\ output_line (dq []) <> output_line (u "null").
Proof.
  intros H Hget. split; [|discriminate].
  rewrite (run_object _ _ H). unfold prompt_of. now rewrite Hget.
Qed.

(** The input [{}]. *)
Lemma missing_prompt_defaults_to_empty_string_witness :
  loads (u "{}") = Ok (PDict []) /\
  dict_get [] (u "prompt") = None /\
  run (u "{}") = Some {| exit_status := 0;
                         output := output_line (dq []);
                         uncaught := None |}.
Proof.
  assert (H : loads (u "{}") = Ok (PDict [])) by reflexivity.
  split; [exact H|]. split; [reflexivity|].
  exact (proj1 (missing_prompt_defaults_to_empty_string (u "{}") [] H eq_refl)).
Defined.




(** C5.  When the text on standard input decodes to a value that is not an
    object (a list, a string, a number, a boolean or null), the call of
    [get] on it raises [AttributeError], which nothing catches: the script
    exits with status 1 and has written nothing. *)
Theorem non_object_input_fails text v :
  loads text = Ok v ->
  (forall d, v <> PDict d) ->
  method_get v (u "prompt") (PStr []) = Raise AttributeError /\
  run text = Some {| exit_status := 1; output := [];
                     uncaught := Some AttributeError |}.
Proof.
  intros H Hnd. rewrite run_eq, H.
  destruct v; try (split; reflexivity). now destruct (Hnd d).
Qed.

(** The input [[1,2,3]] of the specification. *)
Lemma non_object_input_fails_witness :
  loads (u "[1,2,3]") = Ok (PList [PInt 1; PInt 2; PInt 3]) /\
  (forall d, PList [PInt 1; PInt 2; PInt 3] <> PDict d) /\
  run (u "[1,2,3]") = Some {| exit_status := 1; output := [];
                              uncaught := Some AttributeError |}.
Proof.
  assert (H : loads (u "[1,2,3]") = Ok (PList [PInt 1; PInt 2; PInt 3]))
    by reflexivity.
  assert (Hnd : forall d, PList [PInt 1; PInt 2; PInt 3] <> PDict d)
    by discriminate.
  split; [exact H|]. split; [exact Hnd|].
  exact (proj2 (non_object_input_fails _ _ H Hnd)).
Defined.

(** C6.  On every run that exits with status 0, standard output is exactly
    one line: the text [{"output": <value>}] followed by a newline, where
    [<value>] is [dumps] of the value extracted from the decoded object.
    What is printed is [dumps] of a dict with the single key ["output"];
    the line holds printable ASCII only, so the newline that ends it is the
    only one written.  For an input of Unicode scalar values, [<value>] is
    a JSON value and the line a JSON text when the prompt holds no float
    that is NaN or infinite; when it holds one, they are so only with the
    constants NaN, Infinity and -Infinity counted as values. *)
Theorem successful_run_writes_one_line text c :
  run text = Some c ->
  exit_status c = 0%Z ->
  exists d,
    loads text = Ok (PDict d) /\
    output c = output_line (dumps (prompt_of d)) /\
    output c = dumps (PDict [(u "output", prompt_of d)]) ++ [NEWLINE] /\
    all_printable (dumps (PDict [(u "output", prompt_of d)])) /\
    ~ In NEWLINE (dumps (PDict [(u "output", prompt_of d)])) /\
    uncaught c = None /\
    (scalar_text text ->
     forall ext, ext = true \/ no_constant (prompt_of d) = true ->
       value_text ext (dumps (prompt_of d)) /\ json_text ext (output c)).
Proof.
  rewrite run_eq. intros Hrun Hstatus.
  destruct (loads text) as [v|e|] eqn:Hl; [| |discriminate].
  - destruct v; try (injection Hrun as <-; discriminate).
    exists d.
    assert (E : c = success (dumps (result_of (prompt_of d)) ++ [NEWLINE]))
      by congruence.
    subst c. cbn [output uncaught success].
    pose proof (dumps_printable (result_of (prompt_of d))) as Hp.
    repeat split; auto using dumps_result, all_printable_no_newline.
    + apply iterencode_json; [|assumption].
      now apply (wf_val_prompt text).
    + rewrite dumps_result. apply line_json; [|assumption].
      now apply (wf_val_prompt text).
  - injection Hrun as <-. discriminate.
Qed.

(** The input whose prompt is the list of 0.5 and hello world. *)
Lemma successful_run_writes_one_line_witness :
  let value := u "[0.5, " ++ dq (u "hello world") ++ u "]" in
  let text := prompt_object value in
  let c := {| exit_status := 0; output := output_line value;
              uncaught := None |} in
  run text = Some c /\ exit_status c = 0%Z /\ scalar_text text /\
  value_text false value /\ json_text false (output c).
Proof.
  intros value text c.
  assert (H : run text = Some c) by (vm_compute; reflexivity).
  assert (Hsc : scalar_text text) by (repeat constructor).
  split; [exact H|]. split; [reflexivity|]. split; [exact Hsc|].
  destruct (successful_run_writes_one_line text c H eq_refl)
    as (d & Hl & _ & _ & _ & _ & _ & Hjson).
  assert (Ed : d = [(u "prompt",
                     PList [PFloat (S754_finite false 4503599627370496 (-53));
                            PStr (u "hello world")])]).
  { vm_compute in Hl. now injection Hl. }
  subst d.
  destruct (Hjson Hsc false (or_intror eq_refl)) as [Hv Hline].
  split; [exact Hv|exact Hline].
Defined.

(** The input [{"prompt": 1e400}] is a JSON text; the line the script
    writes for it, [{"output": Infinity}], is none. *)
Lemma infinite_prompt_line_is_not_json :
  json_text false (prompt_object (u "1e400")) /\
  run (prompt_object (u "1e400")) = Some (success (output_line (u "Infinity"))) /\
  ~ json_text false (output_line (u "Infinity")) /\
  ~ value_text false (u "Infinity").
Proof.
  split; [|split; [vm_compute; reflexivity|split]].
  - apply value_json_text.
    change (prompt_object (u "1e400"))
      with (ord "{" :: ([] ++ dq (u "prompt") ++ [] ++ ord ":" :: [ord " "]
                          ++ u "1e400" ++ []) ++ [ord "}"]).
    apply vt_object.
    apply (mb_last false [] (u "prompt") (u "prompt") [] [ord " "] (u "1e400") []);
      [constructor|apply plain_body; reflexivity|constructor
      |now repeat constructor|exact (proj1 large_numbers_are_json)|constructor].
  - apply constant_line_is_no_json. auto.
  - apply constant_is_no_json_value. auto.
Qed.

(** C8.  When the decoded input object maps ["prompt"] to null, as for the
    text [{"prompt": null}], the script exits with status 0 and writes the
    line [{"output": null}]: the empty-string default is for an absent key
    only, and the line differs from the one written for it. *)
Theorem null_prompt_is_echoed_as_null text d :
  loads text = Ok (PDict d) ->
  dict_get d (u "prompt") = Some PNone ->
  run text = Some {| exit_status := 0;
                     output := output_line (u "null");
                     uncaught := None |}
  /\ output_line (u "null") <> output_line (dq []).
Proof.
  intros H Hget. split; [|discriminate].
  rewrite (run_object _ _ H). unfold prompt_of. now rewrite Hget.
Qed.

(** The input [{"prompt": null}]. *)
Lemma null_prompt_is_echoed_as_null_witness :
  loads (prompt_object (u "null")) = Ok (PDict [(u "prompt", PNone)]) /\
  dict_get [(u "prompt", PNone)] (u "prompt") = Some PNone /\
  run (prompt_object (u "null"))
  = Some {| exit_status := 0;
            output := output_line (u "null");
            uncaught := None |}.
Proof.
  assert (H : loads (prompt_object (u "null")) = Ok (PDict [(u "prompt", PNone)]))
    by reflexivity.
  split; [exact H|]. split; [reflexivity|].
  exact (proj1 (null_prompt_is_echoed_as_null _ _ H eq_refl)).
Defined.

(** C9.  The outcome depends on the input object through its ["prompt"]
    entry only: two input texts that decode to objects in which [get]
    finds the same thing for ["prompt"] (the same value, or nothing in
    both) give the same exit status and the same output, whatever other
    keys the objects hold; and adding or replacing any other key of an
    object changes nothing of what [get] finds for ["prompt"]. *)
Theorem output_depends_only_on_prompt t1 t2 d1 d2 :
  loads t1 = Ok (PDict d1) ->
  loads t2 = Ok (PDict d2) ->
  dict_get d1 (u "prompt") = dict_get d2 (u "prompt") ->
  run t1 = run t2
  /\ (exists c, run t1 = Some c /\ exit_status c = 0%Z)
  /\ forall k v, str_eqb k (u "prompt") = false ->
       method_get (PDict (dict_setitem d1 k v)) (u "prompt") (PStr [])
       = method_get (PDict d1) (u "prompt") (PStr []).
Proof.
  intros H1 H2 Hget. split; [|split].
  - rewrite (run_object _ _ H1), (run_object _ _ H2).
    unfold prompt_of. now rewrite Hget.
  - rewrite (run_object _ _ H1). eexists. split; reflexivity.
  - intros k v Hk. cbn [method_get]. now rewrite dict_get_setitem_other.
Qed.

(** Two objects with the same prompt, other keys before it in one and
    after it in the other. *)
Lemma output_depends_only_on_prompt_witness :
  let t1 := u "{" ++ dq (u "a") ++ u ": 1, " ++ dq (u "prompt") ++ u ": "
            ++ dq (u "x") ++ u "}" in
  let t2 := u "{" ++ dq (u "prompt") ++ u ": " ++ dq (u "x") ++ u ", "
            ++ dq (u "b") ++ u ": [true], " ++ dq (u "c") ++ u ": null}" in
  let d1 := [(u "a", PInt 1); (u "prompt", PStr (u "x"))] in
  let d2 := [(u "prompt", PStr (u "x")); (u "b", PList [PBool true]);
             (u "c", PNone)] in
  loads t1 = Ok (PDict d1) /\ loads t2 = Ok (PDict d2) /\
  dict_get d1 (u "prompt") = dict_get d2 (u "prompt") /\
  run t1 = run t2.
Proof.
  intros t1 t2 d1 d2.
  assert (H1 : loads t1 = Ok (PDict d1)) by (vm_compute; reflexivity).
  assert (H2 : loads t2 = Ok (PDict d2)) by (vm_compute; reflexivity).
  split; [exact H1|]. split; [exact H2|]. split; [reflexivity|].
  exact (proj1 (output_depends_only_on_prompt t1 t2 d1 d2 H1 H2 eq_refl)).
Defined.

(** C10.  When the input text (a sequence of Unicode scalar values)
    decodes to an object whose prompt is a string [s], the output line is
    [{"output": "..."}] with every character of [s] from U+0080 on written
    as a [\uXXXX] escape (two of them, a surrogate pair, above U+FFFF);
    every character written to standard output is ASCII; and decoding the
    output gives back the object that maps ["output"] to the same string
    [s]. *)
Theorem non_ascii_prompt_is_escaped text d s c :
  scalar_text text ->
  loads text = Ok (PDict d) ->
  prompt_of d = PStr s ->
  run text = Some c ->
  output c = output_line (dq (flat_map escape_char s))
  /\ (forall ch, In ch s -> 128 <= ch ->
        escape_char ch =
        if ch <? 0x10000 then u_escape ch
        else u_escape (0xd800 + (ch - 0x10000) / 1024)
             ++ u_escape (0xdc00 + (ch - 0x10000) mod 1024))
  /\ Forall (fun ch => ch < 128) (output c)
  /\ loads (output c) = Ok (PDict [(u "output", PStr s)]).
Proof.
  intros Hsc Hloads Hprompt Hrun.
  rewrite (run_object _ _ Hloads), Hprompt in Hrun.
  assert (E : c = success (output_line (dumps (PStr s)))) by congruence.
  subst c. cbn [output success].
  assert (Hascii : Forall (fun ch => ch < 128) (output_line (dumps (PStr s)))).
  { rewrite <- dumps_result. apply Forall_app. split.
    - apply all_printable_ascii, dumps_printable.
    - constructor; [reflexivity|constructor]. }
  change (dumps (PStr s)) with (dq (flat_map escape_char s)) in *.
  assert (Hwf : wf_str s).
  { pose proof (loads_wf _ _ Hloads Hsc) as Hv.
    inversion Hv as [ | | | | | |d' Hd Hnd]; subst.
    unfold prompt_of in Hprompt.
    destruct (dict_get d (u "prompt")) as [v|] eqn:Hget.
    - subst v.
      pose proof (dict_get_Forall _ wf_val _ _ _ Hd Hget) as Hs.
      now inversion Hs.
    - injection Hprompt as <-. split; [constructor|reflexivity]. }
  split; [reflexivity|]. split; [|split].
  - intros ch Hin Hch. apply escape_char_non_ascii; [assumption|].
    destruct Hwf as [Hcp _]. rewrite Forall_forall in Hcp. now apply Hcp.
  - exact Hascii.
  - apply loads_output_line. now apply encode_body_sound.
Qed.

(** The prompt of two characters, U+00E9 and U+1F600, given unescaped. *)
Lemma non_ascii_prompt_is_escaped_witness :
  let s := [0xe9; 0x1f600] in
  let text := prompt_object (dq s) in
  let d := [(u "prompt", PStr s)] in
  let c := {| exit_status := 0;
              output := output_line (dq (u "\u00e9\ud83d\ude00"));
              uncaught := None |} in
  scalar_text text /\ loads text = Ok (PDict d) /\
  prompt_of d = PStr s /\ run text = Some c /\
  output c = output_line (dq (flat_map escape_char s)) /\
  Forall (fun ch => ch < 128) (output c) /\
  loads (output c) = Ok (PDict [(u "output", PStr s)]).
Proof.
  intros s text d c.
  assert (Hsc : scalar_text text) by (repeat constructor).
  assert (Hl : loads text = Ok (PDict d)) by (vm_compute; reflexivity).
  assert (Hr : run text = Some c) by (vm_compute; reflexivity).
  split; [exact Hsc|]. split; [exact Hl|]. split; [reflexivity|].
  split; [exact Hr|].
  destruct (non_ascii_prompt_is_escaped text d s c Hsc Hl eq_refl Hr)
    as (H1 & _ & H3 & H4).
  split; [exact H1|]. split; [exact H3|exact H4].
Defined.

(** * Further properties of the script *)

(** X1.  The line the script writes is a JSON text of the object with the one
    key [output] and the prompt under it: reading it back gives the value
    that was read from the input, for an input of Unicode scalar values and
    a prompt whose floats [repr] writes faithfully. *)
Theorem written_line_reads_back text d c :
  scalar_text text ->
  loads text = Ok (PDict d) ->
  reads_back (prompt_of d) ->
  run text = Some c ->
  loads (output c) = Ok (PDict [(u "output", prompt_of d)]).
Proof.
  intros Ht Hl Hrb Hrun. rewrite run_eq, Hl in Hrun.
  assert (E : c = success (dumps (result_of (prompt_of d)) ++ [NEWLINE]))
    by congruence.
  subst c. cbn [output success].
  apply (loads_dumps (result_of (prompt_of d)) [NEWLINE]).
  - apply wf_val_result. eapply wf_val_prompt; eassumption.
  - now apply reads_back_result.
  - now repeat constructor.
Qed.

(** A prompt that holds a list, a string, a number, a float, a constant
    and an object. *)
Lemma written_line_reads_back_witness :
  let value := u "[1, " ++ dq (u "a") ++ u ", -0.0, null, {"
               ++ dq (u "k") ++ u ": true}]" in
  let text := prompt_object value in
  let v := PList [PInt 1; PStr (u "a"); PFloat (S754_zero true); PNone;
                  PDict [(u "k", PBool true)]] in
  let d := [(u "prompt", v)] in
  let c := success (output_line value) in
  scalar_text text /\ loads text = Ok (PDict d) /\
  reads_back (prompt_of d) /\ run text = Some c /\
  loads (output c) = Ok (PDict [(u "output", v)]).
Proof.
  intros value text v d c.
  assert (Hsc : scalar_text text) by (repeat constructor).
  assert (Hl : loads text = Ok (PDict d)) by (vm_compute; reflexivity).
  assert (Hrb : reads_back (prompt_of d)).
  { repeat constructor. now apply special_float_reads_back. }
  assert (Hr : run text = Some c) by (vm_compute; reflexivity).
  split; [exact Hsc|]. split; [exact Hl|]. split; [exact Hrb|].
  split; [exact Hr|].
  exact (written_line_reads_back text d c Hsc Hl Hrb Hr).
Defined.

(** X2.  Whitespace before and after the text on standard input changes
    nothing: the script ends the same way and writes the same, whether the
    text is accepted or refused. *)
Theorem surrounding_whitespace_is_ignored w1 w2 text :
  blank w1 -> blank w2 -> run (w1 ++ text ++ w2) = run text.
Proof.
  intros H1 H2. rewrite !run_eq. now rewrite (loads_blank _ _ _ H1 H2).
Qed.

(** A prompt with a space and a line feed before it and a line feed after
    it, as a shell pipe gives it. *)
Lemma surrounding_whitespace_is_ignored_witness :
  let text := prompt_object (dq (u "hi")) in
  blank [32; 10] /\ blank [10] /\
  run ([32; 10] ++ text ++ [10]) = run text.
Proof.
  intros text.
  assert (H1 : blank [32; 10]) by (repeat constructor).
  assert (H2 : blank [10]) by (repeat constructor).
  split; [exact H1|]. split; [exact H2|].
  exact (surrounding_whitespace_is_ignored [32; 10] [10] text H1 H2).
Defined.

(** X3.  Standard input that is empty or holds whitespace only makes the
    script fail with [JSONDecodeError], status 1 and no output. *)
Theorem blank_input_fails w :
  blank w -> run w = Some (failure JSONDecodeError).
Proof.
  intros Hw. rewrite run_eq, loads_decode. unfold decode.
  rewrite (skip_ws_all w Hw). reflexivity.
Qed.

Lemma blank_input_fails_witness :
  blank [32; 9; 10; 13] /\ run [32; 9; 10; 13] = Some (failure JSONDecodeError).
Proof.
  assert (H : blank [32; 9; 10; 13]) by (repeat constructor).
  split; [exact H|exact (blank_input_fails _ H)].
Defined.

(** X4.  A control character written as it is inside the prompt string, a
    line feed or a tab for instance, makes the script fail with
    [JSONDecodeError], whatever comes after it. *)
Theorem raw_control_character_is_refused body s c rest :
  string_body body s -> c < 32 ->
  run (prompt_object (QUOTE :: body ++ c :: rest))
  = Some (failure JSONDecodeError).
Proof.
  intros Hb Hc. rewrite run_eq.
  assert (E : loads (prompt_object (QUOTE :: body ++ c :: rest))
              = Raise JSONDecodeError).
  { unfold prompt_object, loads, dq. cbn [u app map list_ascii_of_string].
    change (ord "{" =? 0xfeff) with false. cbv iota.
    unfold decode. rewrite skip_ws_non_ws by reflexivity.
    rewrite scan_once_object, JSONObject_quote.
    cbn [length].
    erewrite JSONObject_loop_value_raise; [reflexivity| |].
    - apply (scanstring_sound (u "prompt") (u "prompt")).
      now apply plain_body.
    - rewrite skip_ws_ws by reflexivity.
      rewrite skip_ws_non_ws by reflexivity.
      rewrite length_app. cbn [length]. rewrite Nat.add_succ_r.
      rewrite scan_once_string.
      rewrite <- app_assoc. cbn [app].
      now rewrite (scanstring_control _ _ _ _ Hb Hc). }
  now rewrite E.
Qed.

(** A prompt of two lines with the line feed not escaped. *)
Lemma raw_control_character_is_refused_witness :
  let body := u "line one" in
  let rest := u "line two" ++ [QUOTE] in
  string_body body body /\ 10 < 32 /\
  run (prompt_object (QUOTE :: body ++ 10 :: rest))
  = Some (failure JSONDecodeError).
Proof.
  intros body rest.
  assert (Hb : string_body body body) by (apply plain_body; reflexivity).
  assert (Hc : 10 < 32) by lia.
  split; [exact Hb|]. split; [exact Hc|].
  exact (raw_control_character_is_refused body body 10 rest Hb Hc).
Defined.

(** X5.  For an object given member by member, every value in the form
    [dumps] writes: when the script accepts the input, the line is the one
    of the last member with the key prompt, or of the empty string when
    there is none.  The other members, their order and earlier prompt
    members change nothing. *)
Theorem last_prompt_member_is_echoed ms c :
  Forall (fun kv => wf_str (fst kv) /\ wf_val (snd kv) /\ reads_back (snd kv)) ms ->
  run (object_text ms) = Some c ->
  exit_status c = 0%Z ->
  c = success (output_line
       (dumps (match dict_get (rev ms) (u "prompt") with
               | Some v => v
               | None => PStr []
               end))).
Proof.
  intros Hms Hrun _.
  assert (Hwf : Forall (fun kv => wf_str (fst kv) /\ wf_val (snd kv)) ms).
  { eapply Forall_impl; [|exact Hms]. cbn beta. tauto. }
  assert (Hrb : Forall (fun kv => reads_back (snd kv)) ms).
  { eapply Forall_impl; [|exact Hms]. cbn beta. tauto. }
  rewrite (run_object _ _ (loads_object_text ms Hwf)) in Hrun.
  rewrite (map_reread_members ms Hrb) in Hrun.
  unfold prompt_of in Hrun. rewrite dict_get_of_pairs in Hrun.
  now injection Hrun.
Qed.

(** Three members, two of them with the key prompt. *)
Lemma last_prompt_member_is_echoed_witness :
  let ms := [(u "prompt", PInt 1); (u "user", PStr (u "ann"));
             (u "prompt", PList [PBool true; PNone])] in
  let c := success (output_line (u "[true, null]")) in
  Forall (fun kv => wf_str (fst kv) /\ wf_val (snd kv) /\ reads_back (snd kv)) ms /\
  run (object_text ms) = Some c /\ exit_status c = 0%Z /\
  c = success (output_line (dumps (PList [PBool true; PNone]))).
Proof.
  intros ms c.
  assert (Hs : forall s, forallb is_code_point s = true -> no_pair s = true ->
                         wf_str s).
  { intros s H1 H2. split; [|exact H2]. apply Forall_forall.
    now apply forallb_forall. }
  assert (Hms : Forall (fun kv => wf_str (fst kv) /\ wf_val (snd kv)
                                  /\ reads_back (snd kv)) ms).
  { repeat (apply Forall_cons || apply Forall_nil);
      (split; [now apply Hs|split; repeat constructor]). }
  assert (Hr : run (object_text ms) = Some c) by (vm_compute; reflexivity).
  split; [exact Hms|]. split; [exact Hr|]. split; [reflexivity|].
  exact (last_prompt_member_is_echoed ms c Hms Hr eq_refl).
Defined.

(** X6.  Two inputs that make the script write the same line have the same
    prompt value: the line tells the prompt. *)
Theorem same_line_same_prompt t1 t2 d1 d2 :
  scalar_text t1 -> scalar_text t2 ->
  loads t1 = Ok (PDict d1) -> loads t2 = Ok (PDict d2) ->
  reads_back (prompt_of d1) -> reads_back (prompt_of d2) ->
  run t1 = run t2 ->
  prompt_of d1 = prompt_of d2.
Proof.
  intros Hs1 Hs2 Hl1 Hl2 Hr1 Hr2 Hrun.
  rewrite (run_object _ _ Hl1), (run_object _ _ Hl2) in Hrun.
  assert (E : output_line (dumps (prompt_of d1))
              = output_line (dumps (prompt_of d2))).
  { unfold success in Hrun. congruence. }
  pose proof (loads_line _ (wf_val_prompt _ _ Hs1 Hl1)) as L1.
  pose proof (loads_line _ (wf_val_prompt _ _ Hs2 Hl2)) as L2.
  rewrite (reads_back_reread _ Hr1) in L1.
  rewrite (reads_back_reread _ Hr2) in L2.
  rewrite E, L2 in L1. unfold result_of in L1. congruence.
Qed.

(** The same prompt written in two ways, with another member beside it. *)
Lemma same_line_same_prompt_witness :
  let t1 := prompt_object (u "[1, 2]") in
  let t2 := u "{" ++ dq (u "prompt") ++ u ":[1,2], " ++ dq (u "n") ++ u ":0}" in
  let d1 := [(u "prompt", PList [PInt 1; PInt 2])] in
  let d2 := [(u "prompt", PList [PInt 1; PInt 2]); (u "n", PInt 0)] in
  scalar_text t1 /\ scalar_text t2 /\
  loads t1 = Ok (PDict d1) /\ loads t2 = Ok (PDict d2) /\
  reads_back (prompt_of d1) /\ reads_back (prompt_of d2) /\
  run t1 = run t2 /\ prompt_of d1 = prompt_of d2.
Proof.
  intros t1 t2 d1 d2.
  assert (Hs1 : scalar_text t1) by (repeat constructor).
  assert (Hs2 : scalar_text t2) by (repeat constructor).
  assert (Hl1 : loads t1 = Ok (PDict d1)) by (vm_compute; reflexivity).
  assert (Hl2 : loads t2 = Ok (PDict d2)) by (vm_compute; reflexivity).
  assert (Hr1 : reads_back (prompt_of d1)) by (repeat constructor).
  assert (Hr2 : reads_back (prompt_of d2)) by (repeat constructor).
  assert (Hrun : run t1 = run t2) by (vm_compute; reflexivity).
  repeat (split; [assumption|]).
  exact (same_line_same_prompt t1 t2 d1 d2 Hs1 Hs2 Hl1 Hl2 Hr1 Hr2 Hrun).
Defined.

(** X7.  The line of a successful run is a text [json.loads] accepts: it
    decodes to the object with the single key output, and the value under
    it is the prompt that was read, each float in it read again from the
    text [repr] wrote for it. *)
Theorem written_line_is_accepted text d c :
  scalar_text text ->
  loads text = Ok (PDict d) ->
  run text = Some c ->
  loads (output c) = Ok (PDict [(u "output", reread (prompt_of d))]).
Proof.
  intros Ht Hl Hrun. rewrite (run_object _ _ Hl) in Hrun.
  assert (E : c = success (output_line (dumps (prompt_of d)))) by congruence.
  subst c. cbn [output success].
  exact (loads_line _ (wf_val_prompt _ _ Ht Hl)).
Qed.

(** A prompt with two finite floats and one past the largest float. *)
Lemma written_line_is_accepted_witness :
  let text := prompt_object (u "[0.1, 2.5e-7, 1e400]") in
  exists d c,
    scalar_text text /\ loads text = Ok (PDict d) /\ run text = Some c /\
    output c = output_line (u "[0.1, 2.5e-07, Infinity]") /\
    loads (output c) = Ok (PDict [(u "output", reread (prompt_of d))]).
Proof.
  intros text.
  assert (Hsc : scalar_text text) by (repeat constructor).
  destruct (loads text) as [[ | | | | | |d]| |] eqn:Hl;
    try (vm_compute in Hl; discriminate Hl).
  destruct (run text) as [c|] eqn:Hr; [|vm_compute in Hr; discriminate Hr].
  exists d, c.
  split; [exact Hsc|]. split; [reflexivity|]. split; [reflexivity|].
  split; [vm_compute in Hr; injection Hr as <-; reflexivity|].
  exact (written_line_is_accepted text d c Hsc Hl Hr).
Defined.

(** X8.  The script run on a line it wrote finds no prompt in it, and
    writes the line of the empty string. *)
Theorem output_fed_back_has_no_prompt text c :
  scalar_text text -> run text = Some c -> exit_status c = 0%Z ->
  run (output c) = Some (success (output_line (dq []))).
Proof.
  intros Ht Hrun Hst. rewrite run_eq in Hrun.
  destruct (loads text) as [v|e|] eqn:Hl; [|injection Hrun as <-; discriminate Hst
                                           |discriminate Hrun].
  destruct v as [ | | | | | |d];
    try (injection Hrun as <-; discriminate Hst).
  rewrite dumps_result in Hrun. injection Hrun as <-. cbn [output success].
  rewrite (run_object _ _ (loads_line _ (wf_val_prompt _ _ Ht Hl))).
  reflexivity.
Qed.

Lemma output_fed_back_has_no_prompt_witness :
  let text := prompt_object (u "[0.5, null]") in
  let c := success (output_line (u "[0.5, null]")) in
  scalar_text text /\ run text = Some c /\ exit_status c = 0%Z /\
  run (output c) = Some (success (output_line (dq []))).
Proof.
  intros text c.
  assert (Hsc : scalar_text text) by (repeat constructor).
  assert (Hr : run text = Some c) by (vm_compute; reflexivity).
  split; [exact Hsc|]. split; [exact Hr|]. split; [reflexivity|].
  exact (output_fed_back_has_no_prompt text c Hsc Hr eq_refl).
Defined.

(** X9.  After an input that the script accepts, any further text other
    than whitespace makes it fail: a second object on the next line, for
    instance. *)
Theorem text_after_the_object_is_refused text extra c :
  run text = Some c -> exit_status c = 0%Z -> skip_ws extra <> [] ->
  run (text ++ extra) = Some (failure JSONDecodeError).
Proof.
  intros Hrun Hst Hex. rewrite run_eq in Hrun.
  destruct (loads text) as [v|e|] eqn:Hl;
    [|injection Hrun as <-; discriminate Hst|discriminate Hrun].
  destruct v as [ | | | | | |d];
    try (injection Hrun as <-; discriminate Hst).
  rewrite run_eq, (loads_extra _ _ _ Hl eq_refl Hex). reflexivity.
Qed.

(** Two objects, one to a line. *)
Lemma text_after_the_object_is_refused_witness :
  let text := prompt_object (u "1") in
  let extra := NEWLINE :: prompt_object (u "2") in
  let c := success (output_line (u "1")) in
  run text = Some c /\ exit_status c = 0%Z /\ skip_ws extra <> [] /\
  run (text ++ extra) = Some (failure JSONDecodeError).
Proof.
  intros text extra c.
  assert (Hr : run text = Some c) by (vm_compute; reflexivity).
  assert (Hex : skip_ws extra <> []) by discriminate.
  split; [exact Hr|]. split; [reflexivity|]. split; [exact Hex|].
  exact (text_after_the_object_is_refused text extra c Hr eq_refl Hex).
Defined.


